(** * stoqserver.lib.restful: device locking, event stream and TEF coordination

    A shallow embedding of the device-facing core of
    [stoqserver/lib/restful.py]: the printer check with its bounded reopen
    loop ([_BaseResource.ensure_printer]), the per-station event stream
    ([EventStream]), the TEF question/reply protocol ([TefResource],
    [TefReplyResource]) and the drawer poller ([check_drawer_loop]).

    External collaborators (the printer driver, the plugin that runs a TEF
    operation, the frontend that answers questions) are inputs of the
    model: a device is a function from the number of the interaction to its
    outcome, a plugin is a finite tree of callbacks ending in a return value
    or a raised exception. *)

From Stdlib Require Import ZArith Lia.
From stdpp Require Import gmap strings list fin_maps.

Open Scope string_scope.
Open Scope list_scope.

(** ** Python values *)

(** The JSON-like values that travel through requests, events and plug-in
    results. *)
#[warnings="-register-all"]
Inductive pyval : Type :=
| PyNone
| PyBool (b : bool)
| PyInt (z : Z)
| PyStr (s : string)
| PyList (items : list pyval)
| PyDict (items : list (string * pyval)).

(** [bool(v)] *)
Definition truthy (v : pyval) : bool :=
  match v with
  | PyNone => false
  | PyBool b => b
  | PyInt z => negb (Z.eqb z 0)
  | PyStr s => negb (String.eqb s "")
  | PyList l => negb (Nat.eqb (length l) 0)
  | PyDict d => negb (Nat.eqb (length d) 0)
  end.

Definition is_bool (v : pyval) : bool :=
  match v with PyBool _ => true | _ => false end.

(** [d.get(k)] on the association list of a dict literal: first binding. *)
Fixpoint assoc_get (k : string) (d : list (string * pyval)) : option pyval :=
  match d with
  | [] => None
  | (k', v) :: rest => if String.eqb k k' then Some v else assoc_get k rest
  end.

(** [d.pop(k, None)], result discarded: the dict without the key. *)
Fixpoint assoc_remove (k : string) (d : list (string * pyval)) : list (string * pyval) :=
  match d with
  | [] => []
  | (k', v) :: rest =>
      if String.eqb k k' then assoc_remove k rest else (k', v) :: assoc_remove k rest
  end.

(** ** Exceptions *)

(** The two transport faults of the printer driver that the module names. *)
Inductive fault : Type :=
| SerialException
| InvalidReplyException.

(** Exceptions as the module raises or meets them. *)
Inductive exn : Type :=
| AssertionError
| Fault (f : fault)
| TillError (message : string)
| AttributeError
| TypeError
| KeyError (key : string)
| ValueError.

Inductive result (A : Type) : Type :=
| Returned (a : A)
| Raised (e : exn).
Arguments Returned {A} a.
Arguments Raised {A} e.

(** ** Events of the stream *)

Inductive event : Type :=
| HANDSHAKE
| DRAWER_ALERT_OPEN
| DRAWER_ALERT_CLOSE
| DRAWER_ALERT_ERROR
| DEVICE_STATUS_CHANGED (device : string) (status : pyval)
| TEF_DISPLAY_MESSAGE (message can_abort : pyval)
| TEF_ASK_QUESTION (data : pyval)
| TEF_OPERATION_FINISHED (success message : pyval)
| TEF_WARNING_MESSAGE (message : string)
| CLEAR_SALE.

Definition is_finished (e : event) : bool :=
  match e with TEF_OPERATION_FINISHED _ _ => true | _ => false end.

Definition is_drawer_alert (e : event) : bool :=
  match e with
  | DRAWER_ALERT_OPEN | DRAWER_ALERT_CLOSE | DRAWER_ALERT_ERROR => true
  | _ => false
  end.

Definition is_printer_status (e : event) : bool :=
  match e with
  | DEVICE_STATUS_CHANGED d _ => String.eqb d "printer"
  | _ => false
  end.

(** ** The printer and its recovery: [_BaseResource.ensure_printer] *)

(** What one interaction with the printer yields.  An attempt is
    [printer = api.device_manager.printer] followed by
    [printer.is_drawer_open()]: the first can fail to open the port (no
    handle is bound), the second can fail on the opened handle, or a reading
    comes back.  For a probe on a handle that is already bound both fault
    outcomes read as the probe raising. *)
Inductive outcome : Type :=
| OpenFailed (f : fault)
| ProbeFailed (f : fault)
| Drawer (is_open : bool).

(** The fault an outcome raises, if any. *)
Definition raised_fault (o : outcome) : option fault :=
  match o with
  | OpenFailed f | ProbeFailed f => Some f
  | Drawer _ => None
  end.

(** The calls [ensure_printer] makes besides probing. *)
Inductive action : Type :=
| ClosePort                 (* printer._port.close() *)
| DropHandle                (* api.device_manager._printer = None *)
| LogReopening              (* log.info('Printer check failed. Reopening') *)
| Sleep (seconds : nat)     (* gevent.sleep(1) *)
| ResetSatPrinter           (* sat.ui.printer = None *)
| SetNonfiscalPrinter.      (* nonfiscal.ui.printer = printer *)

Definition is_sleep (a : action) : bool :=
  match a with Sleep _ => true | _ => false end.

(** The sleeps of a run, in order. *)
Definition sleeps (tr : list action) : list action := List.filter is_sleep tr.

(** What [ensure_printer] reads from its surroundings.  [dev n] is the
    outcome of the [n]-th interaction with the printer since the call
    started. *)
Record printer_env : Type := {
  locked : bool;            (* _printer_lock.locked() *)
  configured : bool;        (* DeviceSettings.get_by_station_and_type(...) *)
  dev : nat -> outcome;
  sat_ui : bool;            (* sat and sat.ui *)
  nonfiscal_ui : bool;      (* nonfiscal and nonfiscal.ui *)
}.

(** How the [for i in range(retries)] loop ends. *)
Inductive loop_exit : Type :=
| Reopened (next : nat)     (* break: [next] interactions were made so far *)
| Exhausted                 (* the else branch of the for *)
| Escaped (f : fault).      (* a fault the inner except does not name *)

(** The reopen loop from interaction [n] on, with [remaining] rounds left. *)
Fixpoint reopen_loop (d : nat -> outcome) (n remaining : nat) : loop_exit * list action :=
  match remaining with
  | 0 => (Exhausted, [])
  | S r =>
      match raised_fault (d n) with
      | None => (Reopened (S n), [LogReopening])
      | Some SerialException =>
          let '(x, tr) := reopen_loop d (S n) r in
          (x, LogReopening :: Sleep 1 :: tr)
      | Some InvalidReplyException => (Escaped InvalidReplyException, [LogReopening])
      end
  end.

(** A probe on the bound handle: [printer.is_drawer_open()]. *)
Definition probe (d : nat -> outcome) (n : nat) : result (option bool) :=
  match d n with
  | Drawer b => Returned (Some b)
  | OpenFailed f | ProbeFailed f => Raised (Fault f)
  end.

(** The body of [except (SerialException, InvalidReplyException):], entered
    with the fault [original]; [bound] tells whether [printer] was bound
    when it was raised. *)
Definition recover (env : printer_env) (retries : nat) (original : fault) (bound : bool)
  : result (option bool) * list action :=
  let closing := (if bound then [ClosePort] else []) ++ [DropHandle] in
  match reopen_loop (dev env) 1 retries with
  | (Exhausted, tr) => (Raised (Fault original), closing ++ tr)
  | (Escaped f, tr) => (Raised (Fault f), closing ++ tr)
  | (Reopened n, tr) =>
      let invalidate :=
        (if sat_ui env then [ResetSatPrinter] else []) ++
        (if nonfiscal_ui env then [SetNonfiscalPrinter] else []) in
      (probe (dev env) n, closing ++ tr ++ invalidate)
  end.

Definition ensure_printer (env : printer_env) (retries : nat)
  : result (option bool) * list action :=
  if negb (locked env) then (Raised AssertionError, [])
  else if negb (configured env) then (Returned None, [])
  else
    match dev env 0 with
    | Drawer b => (Returned (Some b), [])
    | OpenFailed f => recover env retries f false
    | ProbeFailed f => recover env retries f true
    end.

(** A device given by the list of its first outcomes, and the outcome it
    settles on afterwards. *)
Definition scripted (script : list outcome) (rest : outcome) : nat -> outcome :=
  fun n => nth n script rest.

(** ** The process-wide state: [EventStream] and the TEF reply slot *)

(** The class attributes the resources share.  A station is named by its
    [id]; a gevent [Queue()] is unbounded and is modelled by the list of
    what it holds, oldest first; an [Event] by its flag. *)
Record server : Type := {
  has_stream : bool;                      (* EventStream.has_stream *)
  streams : gmap string (list event);     (* EventStream._streams *)
  waiting_reply : bool;                   (* TefResource.waiting_reply *)
  reply : list pyval;                     (* TefResource.reply *)
}.

Definition boot : server :=
  {| has_stream := false; streams := ∅; waiting_reply := false; reply := [] |}.

Definition set_streams (m : gmap string (list event)) (s : server) : server :=
  {| has_stream := has_stream s; streams := m;
     waiting_reply := waiting_reply s; reply := reply s |}.

Definition set_has_stream (s : server) : server :=
  {| has_stream := true; streams := streams s;
     waiting_reply := waiting_reply s; reply := reply s |}.

Definition set_waiting_reply (b : bool) (s : server) : server :=
  {| has_stream := has_stream s; streams := streams s;
     waiting_reply := b; reply := reply s |}.

Definition set_reply (q : list pyval) (s : server) : server :=
  {| has_stream := has_stream s; streams := streams s;
     waiting_reply := waiting_reply s; reply := q |}.

(** [EventStream.put] past [has_stream.wait()]: the event goes to the
    station's queue when there is one.  A gevent queue is always true, so
    [if stream:] asks only whether the key is there. *)
Definition deliver (station : string) (data : event) (s : server) : server :=
  match streams s !! station with
  | Some stream => set_streams (<[station := stream ++ [data]]> (streams s)) s
  | None => s
  end.

(** [EventStream.put(station, data)].  [None]: the caller is suspended in
    [has_stream.wait()] and nothing has been done. *)
Definition EventStream_put (station : string) (data : event) (s : server) : option server :=
  if has_stream s then Some (deliver station data s) else None.

(** [EventStream.put_all(data)] *)
Definition EventStream_put_all (data : event) (s : server) : option server :=
  if has_stream s
  then Some (set_streams ((fun stream => stream ++ [data]) <$> streams s) s)
  else None.

(** [EventStream.get]: a fresh queue replaces the station's, the flag is
    set, the handshake is queued and, when [TefCheckPendingEvent] reports a
    cancelled transaction ([pending]), the warning and the clear follow. *)
Definition EventStream_get (station : string) (pending : bool) (s : server) : option server :=
  let s1 := set_has_stream (set_streams (<[station := [HANDSHAKE]]> (streams s)) s) in
  if pending then
    s2 ← EventStream_put station
            (TEF_WARNING_MESSAGE "Última transação TEF não foi efetuada. Favor reter o Cupom.") s1;
    EventStream_put station CLEAR_SALE s2
  else Some s1.

(** [TefReplyResource.post].  [json_loads] is [json.loads]; [body] is what
    [get_json()] returns. *)
Definition TefReplyResource_post (json_loads : string -> result pyval)
    (body : option pyval) (s : server) : result unit * server :=
  if negb (waiting_reply s) then (Raised AssertionError, s)
  else
    match body with
    | Some (PyDict data) =>
        match assoc_get "value" data with
        | Some (PyStr text) =>
            match json_loads text with
            | Returned v => (Returned tt, set_reply (reply s ++ [v]) s)
            | Raised e => (Raised e, s)
            end
        | Some _ => (Raised TypeError, s)
        | None => (Raised (KeyError "value"), s)
        end
    | _ => (Raised TypeError, s)
    end.

(** [TefResource._question_callback] up to and including [reply.get()]:
    the question is published, the flag is set, and the get either returns
    at once with the oldest pending value (the flag is then cleared and the
    value returned) or suspends the caller.  [None]: suspended in
    [has_stream.wait()], nothing done. *)
Definition question_callback (station : string) (question : pyval) (s : server)
  : option (server * option pyval) :=
  s1 ← EventStream_put station (TEF_ASK_QUESTION question) s;
  let s2 := set_waiting_reply true s1 in
  match reply s2 with
  | [] => Some (s2, None)
  | v :: rest => Some (set_waiting_reply false (set_reply rest s2), Some v)
  end.

(** The rest of [_question_callback] for a caller suspended in
    [reply.get()]: it resumes when a value is there, takes the oldest,
    clears the flag and returns the value. *)
Definition question_resume (s : server) : option (server * pyval) :=
  match reply s with
  | [] => None
  | v :: rest => Some (set_waiting_reply false (set_reply rest s), v)
  end.

(** ** One TEF operation: [TefResource.post] *)

(** The outward calls of a request, in program order. *)
Inductive call : Type :=
| AcquirePinpadLock
| ReleasePinpadLock
| AcquirePrinterLock
| ReleasePrinterLock
| Printer (a : action)                          (* inside ensure_printer *)
| Put (station : string) (data : event)         (* EventStream.put *)
| Connect (signal : string)                     (* signal(...).connect *)
| Send (signal station : string) (data : list (string * pyval))
| Yield                                         (* gevent.sleep(0.001) *)
| SetWaitingReply                               (* waiting_reply.set() *)
| GetReply (value : pyval)                      (* reply.get() returned *)
| ClearWaitingReply                             (* waiting_reply.clear() *)
| PrintLine (text : pyval)
| CutPaper
| SleepSecond.                                  (* gevent.sleep(1) of a poller *)

Definition puts (tr : list call) : list (string * event) :=
  omap (fun c => match c with Put st e => Some (st, e) | _ => None end) tr.

(** The terminal events of a run, with the station each was put to. *)
Definition finished_events (tr : list call) : list (string * event) :=
  List.filter (fun p => is_finished p.2) (puts tr).

(** The plug-in behind an operation signal: it returns a value or raises
    an exception with the given [args], after any number of calls back
    into the resource. *)
Inductive plugin : Type :=
| Return (retval : pyval)
| Raise (args : list pyval)
| Message (message can_abort : pyval) (k : plugin)
| Question (question : pyval) (k : pyval -> plugin)
| Print (holder merchant : pyval) (k : plugin).

Inductive plugin_exit : Type :=
| PluginReturned (retval : pyval)
| PluginRaised (args : list pyval)
| AwaitingReply.                 (* suspended in reply.get() *)

(** [TefResource._print_callback], under [lock_printer]; [has_printer] is
    the truth of [api.device_manager.printer]. *)
Definition print_callback (has_printer : bool) (holder merchant : pyval) : list call :=
  [AcquirePrinterLock] ++
  (if has_printer then
     (if truthy merchant then [PrintLine merchant; CutPaper] else []) ++
     (if truthy holder then [PrintLine holder; CutPaper] else [])
   else []) ++
  [ReleasePrinterLock].

(** The plug-in's run with its callbacks; [answers] are the values the
    reply queue hands to successive [reply.get()] calls. *)
Fixpoint run_plugin (station : string) (has_printer : bool) (p : plugin)
    (answers : list pyval) : plugin_exit * list call :=
  match p with
  | Return v => (PluginReturned v, [])
  | Raise args => (PluginRaised args, [])
  | Message m a k =>
      let '(x, tr) := run_plugin station has_printer k answers in
      (x, Put station (TEF_DISPLAY_MESSAGE m a) :: Yield :: tr)
  | Question q k =>
      match answers with
      | [] => (AwaitingReply, [Put station (TEF_ASK_QUESTION q); SetWaitingReply])
      | v :: rest =>
          let '(x, tr) := run_plugin station has_printer (k v) rest in
          (x, Put station (TEF_ASK_QUESTION q) :: SetWaitingReply :: GetReply v
              :: ClearWaitingReply :: tr)
      end
  | Print h m k =>
      let '(x, tr) := run_plugin station has_printer k answers in
      (x, print_callback has_printer h m ++ tr)
  end.

(** [Till.status]; the constants belong to stoqlib's [Till]. *)
Inductive till_status : Type :=
| STATUS_PENDING
| STATUS_OPEN
| STATUS_CLOSED
| STATUS_VERIFIED.

Definition is_open_status (t : till_status) : bool :=
  match t with STATUS_OPEN => true | _ => false end.

(** What a request finds. *)
Record tef_request : Type := {
  station : string;                      (* id of get_current_station(store) *)
  signal_name : string;
  till : option till_status;             (* Till.get_last(store, station) *)
  printer : printer_env;
  has_printer : bool;                    (* api.device_manager.printer *)
  receivers : nat;                       (* len(operation_signal.receivers) *)
  body : option pyval;                   (* self.get_json() *)
  driver : list (string * pyval) -> plugin;
  answers : list pyval;
}.

Inductive post_exit : Type :=
| Responded                  (* the method returned *)
| Failed (e : exn)           (* the method raised *)
| Suspended.                 (* the method waits in reply.get() *)

Definition no_till_required : list string :=
  ["StartTefSaleSummaryEvent"; "StartTefAdminEvent"].

Definition in_list (x : string) (l : list string) : bool :=
  existsb (String.eqb x) l.

(** [not till or till.status != Till.STATUS_OPEN] *)
Definition till_missing (t : option till_status) : bool :=
  match t with
  | None => true
  | Some st => negb (is_open_status st)
  end.

(** The printer as the request sees it: [with _printer_lock:] holds the
    lock around the call. *)
Definition under_lock (env : printer_env) : printer_env :=
  {| locked := true; configured := configured env; dev := dev env;
     sat_ui := sat_ui env; nonfiscal_ui := nonfiscal_ui env |}.

(** [retval['message']]: the value, or the [args] of the exception the
    subscript raises. *)
Definition subscript_message (retval : pyval) : pyval + list pyval :=
  match retval with
  | PyDict d =>
      match assoc_get "message" d with
      | Some m => inl m
      | None => inr [PyStr "message"]                 (* KeyError('message') *)
      end
  | _ => inr [PyStr "object is not subscriptable"]    (* TypeError(text) *)
  end.

(** The message of the [except Exception as e:] branch. *)
Definition failure_message (args : list pyval) : pyval :=
  match args with
  | [_; second] => second
  | _ => PyStr "Falha na operação"
  end.

(** The part of [post] from [signal(...).connect] on. *)
Definition dispatch (r : tef_request) : post_exit * list call :=
  let connects :=
    [Connect "TefMessageEvent"; Connect "TefQuestionEvent"; Connect "TefPrintEvent"] in
  if negb (Nat.eqb (receivers r) 1) then (Failed AssertionError, connects)
  else
    match body r with
    | Some (PyDict data0) =>
        let data := assoc_remove "origin" data0 in
        let finish tr success message :=
          (Responded,
           connects ++ tr ++ [Put (station r) (TEF_OPERATION_FINISHED success message)]) in
        match assoc_get "station" data with
        | Some _ =>
            (* send(station=station, **data): the keyword is given twice *)
            finish [] (PyBool false)
              (failure_message [PyStr "got multiple values for keyword argument"])
        | None =>
            let '(x, tr) :=
              run_plugin (station r) (has_printer r) (driver r data) (answers r) in
            let sent := Send (signal_name r) (station r) data :: tr in
            match x with
            | AwaitingReply => (Suspended, connects ++ sent)
            | PluginReturned retval =>
                match subscript_message retval with
                | inl message => finish sent retval message
                | inr args => finish sent (PyBool false) (failure_message args)
                end
            | PluginRaised args => finish sent (PyBool false) (failure_message args)
            end
        end
    | Some (PyList _) => (Failed TypeError, connects)
    | _ => (Failed AttributeError, connects)
    end.

(** The body of [post]. *)
Definition post_body (r : tef_request) : post_exit * list call :=
  if negb (in_list (signal_name r) no_till_required) && till_missing (till r)
  then (Failed (TillError "There is no till open"), [])
  else
    let '(checked, acts) := ensure_printer (under_lock (printer r)) 20 in
    let check := [AcquirePrinterLock] ++ map Printer acts ++ [ReleasePrinterLock] in
    match checked with
    | Raised _ =>
        (Responded,
         check ++ [Put (station r)
                     (TEF_OPERATION_FINISHED (PyBool false)
                        (PyStr "Erro comunicando com a impressora"))])
    | Returned _ =>
        let '(x, tr) := dispatch r in (x, check ++ tr)
    end.

(** Modelled from the spec: [lock_pinpad(block=True)] comes from
    [stoqserver/lib/lock.py], which is not among the sources.  The spec
    gives it as a blocking acquisition of the pinpad lock, released on every
    exit path of the wrapped call; a call that is still suspended keeps it. *)
Definition lock_pinpad (f : tef_request -> post_exit * list call) (r : tef_request)
  : post_exit * list call :=
  let '(x, tr) := f r in
  match x with
  | Suspended => (x, AcquirePinpadLock :: tr)
  | _ => (x, AcquirePinpadLock :: tr ++ [ReleasePinpadLock])
  end.

Definition TefResource_post : tef_request -> post_exit * list call :=
  lock_pinpad post_body.

(** ** The drawer poller: [check_drawer] and [check_drawer_loop] *)

(** [check_drawer], under [lock_printer]: the reading of
    [ensure_printer(station, retries=1)], [None] on either fault. *)
Definition check_drawer (env : printer_env) : result (option bool) :=
  match (ensure_printer (under_lock env) 1).1 with
  | Returned reading => Returned reading
  | Raised (Fault _) => Returned None
  | Raised e => Raised e
  end.

(** The loop variable [is_open]: the empty string it starts with, or the
    last reading ([True], [False], [None]). *)
Inductive last_seen : Type :=
| Unset
| Seen (reading : option bool).

(** [is_open != new_is_open] *)
Definition differs (is_open : last_seen) (new_is_open : option bool) : bool :=
  match is_open with
  | Unset => true
  | Seen old => negb (bool_decide (old = new_is_open))
  end.

(** [message[new_is_open]] *)
Definition drawer_message (new_is_open : option bool) : event :=
  match new_is_open with
  | Some true => DRAWER_ALERT_OPEN
  | Some false => DRAWER_ALERT_CLOSE
  | None => DRAWER_ALERT_ERROR
  end.

(** [None if new_is_open is None else True] *)
Definition status_printer (new_is_open : option bool) : pyval :=
  match new_is_open with
  | None => PyNone
  | Some _ => PyBool true
  end.

(** One round of the [while True:] body, given what [check_drawer]
    returned. *)
Definition poll (station : string) (is_open : last_seen) (new_is_open : option bool)
  : last_seen * list call :=
  if differs is_open new_is_open then
    (Seen new_is_open,
     [Put station (drawer_message new_is_open);
      Put station (DEVICE_STATUS_CHANGED "printer" (status_printer new_is_open));
      SleepSecond])
  else (is_open, [SleepSecond]).

(** The rounds of the loop over the successive results of [check_drawer]. *)
Fixpoint drawer_rounds (station : string) (is_open : last_seen)
    (readings : list (option bool)) : list call :=
  match readings with
  | [] => []
  | new_is_open :: rest =>
      let '(is_open', tr) := poll station is_open new_is_open in
      tr ++ drawer_rounds station is_open' rest
  end.

Definition check_drawer_loop (station : string) (readings : list (option bool)) : list call :=
  drawer_rounds station Unset readings.

Definition drawer_alerts (tr : list call) : list event :=
  List.filter is_drawer_alert (puts tr).*2.

Definition printer_statuses (tr : list call) : list event :=
  List.filter is_printer_status (puts tr).*2.

(** The changes of a sequence, counted as the spec words it: a position
    counts when it is the first or when its value is not the one before
    it. *)
Definition is_change (readings : list (option bool)) (i : nat) : bool :=
  match i with
  | 0 => true
  | S j => negb (bool_decide (readings !! j = readings !! i))
  end.

Definition changes (readings : list (option bool)) : nat :=
  length (List.filter (is_change readings) (seq 0 (length readings))).

(** The fault condition of a reading: the probe failed. *)
Definition is_fault (reading : option bool) : bool :=
  match reading with None => true | Some _ => false end.

(** ** The question/reply protocol under interleaving

    The tasks of the process run one at a time and give way only where
    they block: in [has_stream.wait()], in [reply.get()] on an empty queue,
    and on the pinpad lock.  Each move below is what one task does between
    two such points. *)

(** What an observer of the protocol sees. *)
Inductive obs : Type :=
| Published (task : nat) (question : pyval)   (* TEF_ASK_QUESTION was put *)
| Accepted                                    (* a reply went into the queue *)
| Refused                                     (* a reply post raised *)
| Delivered (task : nat) (value : pyval).     (* _question_callback returned *)

Record process : Type := {
  srv : server;
  pinpad : option nat;      (* the task inside TefResource.post, if any *)
  asking : list nat;        (* the tasks suspended in reply.get() *)
  history : list obs;       (* newest first *)
}.

Definition start : process :=
  {| srv := boot; pinpad := None; asking := []; history := [] |}.

Inductive move : Type :=
| Subscribe (station : string) (pending : bool)         (* EventStream.get *)
| Push (station : string) (data : event)                (* EventStream.put *)
| PushAll (data : event)                                (* EventStream.put_all *)
| Enter (task : nat)                                    (* post takes the pinpad lock *)
| Ask (task : nat) (station : string) (question : pyval) (* its plug-in asks *)
| Wake (task : nat)                                     (* its reply.get() returns *)
| Leave (task : nat)                                    (* post ends *)
| Reply (body : option pyval).                          (* TefReplyResource.post *)

Definition holds (task : nat) (p : process) : bool :=
  bool_decide (pinpad p = Some task).

Definition is_asking (task : nat) (p : process) : bool :=
  bool_decide (task ∈ asking p).

Definition without (task : nat) (l : list nat) : list nat :=
  List.filter (fun t => negb (Nat.eqb t task)) l.

(** Modelled from the spec: the pinpad lock behind [lock_pinpad(block=True)],
    from [stoqserver/lib/lock.py], which is not among the sources.  The spec
    gives one binary, non-reentrant lock per device class and a blocking
    acquisition that waits until the lock is free: a task takes it only when
    nobody holds it, and only its holder gives it back. *)
Definition acquire_pinpad (task : nat) (holder : option nat) : option (option nat) :=
  match holder with
  | None => Some (Some task)
  | Some _ => None
  end.

Section Protocol.

Variable json_loads : string -> result pyval.

(** One move; [None] when the task cannot make it in this state (it is
    still blocked, or it is not at that point of its code). *)
Definition step (m : move) (p : process) : option process :=
  match m with
  | Subscribe st pending =>
      s ← EventStream_get st pending (srv p);
      Some {| srv := s; pinpad := pinpad p; asking := asking p; history := history p |}
  | Push st data =>
      s ← EventStream_put st data (srv p);
      Some {| srv := s; pinpad := pinpad p; asking := asking p; history := history p |}
  | PushAll data =>
      s ← EventStream_put_all data (srv p);
      Some {| srv := s; pinpad := pinpad p; asking := asking p; history := history p |}
  | Enter t =>
      holder ← acquire_pinpad t (pinpad p);
      Some {| srv := srv p; pinpad := holder; asking := asking p; history := history p |}
  | Ask t st q =>
      if holds t p && negb (is_asking t p) then
        r ← question_callback st q (srv p);
        match r.2 with
        | None =>
            Some {| srv := r.1; pinpad := pinpad p; asking := t :: asking p;
                    history := Published t q :: history p |}
        | Some v =>
            Some {| srv := r.1; pinpad := pinpad p; asking := asking p;
                    history := Delivered t v :: Published t q :: history p |}
        end
      else None
  | Wake t =>
      if is_asking t p then
        r ← question_resume (srv p);
        Some {| srv := r.1; pinpad := pinpad p; asking := without t (asking p);
                history := Delivered t r.2 :: history p |}
      else None
  | Leave t =>
      if holds t p && negb (is_asking t p) then
        Some {| srv := srv p; pinpad := None; asking := asking p; history := history p |}
      else None
  | Reply body =>
      let r := TefReplyResource_post json_loads body (srv p) in
      Some {| srv := r.2; pinpad := pinpad p; asking := asking p;
              history := match r.1 with
                         | Returned _ => Accepted :: history p
                         | Raised _ => Refused :: history p
                         end |}
  end.

Fixpoint run (ms : list move) (p : process) : option process :=
  match ms with
  | [] => Some p
  | m :: rest => p' ← step m p; run rest p'
  end.

End Protocol.

Definition is_published (o : obs) : bool :=
  match o with Published _ _ => true | _ => false end.
Definition is_accepted (o : obs) : bool :=
  match o with Accepted => true | _ => false end.
Definition is_delivered (o : obs) : bool :=
  match o with Delivered _ _ => true | _ => false end.

Definition count (f : obs -> bool) (h : list obs) : nat :=
  length (List.filter f h).

(** Every reply was accepted while a question was published and not yet
    answered. *)
Fixpoint gated (h : list obs) : bool :=
  match h with
  | [] => true
  | o :: earlier =>
      (if is_accepted o
       then Nat.ltb (count is_delivered earlier) (count is_published earlier)
       else true) && gated earlier
  end.

(** At every moment, no more answers had been handed over than questions
    published. *)
Fixpoint answers_follow_questions (h : list obs) : bool :=
  match h with
  | [] => true
  | _ :: earlier =>
      Nat.leb (count is_delivered h) (count is_published h)
      && answers_follow_questions earlier
  end.

(** The frontend's side of the bargain: at every moment, no more replies
    had been accepted than questions published. *)
Fixpoint one_reply_per_question (h : list obs) : bool :=
  match h with
  | [] => true
  | _ :: earlier =>
      Nat.leb (count is_accepted h) (count is_published h)
      && one_reply_per_question earlier
  end.

(** * Notions of the statements and sample inputs *)

(** A reopen attempt that fails with the fault the loop retries. *)
Definition serial_failure (o : outcome) : bool :=
  match raised_fault o with
  | Some SerialException => true
  | _ => false
  end.

(** The trace of [k] failed rounds. *)
Fixpoint failed_rounds (k : nat) : list action :=
  match k with
  | 0 => []
  | S k' => LogReopening :: Sleep 1 :: failed_rounds k'
  end.

(** The device of the example: the first probe and two reopen attempts
    fail on the serial line, the third attempt reads an open drawer, and
    the drawer is closed from then on. *)
Definition closes_after_recovery : printer_env :=
  {| locked := true; configured := true;
     dev := scripted [ProbeFailed SerialException; ProbeFailed SerialException;
                      ProbeFailed SerialException; Drawer true] (Drawer false);
     sat_ui := false; nonfiscal_ui := true |}.

(** The device that never answers on the serial line. *)
Definition unplugged : printer_env :=
  {| locked := true; configured := true;
     dev := scripted [ProbeFailed InvalidReplyException] (OpenFailed SerialException);
     sat_ui := false; nonfiscal_ui := true |}.

(** A device whose first probe is garbled, whose first reopen attempt fails
    on the serial line and whose second is garbled again. *)
Definition garbled_on_reopen : printer_env :=
  {| locked := true; configured := true;
     dev := scripted [ProbeFailed InvalidReplyException; OpenFailed SerialException;
                      ProbeFailed InvalidReplyException] (Drawer true);
     sat_ui := true; nonfiscal_ui := false |}.

Definition is_reopening (a : action) : bool :=
  match a with LogReopening => true | _ => false end.

Definition is_subscribe (m : move) : bool :=
  match m with Subscribe _ _ => true | _ => false end.

Definition json_text (text : string) : result pyval := Returned (PyStr text).

(** The value of a text of decimal digits, read after [acc]. *)
Fixpoint decimal (acc : Z) (cs : list Ascii.ascii) : option Z :=
  match cs with
  | [] => Some acc
  | c :: rest =>
      let n := Z.of_nat (Ascii.nat_of_ascii c) in
      if Z.leb 48 n && Z.leb n 57 then decimal (10 * acc + (n - 48)) rest else None
  end.

(** [json.loads] on the unsigned decimal numerals, which it reads as
    integers: [0], and the digit texts that do not start with 0.  Every
    other text is refused with the [ValueError] that [json.loads] raises
    for a text that is no JSON, the bare word [sim] for one; the texts of
    other JSON values, which [json.loads] accepts, are not read by this
    parser. *)
Definition json_numeral (text : string) : result pyval :=
  match String.list_ascii_of_string text with
  | [] => Raised ValueError
  | c :: rest =>
      if Nat.eqb (Ascii.nat_of_ascii c) 48 && negb (Nat.eqb (length rest) 0) then Raised ValueError
      else
        match decimal 0 (c :: rest) with
        | Some z => Returned (PyInt z)
        | None => Raised ValueError
        end
  end.

(** The request passes the till check. *)
Definition till_ok (r : tef_request) : bool :=
  in_list (signal_name r) no_till_required || negb (till_missing (till r)).

(** The keyword arguments of the send: the body when it is an object,
    less its [origin], provided it does not name [station] itself. *)
Definition kwargs (r : tef_request) : option (list (string * pyval)) :=
  match body r with
  | Some (PyDict data0) =>
      match assoc_get "station" (assoc_remove "origin" data0) with
      | None => Some (assoc_remove "origin" data0)
      | Some _ => None
      end
  | _ => None
  end.

Definition printer_failure_message : pyval := PyStr "Erro comunicando com a impressora".

(** A payment at a station whose till was closed. *)
Definition sale_without_till : tef_request :=
  {| station := "S1"; signal_name := "StartTefSaleEvent"; till := Some STATUS_CLOSED;
     printer := closes_after_recovery; has_printer := true; receivers := 1;
     body := Some (PyDict [("value", PyInt 1000)]);
     driver := fun _ => Return (PyDict [("message", PyStr "Aprovado")]);
     answers := [] |}.

(** A plug-in that shows a message and then fails the way the TEF library
    does, with a code and a text. *)
Definition declined_sale : tef_request :=
  {| station := "S1"; signal_name := "StartTefSaleEvent"; till := Some STATUS_OPEN;
     printer := closes_after_recovery; has_printer := true; receivers := 1;
     body := Some (PyDict [("origin", PyStr "pos"); ("value", PyInt 1000)]);
     driver := fun _ =>
       Message (PyStr "Insira o cartão") (PyBool true)
         (Raise [PyInt 5; PyStr "Transação negada"]);
     answers := [] |}.

(** A printer that answers, with the drawer closed. *)
Definition healthy : printer_env :=
  {| locked := false; configured := true; dev := fun _ => Drawer false;
     sat_ui := false; nonfiscal_ui := false |}.

(** A payment that the plug-in approves after one message. *)
Definition approved_sale : tef_request :=
  {| station := "S1"; signal_name := "StartTefSaleEvent"; till := Some STATUS_OPEN;
     printer := healthy; has_printer := true; receivers := 1;
     body := Some (PyDict [("origin", PyStr "pos"); ("value", PyInt 1000)]);
     driver := fun _ =>
       Message (PyStr "Processando") (PyBool false)
         (Return (PyDict [("message", PyStr "Transação aprovada")]));
     answers := [] |}.

(** A request that finds the printer unplugged. *)
Definition sale_without_printer : tef_request :=
  {| station := "S1"; signal_name := "StartTefAdminEvent"; till := None;
     printer := unplugged; has_printer := false; receivers := 1;
     body := Some (PyDict []);
     driver := fun _ => Return (PyDict [("message", PyStr "Transação aprovada")]);
     answers := [] |}.

(** The rounds that find a difference, counted along the loop. *)
Fixpoint flips (is_open : last_seen) (readings : list (option bool)) : nat :=
  match readings with
  | [] => 0
  | new_is_open :: rest =>
      (if differs is_open new_is_open then 1 else 0) + flips (Seen new_is_open) rest
  end.

(** What every reachable state satisfies. *)
Record protocol_inv (p : process) : Prop := {
  inv_asking : asking p = [] \/ exists t, asking p = [t] /\ pinpad p = Some t;
  inv_flag : waiting_reply (srv p) = negb (Nat.eqb (length (asking p)) 0);
  inv_published :
    count is_published (history p) = count is_delivered (history p) + length (asking p);
  inv_accepted :
    count is_accepted (history p)
    = count is_delivered (history p) + length (reply (srv p));
  inv_gated : gated (history p) = true;
  inv_answers : answers_follow_questions (history p) = true;
}.

(** The body of a reply post carrying [text]. *)
Definition reply_body (text : string) : option pyval :=
  Some (PyDict [("value", PyStr text)]).

(** One question, answered twice before the asking task runs again (the
    bodies [{"value": "1"}] and [{"value": "2"}]), and a second question
    after the task has taken the first answer. *)
Definition double_reply : list move :=
  [Subscribe "S1" false; Enter 1; Ask 1 "S1" (PyStr "Parcelas?");
   Reply (reply_body "1"); Reply (reply_body "2")].

(** The same two posts with a value that is no JSON. *)
Definition double_reply_no_json : list move :=
  [Subscribe "S1" false; Enter 1; Ask 1 "S1" (PyStr "Confirma?");
   Reply (reply_body "sim"); Reply (reply_body "sim")].

Definition second_question : list move :=
  double_reply ++ [Wake 1; Ask 1 "S1" (PyStr "Meses?")].

(** One question, answered once. *)
Definition single_reply : list move :=
  [Subscribe "S1" false; Enter 1; Ask 1 "S1" (PyStr "Parcelas?");
   Reply (reply_body "1"); Wake 1; Leave 1].

(** The puts of a run applied to the shared state, in order; [None] when
    one of them suspends its caller. *)
Fixpoint apply_puts (ps : list (string * event)) (s : server) : option server :=
  match ps with
  | [] => Some s
  | (st, e) :: rest => s' ← EventStream_put st e s; apply_puts rest s'
  end.

(** The events put to one station. *)
Definition sent_to (st : string) (ps : list (string * event)) : list event :=
  (List.filter (fun e => String.eqb e.1 st) ps).*2.

(** The poller against the printer: each round finds the printer in some
    state and reads the drawer through [check_drawer]; a round whose check
    raised would end the worker. *)
Fixpoint drawer_worker (station : string) (is_open : last_seen)
    (rounds : list printer_env) : list call :=
  match rounds with
  | [] => []
  | env :: rest =>
      match check_drawer env with
      | Returned new_is_open =>
          let '(is_open', tr) := poll station is_open new_is_open in
          tr ++ drawer_worker station is_open' rest
      | Raised _ => []
      end
  end.

(** What [check_drawer] reads in a round. *)
Definition reading (env : printer_env) : option bool :=
  match check_drawer env with
  | Returned r => r
  | Raised _ => None
  end.

(** * Further notions *)

(** The two writes that re-point the plug-ins at the printer. *)
Definition is_invalidation (a : action) : bool :=
  match a with
  | ResetSatPrinter | SetNonfiscalPrinter => true
  | _ => false
  end.

Definition is_close (a : action) : bool :=
  match a with ClosePort | DropHandle => true | _ => false end.

(** A sequence with its immediate repeats left out. *)
Fixpoint collapse (readings : list (option bool)) : list (option bool) :=
  match readings with
  | [] => []
  | x :: rest =>
      match rest with
      | [] => [x]
      | y :: _ => if bool_decide (x = y) then collapse rest else x :: collapse rest
      end
  end.

(** The printer lock along a trace: [None] as soon as the lock is taken
    while it is held, released while it is free, or the printer is used
    while it is free; otherwise whether it is held at the end. *)
Fixpoint printer_lock_after (held : bool) (tr : list call) : option bool :=
  match tr with
  | [] => Some held
  | AcquirePrinterLock :: rest => if held then None else printer_lock_after true rest
  | ReleasePrinterLock :: rest => if held then printer_lock_after false rest else None
  | Printer _ :: rest | PrintLine _ :: rest | CutPaper :: rest =>
      if held then printer_lock_after held rest else None
  | _ :: rest => printer_lock_after held rest
  end.

Definition is_send (c : call) : bool :=
  match c with Send _ _ _ => true | _ => false end.

Definition is_set_waiting (c : call) : bool :=
  match c with SetWaitingReply => true | _ => false end.

Definition is_clear_waiting (c : call) : bool :=
  match c with ClearWaitingReply => true | _ => false end.

Definition is_get_reply (c : call) : bool :=
  match c with GetReply _ => true | _ => false end.

Definition is_question (c : call) : bool :=
  match c with Put _ (TEF_ASK_QUESTION _) => true | _ => false end.

Definition occurrences (f : call -> bool) (tr : list call) : nat :=
  length (List.filter f tr).

(** A plug-in that asks before it answers. *)
Definition confirmed_sale : tef_request :=
  {| station := "S1"; signal_name := "StartTefSaleEvent"; till := Some STATUS_OPEN;
     printer := healthy; has_printer := true; receivers := 1;
     body := Some (PyDict [("origin", PyStr "pos"); ("value", PyInt 1000)]);
     driver := fun _ =>
       Question (PyStr "Confirma?")
         (fun answer =>
            Print (PyStr "via do cliente") PyNone
              (Return (PyDict [("message", answer)])));
     answers := [PyStr "sim"] |}.

(** A plug-in that returns a bare [True]. *)
Definition bare_true_sale : tef_request :=
  {| station := "S1"; signal_name := "StartTefSaleEvent"; till := Some STATUS_OPEN;
     printer := healthy; has_printer := true; receivers := 1;
     body := Some (PyDict [("value", PyInt 1000)]);
     driver := fun _ => Return (PyBool true);
     answers := [] |}.

(** The values handed to the plug-in so far, oldest first. *)
Definition delivered (h : list obs) : list pyval :=
  omap (fun o => match o with Delivered _ v => Some v | _ => None end) (rev h).

(** The value a move puts into the reply queue, if it is a reply post
    that is accepted. *)
Definition accepted_by (json_loads : string -> result pyval) (m : move) (p : process)
  : list pyval :=
  match m with
  | Reply body =>
      match TefReplyResource_post json_loads body (srv p) with
      | (Returned _, s') => option_list (last (reply s'))
      | (Raised _, _) => []
      end
  | _ => []
  end.

(** The values accepted along a run, oldest first. *)
Fixpoint accepted_values (json_loads : string -> result pyval) (ms : list move)
    (p : process) : list pyval :=
  match ms with
  | [] => []
  | m :: rest =>
      match step json_loads m p with
      | Some p' => accepted_by json_loads m p ++ accepted_values json_loads rest p'
      | None => []
      end
  end.

(** One question, two replies that can be told apart, and the answer
    taken. *)
Definition two_replies : list move :=
  [Subscribe "S1" false; Enter 1; Ask 1 "S1" (PyStr "Confirma?");
   Reply (reply_body "1"); Reply (reply_body "2"); Wake 1].

(** ** The event stream with its queue objects

    [EventStream.get] makes a new [Queue] at every connection and the
    generator it returns keeps that object, while [_streams] keeps only the
    latest one of each station.  Here the queues are objects of their own,
    named by the order of their creation. *)
Record hub : Type := {
  hub_flag : bool;                    (* has_stream *)
  hub_streams : gmap string nat;      (* _streams: station id -> queue object *)
  hub_queues : list (list event);     (* the queue objects, oldest first *)
}.

Definition hub_boot : hub :=
  {| hub_flag := false; hub_streams := ∅; hub_queues := [] |}.

(** [stream.put(data)] on the queue object [q]. *)
Definition enqueue (data : event) (q : nat) (queues : list (list event))
  : list (list event) :=
  alter (fun l => l ++ [data]) q queues.

(** [EventStream.put] *)
Definition hub_put (station : string) (data : event) (h : hub) : option hub :=
  if hub_flag h then
    Some match hub_streams h !! station with
         | Some q => {| hub_flag := hub_flag h; hub_streams := hub_streams h;
                        hub_queues := enqueue data q (hub_queues h) |}
         | None => h
         end
  else None.

(** [EventStream.put_all]: one put for each value of [_streams]. *)
Definition hub_put_all (data : event) (h : hub) : option hub :=
  if hub_flag h then
    Some {| hub_flag := hub_flag h; hub_streams := hub_streams h;
            hub_queues := foldr (enqueue data) (hub_queues h)
                            (map_to_list (hub_streams h)).*2 |}
  else None.

(** [EventStream.get]: the new state and the queue object the generator
    of this connection reads. *)
Definition hub_get (station : string) (pending : bool) (h : hub) : option (hub * nat) :=
  let q := length (hub_queues h) in
  let h1 := {| hub_flag := true; hub_streams := <[station := q]> (hub_streams h);
               hub_queues := hub_queues h ++ [[HANDSHAKE]] |} in
  if pending then
    h2 ← hub_put station
            (TEF_WARNING_MESSAGE "Última transação TEF não foi efetuada. Favor reter o Cupom.") h1;
    h3 ← hub_put station CLEAR_SALE h2;
    Some (h3, q)
  else Some (h1, q).





Inductive hub_op : Type :=
| HGet (station : string) (pending : bool)
| HPut (station : string) (data : event)
| HPutAll (data : event)
| HNext (q : nat).

Definition hub_step (op : hub_op) (h : hub) : option hub :=
  match op with
  | HGet st pending => fst <$> hub_get st pending h
  | HPut st data => hub_put st data h
  | HPutAll data => hub_put_all data h
  | HNext q =>
      match hub_queues h !! q with
      | Some (_ :: rest) =>
          Some {| hub_flag := hub_flag h; hub_streams := hub_streams h;
                  hub_queues := <[q := rest]> (hub_queues h) |}
      | _ => None
      end
  end.

Fixpoint hub_run (ops : list hub_op) (h : hub) : option hub :=
  match ops with
  | [] => Some h
  | op :: rest => h' ← hub_step op h; hub_run rest h'
  end.



(** What a new connection finds in its queue. *)
Definition greeting (pending : bool) : list event :=
  HANDSHAKE ::
  (if pending
   then [TEF_WARNING_MESSAGE "Última transação TEF não foi efetuada. Favor reter o Cupom.";
         CLEAR_SALE]
   else []).

(** Every registered queue exists and no two stations share one. *)
Definition hub_wf (h : hub) : Prop :=
  (forall (st : string) (q : nat),
     hub_streams h !! st = Some q -> q < length (hub_queues h)) /\
  (forall (st1 st2 : string) (q : nat),
     hub_streams h !! st1 = Some q -> hub_streams h !! st2 = Some q -> st1 = st2).

(** The queues as the stations see them: the content of the registered
    queue of each. *)
Definition view (h : hub) : gmap string (list event) :=
  omap (fun q => hub_queues h !! q) (hub_streams h).

Definition agrees (h : hub) (s : server) : Prop :=
  has_stream s = hub_flag h /\ streams s = view h.


(** A queue that no station is registered with any more. *)
Definition stale (q : nat) (h : hub) : Prop :=
  q < length (hub_queues h) /\ forall st, hub_streams h !! st <> Some q.

(** The state after the station S1 has connected once. *)
Definition connected_once : hub :=
  {| hub_flag := true; hub_streams := {["S1" := 0]}; hub_queues := [[HANDSHAKE]] |}.

(** ** Documents: [format_cpf], [format_cnpj], [format_document] *)

(** [s[a:b]], with Python's clamping at the end of the string. *)
Definition slice (a b : nat) (s : string) : string :=
  String.string_of_list_ascii (take (b - a) (drop a (String.list_ascii_of_string s))).

(** [s[a:]] *)
Definition slice_from (a : nat) (s : string) : string :=
  String.string_of_list_ascii (drop a (String.list_ascii_of_string s)).

Definition format_cpf (document : string) : string :=
  slice 0 3 document +:+ "." +:+ slice 3 6 document +:+ "." +:+
  slice 6 9 document +:+ "-" +:+ slice 9 11 document.

Definition format_cnpj (document : string) : string :=
  slice 0 2 document +:+ "." +:+ slice 2 5 document +:+ "." +:+
  slice 5 8 document +:+ "/" +:+ slice 8 12 document +:+ "-" +:+
  slice_from 12 document.

Definition format_document (document : string) : string :=
  if Nat.eqb (String.length document) 11 then format_cpf document
  else format_cnpj document.

Definition is_digit (c : Ascii.ascii) : bool :=
  let n := Ascii.nat_of_ascii c in Nat.leb 48 n && Nat.leb n 57.

(** The digits of a text, in order. *)
Definition digits_of (s : string) : string :=
  String.string_of_list_ascii (List.filter is_digit (String.list_ascii_of_string s)).

Definition all_digits (s : string) : Prop :=
  Forall (fun c => is_digit c = true) (String.list_ascii_of_string s).

(** ** Text: [str.split] and [str.join] *)

(** [s.split(sep)] for a separator of one character: one piece more than
    there are separators, empty pieces kept. *)
Fixpoint str_split (sep : Ascii.ascii) (s : string) : list string :=
  match s with
  | EmptyString => [""]
  | String c rest =>
      if Ascii.eqb c sep then "" :: str_split sep rest
      else match str_split sep rest with
           | [] => [String c ""]
           | piece :: pieces => String c piece :: pieces
           end
  end.

(** [sep.join(pieces)] *)
Fixpoint str_join (sep : string) (pieces : list string) : string :=
  match pieces with
  | [] => ""
  | [piece] => piece
  | piece :: rest => piece +:+ sep +:+ str_join sep rest
  end.

(** [c in s] *)
Definition has_char (c : Ascii.ascii) (s : string) : bool :=
  existsb (Ascii.eqb c) (String.list_ascii_of_string s).

Definition space : Ascii.ascii := Ascii.Ascii false false false false false true false false.

Definition comma : Ascii.ascii := Ascii.Ascii false false true true false true false false.

(** ** Request arguments: [_BaseResource.get_json], [_BaseResource.get_arg] *)

(** What the methods read of flask's [request]: the raw body, the form
    fields and the query string, the latter two with the first value of a
    repeated key first. *)
Record http_request : Type := {
  req_data : string;
  req_form : list (string * string);
  req_args : list (string * string);
}.

(** [MultiDict.get(k)]: the first value of the key. *)
Fixpoint multi_get (k : string) (d : list (string * string)) : option string :=
  match d with
  | [] => None
  | (k', v) :: rest => if String.eqb k k' then Some v else multi_get k rest
  end.

Section Arguments.

(** [json.loads(request.data.decode(), parse_float=decimal.Decimal)] *)
Variable json_loads : string -> result pyval.

Definition get_json (request : http_request) : result pyval :=
  if String.eqb (req_data request) "" then Returned PyNone
  else json_loads (req_data request).

Definition get_arg (request : http_request) (attr : string) (default : pyval)
  : result pyval :=
  match get_json request with
  | Raised e => Raised e
  | Returned json =>
      if truthy json then
        match get_json request with
        | Raised e => Raised e
        | Returned (PyDict d) =>
            Returned (match assoc_get attr d with Some v => v | None => PyNone end)
        | Returned _ => Raised AttributeError
        end
      else
        Returned
          (match multi_get attr (req_form request) with
           | Some v => PyStr v
           | None =>
               match multi_get attr (req_args request) with
               | Some v => PyStr v
               | None => default
               end
           end)
  end.

(** ** Logging out: [LogoutResource.post] *)

Inductive logout_exit : Type :=
| LogoutRaised (e : exn)
| Aborted (status : nat)            (* abort(status) *)
| TokenRevoked (token : pyval).     (* token.revoke(), then the 200 answer *)

(** [token and token.split(' ')]: a falsy argument stays as it is, a
    string is split, anything else has no [split]. *)
Definition and_split (token : pyval) : result pyval :=
  if truthy token then
    match token with
    | PyStr s => Returned (PyList (PyStr <$> str_split space s))
    | _ => Raised AttributeError
    end
  else Returned token.

(** [len(v)] *)
Definition py_len (v : pyval) : result nat :=
  match v with
  | PyStr s => Returned (String.length s)
  | PyList l => Returned (length l)
  | PyDict d => Returned (length d)
  | PyNone | PyBool _ | PyInt _ => Raised TypeError
  end.

(** [v[1]] on a value of length two: the second character, the second
    item, or the missing key [1] of a mapping keyed by strings. *)
Definition py_item1 (v : pyval) : result pyval :=
  match v with
  | PyStr s => Returned (PyStr (slice 1 2 s))
  | PyList l => Returned (nth 1 l PyNone)
  | PyDict d => Raised (KeyError "1")
  | PyNone | PyBool _ | PyInt _ => Raised TypeError
  end.

(** [token[1] if len(token) == 2 else None] *)
Definition second_of_two (token : pyval) : result pyval :=
  match py_len token with
  | Raised e => Raised e
  | Returned n => if Nat.eqb n 2 then py_item1 token else Returned PyNone
  end.

(** [get_by_token] tells whether [AccessToken.get_by_token] finds the
    token. *)
Definition LogoutResource_post (get_by_token : pyval -> bool) (request : http_request)
  : logout_exit :=
  match get_arg request "token" PyNone with
  | Raised e => LogoutRaised e
  | Returned token =>
      match and_split token with
      | Raised e => LogoutRaised e
      | Returned token =>
          match second_of_two token with
          | Raised e => LogoutRaised e
          | Returned token =>
              if negb (truthy token) then Aborted 401
              else if get_by_token token then TokenRevoked token
              else Aborted 403
          end
      end
  end.

End Arguments.

(** ** The database listener: [DataResource._postgres_listen] *)

Definition watch_tables : list string :=
  ["sellable"; "product"; "storable"; "product_stock_item"; "branch_station";
   "branch"; "login_user"; "sellable_category"; "client_category_price";
   "payment_method"; "credit_provider"].

(** What one [select.select([conn], [], [], 5)] finds: nothing within five
    seconds, or a readable connection whose [poll()] leaves these payloads
    in [conn.notifies]. *)
Inductive wakeup : Type :=
| TimedOut
| Readable (notifies : list string).

Inductive listen_call : Type :=
| Select                      (* select.select(...) returned *)
| PutAllUpdate.               (* EventStream.put_all({'type': 'SERVER_UPDATE_DATA', ...}) *)

(** [te_id, table = notify.payload.split(',')] *)
Definition unpack_payload (payload : string) : result (string * string) :=
  match str_split comma payload with
  | [te_id; table] => Returned (te_id, table)
  | _ => Raised ValueError
  end.

(** [while conn.notifies:] *)
Fixpoint drain_notifies (message : bool) (notifies : list string) : result bool :=
  match notifies with
  | [] => Returned message
  | payload :: rest =>
      match unpack_payload payload with
      | Raised e => Raised e
      | Returned (_, table) =>
          drain_notifies (message || in_list table watch_tables) rest
      end
  end.

(** [DataResource.get_data(store)]: [get_data] is defined with the two
    parameters [self] and [store] and is called here on the class, so that
    [store] is taken for [self] and the call raises [TypeError] for the
    missing argument before the body runs. *)
Definition get_data_on_class : result pyval := Raised TypeError.

(** The rounds of [while True:], until the wake-ups given are used up or
    the function raises.  The argument of [put_all] is evaluated before the
    call. *)
Fixpoint listen_rounds (message : bool) (rounds : list wakeup)
  : option exn * list listen_call :=
  match rounds with
  | [] => (None, [])
  | w :: rest =>
      let polled :=
        match w with
        | TimedOut => Returned message
        | Readable notifies => drain_notifies message notifies
        end in
      match polled with
      | Raised e => (Some e, [Select])
      | Returned message =>
          if message then
            match get_data_on_class with
            | Raised e => (Some e, [Select])
            | Returned _ =>
                let '(x, tr) := listen_rounds false rest in
                (x, Select :: PutAllUpdate :: tr)
            end
          else
            let '(x, tr) := listen_rounds message rest in (x, Select :: tr)
      end
  end.

Definition postgres_listen (rounds : list wakeup) : option exn * list listen_call :=
  listen_rounds false rounds.

Definition is_update (c : listen_call) : bool :=
  match c with PutAllUpdate => true | Select => false end.

(** A notification as the trigger sends it. *)
Definition payload_of (n : string * string) : string := n.1 +:+ "," +:+ n.2.

Definition plain (n : string * string) : bool :=
  negb (has_char comma n.1) && negb (has_char comma n.2).

(** Wake-ups whose notifications all have the two fields. *)
Definition wakeup_of (w : option (list (string * string))) : wakeup :=
  match w with
  | None => TimedOut
  | Some ns => Readable (payload_of <$> ns)
  end.

Definition plain_round (w : option (list (string * string))) : bool :=
  match w with
  | None => true
  | Some ns => forallb plain ns
  end.

(** Some notification of the round names a watched table. *)
Definition touches_watched (w : option (list (string * string))) : bool :=
  match w with
  | None => false
  | Some ns => existsb (fun n => in_list n.2 watch_tables) ns
  end.

(** The first wake-up that names a watched table. *)
Fixpoint first_watched (rounds : list (option (list (string * string)))) : option nat :=
  match rounds with
  | [] => None
  | w :: rest => if touches_watched w then Some 0 else S <$> first_watched rest
  end.

(** ** The SAT and pinpad pollers *)

(** [xs == ys] on lists, given the equality of items. *)
Fixpoint items_eq (eq : pyval -> pyval -> bool) (xs ys : list pyval) : bool :=
  match xs, ys with
  | [], [] => true
  | x :: xs', y :: ys' => eq x y && items_eq eq xs' ys'
  | _, _ => false
  end.

(** [a == b] on the values of the model; two mappings are equal when they
    have as many keys and every key of the first has an equal value in the
    second. *)
Fixpoint py_eq (a b : pyval) : bool :=
  match a, b with
  | PyNone, PyNone => true
  | PyBool x, PyBool y => Bool.eqb x y
  | PyBool x, PyInt z => Z.eqb z (if x then 1 else 0)
  | PyInt z, PyBool x => Z.eqb z (if x then 1 else 0)
  | PyInt x, PyInt y => Z.eqb x y
  | PyStr x, PyStr y => String.eqb x y
  | PyList xs, PyList ys => items_eq py_eq xs ys
  | PyDict xs, PyDict ys =>
      Nat.eqb (length xs) (length ys) &&
      forallb (fun kv => match assoc_get kv.1 ys with
                         | Some w => py_eq kv.2 w
                         | None => false
                         end) xs
  | _, _ => false
  end.

(** Mappings as Python has them: no key twice, at any depth. *)
Fixpoint distinct_keys (v : pyval) : bool :=
  match v with
  | PyList l => forallb distinct_keys l
  | PyDict d => bool_decide (NoDup d.*1) && forallb (fun kv => distinct_keys kv.2) d
  | _ => true
  end.

(** [edges prev l]: each value of [l] differs from the one before it, the
    first from [prev]. *)
Fixpoint edges (prev : pyval) (l : list pyval) : bool :=
  match l with
  | [] => true
  | v :: rest => negb (py_eq prev v) && edges v rest
  end.

(** What one round of a poller meets: the device lock held by somebody
    else, or the lock free and these return values from the receivers of
    the status signal, in the order [send()] lists them. *)
Inductive poller_round : Type :=
| LockBusy
| Replies (values : list pyval).

Inductive poller_call : Type :=
| PollerPut (station : string) (data : event)   (* EventStream.put *)
| PollerSleep (seconds : nat).                  (* gevent.sleep(seconds) *)

(** Modelled from the spec: [lock_sat(block=False)] comes from
    [stoqserver/lib/lock.py], which is not among the sources.  The spec
    gives a non-blocking acquisition that fails at once with the contention
    signal when the lock is held; [None] stands for that
    [LockFailedException]. *)
Definition lock_sat_nonblocking (f : list pyval -> pyval) (r : poller_round) : option pyval :=
  match r with
  | LockBusy => None
  | Replies values => Some (f values)
  end.

(** Modelled from the spec: [lock_pinpad(block=False)], as
    [lock_sat(block=False)] above, on the pinpad lock. *)
Definition lock_pinpad_nonblocking (f : list pyval -> pyval) (r : poller_round)
  : option pyval :=
  match r with
  | LockBusy => None
  | Replies values => Some (f values)
  end.

(** [event_reply and event_reply[0][1]] *)
Definition first_reply (event_reply : list pyval) : pyval :=
  match event_reply with
  | [] => PyList []
  | v :: _ => v
  end.

Definition check_sat : poller_round -> option pyval :=
  lock_sat_nonblocking
    (fun values => if Nat.eqb (length values) 0 then PyBool true else first_reply values).

Definition check_pinpad : poller_round -> option pyval :=
  lock_pinpad_nonblocking first_reply.

(** One round of either loop: the two bodies differ in the probe, the
    device name and the period only. *)
Definition status_round (device : string) (period : nat) (station : string)
    (ok : pyval) (checked : option pyval) : pyval * list poller_call :=
  let new_ok := match checked with Some v => v | None => ok end in
  if negb (py_eq ok new_ok) then
    (new_ok, [PollerPut station (DEVICE_STATUS_CHANGED device new_ok); PollerSleep period])
  else (ok, [PollerSleep period]).

Fixpoint status_rounds (check : poller_round -> option pyval) (device : string)
    (period : nat) (station : string) (ok : pyval) (rounds : list poller_round)
  : list poller_call :=
  match rounds with
  | [] => []
  | r :: rest =>
      let '(ok', tr) := status_round device period station ok (check r) in
      tr ++ status_rounds check device period station ok' rest
  end.

(** [n_receivers] is [len(CheckSatStatusEvent.receivers)] when the worker
    starts. *)
Definition check_sat_loop (n_receivers : nat) (station : string)
    (rounds : list poller_round) : list poller_call :=
  if Nat.eqb n_receivers 0 then []
  else status_rounds check_sat "sat" (60 * 5) station (PyInt (-1)) rounds.

Definition check_pinpad_loop (station : string) (rounds : list poller_round)
  : list poller_call :=
  status_rounds check_pinpad "pinpad" 60 station (PyInt (-1)) rounds.

Definition statuses (tr : list poller_call) : list pyval :=
  omap (fun c => match c with
                 | PollerPut _ (DEVICE_STATUS_CHANGED _ v) => Some v
                 | _ => None
                 end) tr.

Definition is_poller_put (c : poller_call) : bool :=
  match c with PollerPut _ _ => true | PollerSleep _ => false end.

Definition poller_puts (tr : list poller_call) : list poller_call :=
  List.filter is_poller_put tr.

Definition is_free (r : poller_round) : bool :=
  match r with LockBusy => false | Replies _ => true end.

Definition is_busy (r : poller_round) : bool :=
  match r with LockBusy => true | Replies _ => false end.

Definition sound_round (r : poller_round) : bool :=
  match r with
  | LockBusy => true
  | Replies values => forallb distinct_keys values
  end.

(** ** The daily till report: [inform_till_status] *)

(** Naive local time in microseconds, counted from a midnight. *)
Definition second_us : Z := 1000000.
Definition day_us : Z := 86400 * second_us.

(** [datetime.datetime(now.year, now.month, now.day, hour=6, minute=0)] *)
Definition update_time (now : Z) : Z := (now / day_us) * day_us + 6 * 3600 * second_us.

(** [(update_time + datetime.timedelta(days=1) - now).total_seconds()], in
    microseconds. *)
Definition wait_time (now : Z) : Z := update_time now + day_us - now.

Inductive till_call : Type :=
| TillSleep (us : Z)                                       (* gevent.sleep(...) *)
| PutCheckTill (station : string) (status : till_status).  (* CHECK_TILL_FINISHED *)

(** One pass of the loop needs the time the sleep overran and the rest of
    the pass took together, and what [Till.get_last] finds. *)
Record till_pass : Type := {
  lag : Z;
  last_till : option till_status;
}.

(** The passes of [while True:] from the time [now] of the first; each
    report comes with the time by which it was put. *)
Fixpoint till_passes (station : string) (now : Z) (passes : list till_pass)
  : option exn * list (Z * till_call) :=
  match passes with
  | [] => (None, [])
  | p :: rest =>
      let slept := Z.max (60 * second_us) (wait_time now) in
      let after := (now + slept + lag p)%Z in
      match last_till p with
      | None => (Some AttributeError, [(now, TillSleep slept)])
      | Some status =>
          let '(x, tr) := till_passes station after rest in
          (x, (now, TillSleep slept) :: (after, PutCheckTill station status) :: tr)
      end
  end.

Definition inform_till_status := till_passes.

Definition reports (tr : list (Z * till_call)) : list Z :=
  omap (fun c => match c.2 with PutCheckTill _ _ => Some c.1 | TillSleep _ => None end) tr.

Definition day_of (t : Z) : Z := (t / day_us)%Z.

Definition time_of_day (t : Z) : Z := (t mod day_us)%Z.

(** ** Sample requests *)

Definition no_json : string -> result pyval := fun _ => Raised ValueError.

Definition one_token (v : pyval) : bool :=
  match v with PyStr s => String.eqb s "7f3a" | _ => false end.

Definition bearer_form : http_request :=
  {| req_data := ""; req_form := [("token", "JWT 7f3a")]; req_args := [] |}.

(** A JSON body without [token] (written here without its quotes), the
    token being in the query string; [user_only] is what [json.loads] makes
    of that body. *)
Definition token_in_query : http_request :=
  {| req_data := "{user: ana}"; req_form := []; req_args := [("token", "JWT 7f3a")] |}.

Definition user_only : string -> result pyval :=
  fun text =>
    if String.eqb text "{user: ana}" then Returned (PyDict [("user", PyStr "ana")])
    else Raised ValueError.

(** Two wake-ups that name no watched table, one of them a timeout. *)
Definition quiet_night : list (option (list (string * string))) :=
  [Some [("14", "sale_item"); ("15", "till")]; None].

(** The same, followed by a change of a product and one of a branch. *)
Definition busy_morning : list (option (list (string * string))) :=
  quiet_night ++ [Some [("11", "sale"); ("12", "product"); ("13", "sellable")];
                  Some [("16", "branch")]].

(** A pinpad that is read, found busy twice, read again with the same
    answer, and then fails. *)
Definition pinpad_morning : list poller_round :=
  [Replies [PyBool true]; LockBusy; LockBusy; Replies [PyBool true]; Replies [PyBool false]].

Definition hour_us : Z := 3600 * second_us.

Definition is_till_sleep (c : Z * till_call) : bool :=
  match c.2 with TillSleep _ => true | PutCheckTill _ _ => false end.

Definition slept (tr : list (Z * till_call)) : list Z :=
  omap (fun c => match c.2 with TillSleep us => Some us | PutCheckTill _ _ => None end) tr.

(** A server started at 05:59:00 whose till stays open, three passes, each
    two seconds late. *)
Definition started_before_six : Z := (5 * hour_us + 59 * 60 * second_us)%Z.

Definition three_days : list till_pass :=
  [{| lag := 2 * second_us; last_till := Some STATUS_OPEN |};
   {| lag := 2 * second_us; last_till := Some STATUS_OPEN |};
   {| lag := 2 * second_us; last_till := Some STATUS_CLOSED |}].

Definition no_till_yet : till_pass := {| lag := 0; last_till := None |}.

(** ** The category tree: [DataResource._get_categories] *)

(** A row of [store.find(SellableCategory)]. *)
Record category : Type := {
  cat_id : string;                  (* c.id *)
  cat_description : string;         (* c.description *)
  cat_parent : option string;       (* c.category_id *)
}.

(** One of the dicts that [aux] holds, with the keys it may have: ['id']
    and ['description'] together, ['children'], ['products'].  A list of
    children holds the dicts themselves; as [aux] keeps each dict under the
    id of its category, a reference to a dict is that id. *)
Record cat_dict : Type := {
  n_entry : option (string * string);
  n_children : option (list string);
  n_products : option (list pyval);
}.

Definition empty_dict : cat_dict :=
  {| n_entry := None; n_children := None; n_products := None |}.

(** [categories_root], whose items are dicts of [aux] or, at the end, the
    values that the plug-ins returned; and [aux]. *)
Record cat_state : Type := {
  categories_root : list (string + pyval);
  aux : gmap string cat_dict;
}.

(** [aux.setdefault(k, {})] *)
Definition setdefault_dict (k : string) (m : gmap string cat_dict) : gmap string cat_dict :=
  match m !! k with
  | Some _ => m
  | None => <[k := empty_dict]> m
  end.

(** [d.setdefault('children', [])] *)
Definition setdefault_children (d : cat_dict) : cat_dict :=
  match n_children d with
  | Some _ => d
  | None => {| n_entry := n_entry d; n_children := Some []; n_products := n_products d |}
  end.

(** [d['children'].append(c_dict)] *)
Definition append_child (c : string) (d : cat_dict) : cat_dict :=
  {| n_entry := n_entry d;
     n_children := (fun l => l ++ [c]) <$> n_children d;
     n_products := n_products d |}.

(** [c_dict.update({'id': ..., 'description': ...})],
    [c_dict.setdefault('children', [])],
    [products_list = c_dict.setdefault('products', [])] and the appends to
    [products_list]. *)
Definition fill_dict (c : category) (found : list pyval) (d : cat_dict) : cat_dict :=
  {| n_entry := Some (cat_id c, cat_description c);
     n_children := Some (default [] (n_children d));
     n_products := Some (default [] (n_products d) ++ found) |}.

Section Categories.

(** The products found for a category, each as the dict the loop builds
    for it; the queries are the database's. *)
Variable products_of : category -> list pyval.

(** One round of [for c in store.find(SellableCategory):]. *)
Definition add_category (s : cat_state) (c : category) : cat_state :=
  let with_parent :=
    match cat_parent c with
    | None => aux s
    | Some p => alter setdefault_children p (setdefault_dict p (aux s))
    end in
  let with_dict := setdefault_dict (cat_id c) with_parent in
  let appended :=
    match cat_parent c with
    | None => with_dict
    | Some p => alter (append_child (cat_id c)) p with_dict
    end in
  {| categories_root :=
       match cat_parent c with
       | None => categories_root s ++ [inl (cat_id c)]
       | Some _ => categories_root s
       end;
     aux := alter (fill_dict c (products_of c)) (cat_id c) appended |}.

(** [responses] are the values returned by the receivers of
    [GetAdvancePaymentCategoryEvent]. *)
Definition get_categories (rows : list category) (responses : list pyval) : cat_state :=
  let s := foldl add_category {| categories_root := []; aux := ∅ |} rows in
  {| categories_root := categories_root s ++ (inr <$> responses); aux := aux s |}.

End Categories.

(** The children listed in the dict of [p], none when there is no such dict
    or list. *)
Definition children_of (p : string) (s : cat_state) : list string :=
  default [] (aux s !! p ≫= n_children).

Definition is_root (c : category) : bool :=
  match cat_parent c with None => true | Some _ => false end.

Definition is_child_of (p : string) (c : category) : bool :=
  match cat_parent c with None => false | Some q => String.eqb q p end.

(** The dicts that the returned list leads to. *)
Inductive reachable (s : cat_state) : string -> Prop :=
| reach_root i : In (inl i) (categories_root s) -> reachable s i
| reach_child p i : reachable s p -> In i (children_of p s) -> reachable s i.

(** Drinks with two children, the first of which comes before its parent,
    and a category whose parent is not among the rows. *)
Definition menu : list category :=
  [{| cat_id := "c-soda"; cat_description := "Soda"; cat_parent := Some "c-drinks" |};
   {| cat_id := "c-drinks"; cat_description := "Drinks"; cat_parent := None |};
   {| cat_id := "c-juice"; cat_description := "Juice"; cat_parent := Some "c-drinks" |};
   {| cat_id := "c-lost"; cat_description := "Lost"; cat_parent := Some "c-gone" |}].

Definition no_products : category -> list pyval := fun _ => [].

(** * Properties *)

(** ** The printer check *)

Lemma sleeps_failed_rounds k : sleeps (failed_rounds k) = replicate k (Sleep 1).
Proof. induction k as [|k IH]; [done|]. cbn. unfold sleeps in IH. by rewrite IH. Qed.

Lemma sleeps_app tr1 tr2 : sleeps (tr1 ++ tr2) = sleeps tr1 ++ sleeps tr2.
Proof. unfold sleeps. apply List.filter_app. Qed.

(** [k] serial failures in a row are each followed by one sleep and by the
    next round. *)
Lemma reopen_loop_serial d k : forall n r,
  (forall i, i < k -> serial_failure (d (n + i)) = true) ->
  reopen_loop d n (k + r) =
    ((reopen_loop d (n + k) r).1, failed_rounds k ++ (reopen_loop d (n + k) r).2).
Proof.
  induction k as [|k IH]; intros n r Hs.
  - rewrite Nat.add_0_r. cbn. by destruct (reopen_loop d n r).
  - cbn [Nat.add reopen_loop].
    pose proof (Hs 0 ltac:(lia)) as H0. rewrite Nat.add_0_r in H0.
    unfold serial_failure in H0.
    destruct (raised_fault (d n)) as [[]|]; try discriminate.
    rewrite (IH (S n) r).
    + replace (S n + k) with (n + S k) by lia. done.
    + intros i Hi. replace (S n + i) with (n + S i) by lia. apply Hs. lia.
Qed.

Lemma ensure_printer_enters_recovery env retries f0 :
  locked env = true -> configured env = true ->
  raised_fault (dev env 0) = Some f0 ->
  exists bound, ensure_printer env retries = recover env retries f0 bound.
Proof.
  intros Hl Hc H0. unfold ensure_printer. rewrite Hl, Hc. cbn.
  destruct (dev env 0) as [f|f|b]; cbn in H0; inversion H0; subst; eauto.
Qed.

(** When every round fails with a serial fault the loop runs out after
    [retries] sleeps. *)
Lemma reopen_loop_exhausted d retries n :
  (forall i, i < retries -> serial_failure (d (n + i)) = true) ->
  reopen_loop d n retries = (Exhausted, failed_rounds retries).
Proof.
  intros Hs. replace retries with (retries + 0) at 1 by lia.
  rewrite reopen_loop_serial by done. cbn. by rewrite app_nil_r.
Qed.

(** C2, as stated, fails: with the first probe and reopen attempts 1 and 2
    failing and attempt 3 reading an open drawer, [ensure_printer] with 3
    retries returns closed, the reading of the probe it makes after the
    loop, not the reading of the successful attempt. *)
Lemma ensure_printer_discards_attempt_reading :
  let env := closes_after_recovery in
  is_Some (raised_fault (dev env 0)) /\
  is_Some (raised_fault (dev env 1)) /\
  is_Some (raised_fault (dev env 2)) /\
  dev env 3 = Drawer true /\
  (ensure_printer env 3).1 = Returned (Some false) /\
  (ensure_printer env 3).1 <> Returned (Some true).
Proof. cbn. repeat split; eauto; discriminate. Qed.

(** C2, amended: under the printer lock and with 3 retries, when the first
    probe faults and reopen attempts 1 and 2 fail with serial faults, then
    (a) if attempt 3 succeeds the call ends as the one further probe made
    after the loop ends (its reading is returned, its fault raised), having
    slept exactly twice, one unit each; (b) if attempt 3 fails with a serial
    fault too, the fault of the first probe is raised. *)
Theorem ensure_printer_three_retries (env : printer_env) (f0 : fault) :
  locked env = true -> configured env = true ->
  raised_fault (dev env 0) = Some f0 ->
  serial_failure (dev env 1) = true ->
  serial_failure (dev env 2) = true ->
  (forall b, dev env 3 = Drawer b ->
     (ensure_printer env 3).1 = probe (dev env) 4 /\
     sleeps (ensure_printer env 3).2 = [Sleep 1; Sleep 1]) /\
  (serial_failure (dev env 3) = true ->
     (ensure_printer env 3).1 = Raised (Fault f0)).
Proof.
  intros Hl Hc H0 H1 H2.
  destruct (ensure_printer_enters_recovery env 3 f0 Hl Hc H0) as [bound ->].
  assert (H12 : forall i, i < 2 -> serial_failure (dev env (1 + i)) = true).
  { intros [|[|i]] Hi; [done|done|lia]. }
  split.
  - intros b H3. unfold recover.
    change (reopen_loop (dev env) 1 3) with (reopen_loop (dev env) 1 (2 + 1)).
    rewrite (reopen_loop_serial (dev env) 2 1 1 H12).
    cbn [Nat.add reopen_loop]. rewrite H3. cbn.
    split; [done|].
    destruct bound, (sat_ui env), (nonfiscal_ui env); done.
  - intros H3. unfold recover.
    rewrite reopen_loop_exhausted; [done|].
    intros [|[|[|i]]] Hi; [done|done|done|lia].
Qed.

Lemma ensure_printer_three_retries_witness :
  (ensure_printer closes_after_recovery 3).1 = Returned (Some false) /\
  sleeps (ensure_printer closes_after_recovery 3).2 = [Sleep 1; Sleep 1].
Proof.
  exact (proj1 (ensure_printer_three_retries closes_after_recovery SerialException
                  eq_refl eq_refl eq_refl eq_refl eq_refl) true eq_refl).
Defined.

(** With every reopen attempt failing on the serial line, the fault that is
    raised is the first probe's, whatever its kind, after one sleep per
    attempt. *)
Lemma ensure_printer_reraises_original env retries f0 :
  locked env = true -> configured env = true ->
  raised_fault (dev env 0) = Some f0 ->
  (forall i, i < retries -> serial_failure (dev env (1 + i)) = true) ->
  (ensure_printer env retries).1 = Raised (Fault f0) /\
  sleeps (ensure_printer env retries).2 = replicate retries (Sleep 1).
Proof.
  intros Hl Hc H0 Hs.
  destruct (ensure_printer_enters_recovery env retries f0 Hl Hc H0) as [bound ->].
  unfold recover. rewrite reopen_loop_exhausted by done. cbn. split; [done|].
  rewrite sleeps_app, sleeps_failed_rounds. by destruct bound.
Qed.

Example unplugged_reraises_invalid_reply :
  (ensure_printer unplugged 3).1 = Raised (Fault InvalidReplyException).
Proof. reflexivity. Qed.

(** No printer configured: nothing to ensure, nothing is touched. *)
Lemma ensure_printer_unconfigured env retries :
  locked env = true -> configured env = false ->
  ensure_printer env retries = (Returned None, []).
Proof. intros Hl Hc. unfold ensure_printer. by rewrite Hl, Hc. Qed.

(** C10: in the recovery loop a serial fault of a reopen attempt is caught
    and the next attempt follows after a sleep, while an invalid-reply fault
    of an attempt leaves [ensure_printer] at once: after [k] attempts failed
    on the serial line, an invalid reply at attempt [k+1] is what the caller
    gets, with [k] sleeps and no attempt after it, although the first probe's
    fault, of either kind, had opened the recovery (the handle was dropped
    and attempts were made). *)
Theorem invalid_reply_in_retry_propagates (env : printer_env) (retries k : nat) (f0 : fault) :
  locked env = true -> configured env = true ->
  raised_fault (dev env 0) = Some f0 ->
  k < retries ->
  (forall i, i < k -> serial_failure (dev env (1 + i)) = true) ->
  raised_fault (dev env (1 + k)) = Some InvalidReplyException ->
  (ensure_printer env retries).1 = Raised (Fault InvalidReplyException) /\
  sleeps (ensure_printer env retries).2 = replicate k (Sleep 1) /\
  length (List.filter is_reopening (ensure_printer env retries).2)
    = S k /\
  In DropHandle (ensure_printer env retries).2.
Proof.
  intros Hl Hc H0 Hk Hs Hbad.
  destruct (ensure_printer_enters_recovery env retries f0 Hl Hc H0) as [bound ->].
  unfold recover.
  replace retries with (k + S (retries - S k)) by lia.
  rewrite (reopen_loop_serial (dev env) k 1 _ Hs).
  cbn [reopen_loop]. rewrite Hbad. cbn [fst snd].
  split; [done|]. split; [|split].
  - rewrite !sleeps_app, sleeps_failed_rounds. destruct bound; cbn; by rewrite app_nil_r.
  - rewrite !List.filter_app, !length_app.
    assert (Hn : length (List.filter is_reopening (failed_rounds k)) = k).
    { clear. induction k as [|k IH]; [done|]. cbn. by rewrite IH. }
    rewrite Hn. destruct bound; cbn; lia.
  - apply in_or_app. left. destruct bound; cbn; tauto.
Qed.

Lemma invalid_reply_in_retry_propagates_witness :
  (ensure_printer garbled_on_reopen 20).1 = Raised (Fault InvalidReplyException).
Proof.
  refine (proj1 (invalid_reply_in_retry_propagates garbled_on_reopen 20 1
                   InvalidReplyException eq_refl eq_refl eq_refl _ _ eq_refl)).
  - lia.
  - intros [|i] Hi; [reflexivity | lia].
Defined.

(** ** The event stream *)

Lemma EventStream_put_flag station data s s' :
  EventStream_put station data s = Some s' ->
  has_stream s = true /\ has_stream s' = true /\
  waiting_reply s' = waiting_reply s /\ reply s' = reply s.
Proof.
  unfold EventStream_put, deliver. destruct (has_stream s) eqn:Hf; [|done].
  intros [= <-]. by destruct (streams s !! station).
Qed.

Lemma deliver_flag station data s :
  has_stream (deliver station data s) = has_stream s /\
  waiting_reply (deliver station data s) = waiting_reply s /\
  reply (deliver station data s) = reply s.
Proof. unfold deliver. by destruct (streams s !! station). Qed.

Lemma EventStream_get_flag station pending s :
  exists s', EventStream_get station pending s = Some s' /\ has_stream s' = true /\
             waiting_reply s' = waiting_reply s /\ reply s' = reply s.
Proof.
  unfold EventStream_get. destruct pending; [|eauto].
  set (s1 := set_has_stream _).
  set (w := TEF_WARNING_MESSAGE _).
  assert (H1 : EventStream_put station w s1 = Some (deliver station w s1)) by done.
  rewrite H1. cbn [mbind option_bind].
  destruct (deliver_flag station w s1) as (Ha & Hb & Hc).
  destruct (deliver_flag station CLEAR_SALE (deliver station w s1)) as (Ha' & Hb' & Hc').
  unfold EventStream_put. rewrite Ha. cbn [has_stream s1 set_has_stream].
  eexists; split; [done|]. rewrite Ha', Hb', Hc', Ha, Hb, Hc. done.
Qed.

Lemma TefReplyResource_post_flag json_loads body s :
  has_stream (TefReplyResource_post json_loads body s).2 = has_stream s /\
  streams (TefReplyResource_post json_loads body s).2 = streams s /\
  waiting_reply (TefReplyResource_post json_loads body s).2 = waiting_reply s.
Proof.
  unfold TefReplyResource_post. destruct (waiting_reply s) eqn:E; cbn; [|done].
  destruct body as [[| | | | |data]|]; try done.
  destruct (assoc_get "value" data) as [[| | |text| |]|]; try done.
  by destruct (json_loads text).
Qed.

(** The flag is set by the first subscription and by nothing else, and
    nothing clears it. *)
Lemma has_stream_step json_loads m p p' :
  step json_loads m p = Some p' ->
  has_stream (srv p') = has_stream (srv p) || is_subscribe m.
Proof.
  destruct m as [st pending|st data|data|t|t st q|t|t|body]; cbn.
  - destruct (EventStream_get_flag st pending (srv p)) as (s' & -> & Hf & _).
    cbn. intros [= <-]. cbn. rewrite Hf. by rewrite orb_true_r.
  - destruct (EventStream_put st data (srv p)) as [s'|] eqn:E; [|done].
    cbn. intros [= <-]. cbn. apply EventStream_put_flag in E as (-> & -> & _). done.
  - unfold EventStream_put_all. destruct (has_stream (srv p)) eqn:E; [|done].
    cbn. intros [= <-]. cbn. done.
  - destruct (pinpad p); [done|]. cbn. intros [= <-]. cbn. by rewrite orb_false_r.
  - destruct (holds t p && negb (is_asking t p)); [|done].
    unfold question_callback.
    destruct (EventStream_put st (TEF_ASK_QUESTION q) (srv p)) as [s'|] eqn:E; [|done].
    apply EventStream_put_flag in E as (-> & Hf & _). cbn.
    destruct (reply s'); intros [= <-]; cbn; by rewrite Hf.
  - destruct (is_asking t p); [|done]. unfold question_resume.
    destruct (reply (srv p)); [done|]. cbn. intros [= <-]. cbn. by rewrite orb_false_r.
  - destruct (holds t p && negb (is_asking t p)); [|done].
    intros [= <-]. cbn. by rewrite orb_false_r.
  - intros [= <-]. cbn.
    destruct (TefReplyResource_post_flag json_loads body (srv p)) as (-> & _).
    by rewrite orb_false_r.
Qed.

Lemma has_stream_run json_loads ms : forall p p',
  run json_loads ms p = Some p' ->
  has_stream (srv p') = has_stream (srv p) || existsb is_subscribe ms.
Proof.
  induction ms as [|m ms IH]; intros p p'; cbn.
  - intros [= <-]. by rewrite orb_false_r.
  - destruct (step json_loads m p) as [p1|] eqn:E; [|done]. cbn. intros Hr.
    rewrite (IH _ _ Hr), (has_stream_step _ _ _ _ E). by rewrite orb_assoc.
Qed.

(** C4: in any state the process reaches, [EventStream.put(station, data)]
    leaves its caller suspended, with nothing done, exactly when no station
    has ever subscribed; otherwise it returns without error, having appended
    the event to the station's queue when the station has one and having
    changed nothing when it has none; the queues of the other stations are
    as they were. *)
Theorem EventStream_put_blocks_then_delivers
    (json_loads : string -> result pyval) (ms : list move) (p : process)
    (station : string) (data : event) :
  run json_loads ms start = Some p ->
  (EventStream_put station data (srv p) = None <-> existsb is_subscribe ms = false) /\
  (existsb is_subscribe ms = true ->
     exists s', EventStream_put station data (srv p) = Some s' /\
       (forall stream, streams (srv p) !! station = Some stream ->
          streams s' !! station = Some (stream ++ [data])) /\
       (streams (srv p) !! station = None -> s' = srv p) /\
       (forall other, other <> station -> streams s' !! other = streams (srv p) !! other)).
Proof.
  intros Hr. apply has_stream_run in Hr. cbn in Hr.
  unfold EventStream_put. rewrite Hr. split.
  - destruct (existsb is_subscribe ms); split; done.
  - intros ->. eexists; split; [done|]. unfold deliver.
    split; [|split].
    + intros stream ->. cbn. by rewrite lookup_insert_eq.
    + by intros ->.
    + intros other Hne. destruct (streams (srv p) !! station); [|done].
      cbn. by rewrite lookup_insert_ne.
Qed.

Lemma EventStream_put_blocks_then_delivers_witness :
  EventStream_put "S1" CLEAR_SALE boot = None /\
  exists s', EventStream_put "S2" CLEAR_SALE
               (set_has_stream (set_streams {["S1" := [HANDSHAKE]]} boot)) = Some s'.
Proof.
  split.
  - exact (proj2 (proj1 (EventStream_put_blocks_then_delivers json_text [] start
                           "S1" CLEAR_SALE eq_refl)) eq_refl).
  - destruct (proj2 (EventStream_put_blocks_then_delivers json_text
                       [Subscribe "S1" false] _ "S2" CLEAR_SALE eq_refl) eq_refl)
      as (s' & H & _).
    exists s'. exact H.
Defined.

(** ** The reply endpoint *)

(** C5: a reply submitted while the waiting flag is not set raises the
    assertion and leaves the whole shared state, every event queue and the
    reply queue, as it was. *)
Theorem reply_without_question_refused
    (json_loads : string -> result pyval) (body : option pyval) (s : server) :
  waiting_reply s = false ->
  TefReplyResource_post json_loads body s = (Raised AssertionError, s) /\
  streams (TefReplyResource_post json_loads body s).2 = streams s /\
  reply (TefReplyResource_post json_loads body s).2 = reply s.
Proof. intros H. unfold TefReplyResource_post. by rewrite H. Qed.

Lemma reply_without_question_refused_witness :
  TefReplyResource_post json_text (Some (PyDict [("value", PyStr "1")])) boot
  = (Raised AssertionError, boot).
Proof.
  exact (proj1 (reply_without_question_refused json_text
                  (Some (PyDict [("value", PyStr "1")])) boot eq_refl)).
Defined.

(** With the flag set a well-formed reply goes to the back of the queue,
    however many values wait there already. *)
Lemma reply_with_question_queued json_loads text v s :
  waiting_reply s = true -> json_loads text = Returned v ->
  TefReplyResource_post json_loads (Some (PyDict [("value", PyStr text)])) s
  = (Returned tt, set_reply (reply s ++ [v]) s).
Proof. intros H E. unfold TefReplyResource_post. rewrite H. cbn. by rewrite E. Qed.

(** ** One TEF operation *)

Lemma puts_app tr1 tr2 : puts (tr1 ++ tr2) = puts tr1 ++ puts tr2.
Proof. unfold puts. apply omap_app. Qed.

Lemma finished_events_app tr1 tr2 :
  finished_events (tr1 ++ tr2) = finished_events tr1 ++ finished_events tr2.
Proof. unfold finished_events. by rewrite puts_app, List.filter_app. Qed.

Lemma finished_events_cons c tr :
  finished_events (c :: tr) = finished_events [c] ++ finished_events tr.
Proof. apply (finished_events_app [c] tr). Qed.

Lemma finished_events_printer acts : finished_events (map Printer acts) = [].
Proof. induction acts as [|a acts IH]; [done|]. cbn. exact IH. Qed.

Lemma finished_events_print_callback hp h m : finished_events (print_callback hp h m) = [].
Proof. unfold print_callback. by destruct hp, (truthy m), (truthy h). Qed.

(** The callbacks never put a terminal event. *)
Lemma finished_events_run_plugin st hp p : forall answers,
  finished_events (run_plugin st hp p answers).2 = [].
Proof.
  induction p as [v|args|m a k IH|q k IH|h m k IH]; intros answers;
    cbn [run_plugin]; try done.
  - specialize (IH answers). by destruct (run_plugin st hp k answers).
  - destruct answers as [|v rest]; [done|].
    specialize (IH v rest). by destruct (run_plugin st hp (k v) rest).
  - specialize (IH answers). destruct (run_plugin st hp k answers). cbn [snd] in *.
    by rewrite finished_events_app, finished_events_print_callback, IH.
Qed.

(** [post] past the till check, when the printer check raises. *)
Lemma post_body_short_circuit r e acts :
  till_ok r = true ->
  ensure_printer (under_lock (printer r)) 20 = (Raised e, acts) ->
  post_body r =
    (Responded,
     [AcquirePrinterLock] ++ map Printer acts ++ [ReleasePrinterLock] ++
     [Put (station r) (TEF_OPERATION_FINISHED (PyBool false) printer_failure_message)]).
Proof.
  unfold till_ok, post_body. intros Ht Hp.
  destruct (in_list _ _), (till_missing _); try discriminate; cbn [negb andb];
    rewrite Hp; by rewrite <- !app_assoc.
Qed.

(** [post] past the till check, when the printer check returns. *)
Lemma post_body_dispatch r reading acts :
  till_ok r = true ->
  ensure_printer (under_lock (printer r)) 20 = (Returned reading, acts) ->
  post_body r =
    ((dispatch r).1,
     ([AcquirePrinterLock] ++ map Printer acts ++ [ReleasePrinterLock]) ++ (dispatch r).2).
Proof.
  unfold till_ok, post_body. intros Ht Hp.
  destruct (in_list _ _), (till_missing _); try discriminate; cbn [negb andb];
    rewrite Hp; by destruct (dispatch r).
Qed.

(** [dispatch] when the plug-in is reached. *)
Lemma dispatch_sent r data :
  receivers r = 1 -> kwargs r = Some data ->
  dispatch r =
    let connects :=
      [Connect "TefMessageEvent"; Connect "TefQuestionEvent"; Connect "TefPrintEvent"] in
    let x := (run_plugin (station r) (has_printer r) (driver r data) (answers r)).1 in
    let tr := (run_plugin (station r) (has_printer r) (driver r data) (answers r)).2 in
    let sent := Send (signal_name r) (station r) data :: tr in
    let finish success message :=
      (Responded,
       connects ++ sent ++ [Put (station r) (TEF_OPERATION_FINISHED success message)]) in
    match x with
    | AwaitingReply => (Suspended, connects ++ sent)
    | PluginReturned retval =>
        match subscript_message retval with
        | inl message => finish retval message
        | inr args => finish (PyBool false) (failure_message args)
        end
    | PluginRaised args => finish (PyBool false) (failure_message args)
    end.
Proof.
  unfold dispatch, kwargs. intros -> Hk. cbn [Nat.eqb negb].
  destruct (body r) as [[| | | | |data0]|]; try discriminate.
  destruct (assoc_get "station" (assoc_remove "origin" data0)); [discriminate|].
  injection Hk as <-. cbv zeta.
  by destruct (run_plugin _ _ _ _).
Qed.

Lemma in_list_In x l : in_list x l = true <-> In x l.
Proof.
  unfold in_list. rewrite existsb_exists. split.
  - intros (y & Hy & E). apply String.eqb_eq in E. by subst.
  - intros H. exists x. split; [done|]. apply String.eqb_refl.
Qed.

Lemma till_missing_iff t : till_missing t = true <-> t <> Some STATUS_OPEN.
Proof. destruct t as [[]|]; cbn; split; congruence. Qed.

(** C7: for an operation kind outside the no-till-required set and a
    station whose last till is missing or not open, [post] raises the till
    error at once: the printer lock is not taken, [ensure_printer] does
    nothing, no signal is sent to a plug-in and no event is put. *)
Theorem no_open_till_fails_before_devices (r : tef_request) :
  ~ In (signal_name r) no_till_required ->
  till r <> Some STATUS_OPEN ->
  TefResource_post r =
    (Failed (TillError "There is no till open"), [AcquirePinpadLock; ReleasePinpadLock]) /\
  ~ In AcquirePrinterLock (TefResource_post r).2 /\
  (forall a, ~ In (Printer a) (TefResource_post r).2) /\
  (forall sig st data, ~ In (Send sig st data) (TefResource_post r).2) /\
  puts (TefResource_post r).2 = [].
Proof.
  intros Hk Ht.
  assert (E : TefResource_post r =
    (Failed (TillError "There is no till open"), [AcquirePinpadLock; ReleasePinpadLock])).
  { unfold TefResource_post, lock_pinpad, post_body.
    destruct (in_list (signal_name r) no_till_required) eqn:Hin.
    - apply in_list_In in Hin. contradiction.
    - apply till_missing_iff in Ht. by rewrite Ht. }
  rewrite E. cbn [snd]. split; [done|].
  split; [|split; [|split]]; [| | |done].
  - intros [H|[H|[]]]; discriminate H.
  - intros a [H|[H|[]]]; discriminate H.
  - intros sig st data [H|[H|[]]]; discriminate H.
Qed.

Lemma no_open_till_fails_before_devices_witness :
  TefResource_post sale_without_till =
    (Failed (TillError "There is no till open"), [AcquirePinpadLock; ReleasePinpadLock]).
Proof.
  refine (proj1 (no_open_till_fails_before_devices sale_without_till _ _)).
  - cbn. intros [H|[H|[]]]; discriminate H.
  - discriminate.
Defined.

(** The two kinds of the no-till-required set pass the check whatever the
    till. *)
Lemma no_till_required_passes r :
  In (signal_name r) no_till_required -> till_ok r = true.
Proof. intros H. unfold till_ok. apply in_list_In in H. by rewrite H. Qed.

(** C6: when the plug-in raises during the dispatch, the request ends with
    one terminal event whose success field is [False] and whose message is
    the second of the exception's [args] when there are exactly two, and
    the fixed fallback text for any other number of them. *)
Theorem driver_failure_message (r : tef_request) (reading : option bool)
    (acts : list action) (data : list (string * pyval)) (args : list pyval)
    (tr : list call) :
  till_ok r = true ->
  ensure_printer (under_lock (printer r)) 20 = (Returned reading, acts) ->
  receivers r = 1 ->
  kwargs r = Some data ->
  run_plugin (station r) (has_printer r) (driver r data) (answers r) = (PluginRaised args, tr) ->
  exists message,
    (TefResource_post r).1 = Responded /\
    finished_events (TefResource_post r).2
      = [(station r, TEF_OPERATION_FINISHED (PyBool false) message)] /\
    (forall first second, args = [first; second] -> message = second) /\
    (length args <> 2 -> message = PyStr "Falha na operação").
Proof.
  intros Ht Hp Hr Hk Hrun.
  exists (failure_message args).
  unfold TefResource_post, lock_pinpad.
  rewrite (post_body_dispatch r reading acts Ht Hp), (dispatch_sent r data Hr Hk), Hrun.
  cbn [fst snd]. cbv zeta. split; [done|]. split; [|split].
  - pose proof (finished_events_run_plugin (station r) (has_printer r) (driver r data)
                  (answers r)) as Hn.
    rewrite Hrun in Hn. cbn [snd] in Hn.
    rewrite finished_events_cons, !finished_events_app, finished_events_printer.
    rewrite (finished_events_cons (Send _ _ _)), Hn. done.
  - by intros first second ->.
  - intros Hlen. destruct args as [|a [|b [|c rest]]]; try done.
Qed.

Lemma driver_failure_message_witness :
  exists message,
    (TefResource_post declined_sale).1 = Responded /\
    finished_events (TefResource_post declined_sale).2
      = [("S1", TEF_OPERATION_FINISHED (PyBool false) message)] /\
    (forall first second,
       [PyInt 5; PyStr "Transação negada"] = [first; second] -> message = second) /\
    (length [PyInt 5; PyStr "Transação negada"] <> 2 -> message = PyStr "Falha na operação").
Proof.
  exact (driver_failure_message declined_sale (Some false)
           (ensure_printer (under_lock (printer declined_sale)) 20).2
           [("value", PyInt 1000)] [PyInt 5; PyStr "Transação negada"]
           [Put "S1" (TEF_DISPLAY_MESSAGE (PyStr "Insira o cartão") (PyBool true)); Yield]
           eq_refl eq_refl eq_refl eq_refl eq_refl).
Defined.

Example declined_sale_message :
  finished_events (TefResource_post declined_sale).2
  = [("S1", TEF_OPERATION_FINISHED (PyBool false) (PyStr "Transação negada"))].
Proof. reflexivity. Qed.

(** The terminal events of a request that got past the printer check are
    those of its dispatch. *)
Lemma finished_events_post_dispatch r reading acts :
  till_ok r = true ->
  ensure_printer (under_lock (printer r)) 20 = (Returned reading, acts) ->
  (TefResource_post r).1 = (dispatch r).1 /\
  finished_events (TefResource_post r).2 = finished_events (dispatch r).2.
Proof.
  intros Ht Hp. unfold TefResource_post, lock_pinpad.
  rewrite (post_body_dispatch r reading acts Ht Hp).
  assert (Hpre : forall tr,
    finished_events (([AcquirePrinterLock] ++ map Printer acts ++ [ReleasePrinterLock]) ++ tr)
    = finished_events tr).
  { intros tr. by rewrite !finished_events_app, finished_events_printer. }
  destruct (dispatch r) as [x tr]; cbn [fst snd].
  destruct x; cbn [fst snd]; split; try done; rewrite finished_events_cons;
    first [ rewrite (finished_events_app (_ ++ tr) [ReleasePinpadLock]), Hpre
          | rewrite Hpre ];
    cbn; by rewrite ?app_nil_r.
Qed.

Lemma finished_events_post_short_circuit r e acts :
  till_ok r = true ->
  ensure_printer (under_lock (printer r)) 20 = (Raised e, acts) ->
  (TefResource_post r).1 = Responded /\
  finished_events (TefResource_post r).2
    = [(station r, TEF_OPERATION_FINISHED (PyBool false) printer_failure_message)].
Proof.
  intros Ht Hp. unfold TefResource_post, lock_pinpad.
  rewrite (post_body_short_circuit r e acts Ht Hp). cbn [fst snd]. split; [done|].
  rewrite finished_events_cons, !finished_events_app, finished_events_printer. done.
Qed.

Lemma finished_events_dispatch_sent r data :
  receivers r = 1 -> kwargs r = Some data ->
  let x := (run_plugin (station r) (has_printer r) (driver r data) (answers r)).1 in
  (dispatch r).1 = match x with AwaitingReply => Suspended | _ => Responded end /\
  finished_events (dispatch r).2 =
    match x with
    | AwaitingReply => []
    | PluginReturned retval =>
        match subscript_message retval with
        | inl message => [(station r, TEF_OPERATION_FINISHED retval message)]
        | inr args =>
            [(station r, TEF_OPERATION_FINISHED (PyBool false) (failure_message args))]
        end
    | PluginRaised args =>
        [(station r, TEF_OPERATION_FINISHED (PyBool false) (failure_message args))]
    end.
Proof.
  intros Hr Hk. rewrite (dispatch_sent r data Hr Hk). cbv zeta.
  pose proof (finished_events_run_plugin (station r) (has_printer r) (driver r data)
                (answers r)) as Hn.
  destruct (run_plugin _ _ _ _) as [x tr]. cbn [fst snd] in *.
  destruct x as [retval|args|]; [destruct (subscript_message retval)| |]; cbn [fst snd];
    (split; [done|]);
    rewrite ?finished_events_app, (finished_events_cons (Send _ _ _)), Hn; done.
Qed.

(** What can be subscripted by ['message'] is a non-empty mapping: it is
    no boolean and it is true. *)
Lemma subscript_message_inl retval message :
  subscript_message retval = inl message ->
  is_bool retval = false /\ truthy retval = true /\
  exists d, retval = PyDict d /\ assoc_get "message" d = Some message.
Proof.
  destruct retval as [| | | | |d]; try discriminate. cbn.
  destruct (assoc_get "message" d) as [m|] eqn:E; [|discriminate].
  intros [= <-]. split; [done|]. split; [|eauto].
  by destruct d.
Qed.

(** C1, as stated, fails: the terminal event of an approved payment holds
    the plug-in's return value, a mapping, in its success field and not a
    boolean. *)
Lemma success_field_is_the_plugin_result :
  (TefResource_post approved_sale).1 = Responded /\
  finished_events (TefResource_post approved_sale).2
    = [("S1", TEF_OPERATION_FINISHED
                (PyDict [("message", PyStr "Transação aprovada")])
                (PyStr "Transação aprovada"))] /\
  is_bool (PyDict [("message", PyStr "Transação aprovada")]) = false.
Proof. repeat split. Qed.

(** C1, amended: a request that passes the till check and ends on one of
    the three paths puts exactly one terminal event, to its own station,
    with the resolved message: on the printer-check short-circuit the
    success field is [False] and the message the fixed printer text; when
    the plug-in raises, the success field is [False] and the message the one
    resolved from the exception; when the plug-in returns a value holding a
    message, the success field is that value itself, a mapping that is true
    and is not a boolean. *)
Theorem one_terminal_event_per_completion (r : tef_request) :
  till_ok r = true ->
  (forall e acts,
     ensure_printer (under_lock (printer r)) 20 = (Raised e, acts) ->
     (TefResource_post r).1 = Responded /\
     finished_events (TefResource_post r).2
       = [(station r, TEF_OPERATION_FINISHED (PyBool false)
                        (PyStr "Erro comunicando com a impressora"))]) /\
  (forall reading acts data tr,
     ensure_printer (under_lock (printer r)) 20 = (Returned reading, acts) ->
     receivers r = 1 ->
     kwargs r = Some data ->
     (forall args,
        run_plugin (station r) (has_printer r) (driver r data) (answers r)
          = (PluginRaised args, tr) ->
        (TefResource_post r).1 = Responded /\
        finished_events (TefResource_post r).2
          = [(station r, TEF_OPERATION_FINISHED (PyBool false) (failure_message args))]) /\
     (forall retval d message,
        run_plugin (station r) (has_printer r) (driver r data) (answers r)
          = (PluginReturned retval, tr) ->
        retval = PyDict d -> assoc_get "message" d = Some message ->
        (TefResource_post r).1 = Responded /\
        finished_events (TefResource_post r).2
          = [(station r, TEF_OPERATION_FINISHED retval message)] /\
        is_bool retval = false /\ truthy retval = true)).
Proof.
  intros Ht. split.
  - intros e acts Hp. exact (finished_events_post_short_circuit r e acts Ht Hp).
  - intros reading acts data tr Hp Hr Hk.
    destruct (finished_events_post_dispatch r reading acts Ht Hp) as [-> ->].
    destruct (finished_events_dispatch_sent r data Hr Hk) as [-> ->].
    split.
    + intros args ->. done.
    + intros retval d message -> -> Hm. cbn [fst snd].
      assert (Hs : subscript_message (PyDict d) = inl message) by (cbn; by rewrite Hm).
      rewrite Hs. split; [done|]. split; [done|].
      destruct (subscript_message_inl _ _ Hs) as (? & ? & _). done.
Qed.

Lemma one_terminal_event_per_completion_witness :
  finished_events (TefResource_post sale_without_printer).2
  = [("S1", TEF_OPERATION_FINISHED (PyBool false)
              (PyStr "Erro comunicando com a impressora"))].
Proof.
  exact (proj2 (proj1 (one_terminal_event_per_completion sale_without_printer eq_refl)
                  (Fault InvalidReplyException)
                  (ensure_printer (under_lock (printer sale_without_printer)) 20).2
                  eq_refl)).
Defined.

(** Whatever the request, a terminal event is put exactly when [post]
    returns, and then once: a request that raises or that waits for a reply
    has put none. *)
Lemma terminal_event_iff_responded r :
  length (finished_events (TefResource_post r).2)
  = match (TefResource_post r).1 with Responded => 1 | _ => 0 end.
Proof.
  destruct (till_ok r) eqn:Ht.
  - destruct (ensure_printer (under_lock (printer r)) 20) as [[reading|e] acts] eqn:Hp.
    + destruct (finished_events_post_dispatch r reading acts Ht Hp) as [-> ->].
      unfold dispatch.
      destruct (Nat.eqb (receivers r) 1); cbn [negb]; [|done].
      destruct (body r) as [[| | | | |data0]|]; try done.
      cbv zeta.
      destruct (assoc_get "station" (assoc_remove "origin" data0)); [done|].
      pose proof (finished_events_run_plugin (station r) (has_printer r)
                    (driver r (assoc_remove "origin" data0)) (answers r)) as Hn.
      destruct (run_plugin _ _ _ _) as [x tr]. cbn [snd] in Hn.
      destruct x as [retval|args|]; [destruct (subscript_message retval)| |];
        cbn [fst snd];
        rewrite ?finished_events_app, (finished_events_cons (Send _ _ _)), Hn; done.
    + destruct (finished_events_post_short_circuit r e acts Ht Hp) as [-> ->]. done.
  - unfold TefResource_post, lock_pinpad, post_body. unfold till_ok in Ht.
    destruct (in_list _ _), (till_missing _); try discriminate. done.
Qed.

(** ** From the calls of a request to the queues *)

Lemma puts_cons c tr : puts (c :: tr) = puts [c] ++ puts tr.
Proof. apply (puts_app [c] tr). Qed.

Lemma puts_printer acts : puts (map Printer acts) = [].
Proof. induction acts as [|a acts IH]; [done|]. cbn. exact IH. Qed.

Lemma puts_print_callback hp h m : puts (print_callback hp h m) = [].
Proof. unfold print_callback. by destruct hp, (truthy m), (truthy h). Qed.

(** The callbacks put to the station of the request only. *)
Lemma puts_run_plugin st hp p : forall answers,
  Forall (fun e => e.1 = st) (puts (run_plugin st hp p answers).2).
Proof.
  induction p as [v|args|m a k IH|q k IH|h m k IH]; intros answers;
    cbn [run_plugin]; try by constructor.
  - specialize (IH answers). destruct (run_plugin st hp k answers). cbn [snd] in *.
    rewrite puts_cons. cbn. by constructor.
  - destruct answers as [|v rest]; [by repeat constructor|].
    specialize (IH v rest). destruct (run_plugin st hp (k v) rest). cbn [snd] in *.
    rewrite puts_cons. cbn. by constructor.
  - specialize (IH answers). destruct (run_plugin st hp k answers). cbn [snd] in *.
    by rewrite puts_app, puts_print_callback.
Qed.

Lemma puts_dispatch r : Forall (fun e => e.1 = station r) (puts (dispatch r).2).
Proof.
  unfold dispatch.
  destruct (Nat.eqb (receivers r) 1); cbn [negb]; [|by constructor].
  destruct (body r) as [[| | | | |data0]|]; try by constructor.
  cbv zeta. destruct (assoc_get "station" (assoc_remove "origin" data0)).
  { by repeat constructor. }
  pose proof (puts_run_plugin (station r) (has_printer r)
                (driver r (assoc_remove "origin" data0)) (answers r)) as Hp.
  destruct (run_plugin _ _ _ _) as [x tr]. cbn [snd] in Hp.
  destruct x as [retval|args|]; [destruct (subscript_message retval)| |]; cbn [snd];
    rewrite ?puts_app, (puts_cons (Send _ _ _)); cbn [puts omap app];
    repeat (apply Forall_app; split); try exact Hp; by repeat constructor.
Qed.

Lemma puts_post r : Forall (fun e => e.1 = station r) (puts (TefResource_post r).2).
Proof.
  assert (Hb : Forall (fun e => e.1 = station r) (puts (post_body r).2)).
  { unfold post_body.
    destruct (negb (in_list (signal_name r) no_till_required) && till_missing (till r));
      [by constructor|].
    destruct (ensure_printer (under_lock (printer r)) 20) as [[reading|e] acts].
    - pose proof (puts_dispatch r) as Hd. destruct (dispatch r) as [x tr]. cbn [snd] in *.
      rewrite !puts_app, puts_printer. cbn [puts omap app]. exact Hd.
    - cbn [snd]. rewrite !puts_app, puts_printer. cbn [puts omap app].
      by repeat constructor. }
  unfold TefResource_post, lock_pinpad. destruct (post_body r) as [x tr]. cbn [snd] in Hb.
  destruct x; cbn [snd]; rewrite puts_cons, ?puts_app; cbn [puts omap app];
    rewrite ?app_nil_r; exact Hb.
Qed.

(** Replaying puts on a state where somebody has subscribed and the station
    has a queue: none of them suspends, and the queue grows by the events
    put to that station, in order. *)
Lemma apply_puts_queue st ps : forall s stream,
  has_stream s = true -> streams s !! st = Some stream ->
  exists s', apply_puts ps s = Some s' /\ has_stream s' = true /\
             streams s' !! st = Some (stream ++ sent_to st ps).
Proof.
  induction ps as [|[st' e] ps IH]; intros s stream Hf Hq.
  - exists s. by rewrite app_nil_r.
  - cbn [apply_puts]. unfold EventStream_put. rewrite Hf. cbn [mbind option_bind].
    destruct (deliver_flag st' e s) as (Hf' & _). rewrite Hf in Hf'.
    unfold sent_to. cbn [List.filter fst snd].
    destruct (String.eqb st' st) eqn:E.
    + apply String.eqb_eq in E. subst st'.
      destruct (IH (deliver st e s) (stream ++ [e]) Hf') as (s' & Ha & Hs & Hl).
      { unfold deliver. rewrite Hq. cbn. by rewrite lookup_insert_eq. }
      exists s'. cbn. by rewrite Ha, Hl, <- app_assoc.
    + apply String.eqb_neq in E.
      destruct (IH (deliver st' e s) stream Hf') as (s' & Ha & Hs & Hl).
      { unfold deliver. destruct (streams s !! st'); [|done]. cbn.
        by rewrite lookup_insert_ne. }
      exists s'. by rewrite Ha, Hl.
Qed.

Lemma sent_to_own st ps : Forall (fun e => e.1 = st) ps -> sent_to st ps = ps.*2.
Proof.
  induction 1 as [|[st' e] ps Hst _ IH]; [done|]. cbn in Hst. subst st'.
  unfold sent_to in *. cbn [List.filter fst]. rewrite String.eqb_refl, !fmap_cons.
  by rewrite IH.
Qed.

(** A request that returns, made while its station listens: the queue of
    the station has grown by what the request put, and exactly one of these
    events is terminal. *)
Lemma terminal_event_reaches_queue r s stream :
  has_stream s = true -> streams s !! station r = Some stream ->
  (TefResource_post r).1 = Responded ->
  exists s', apply_puts (puts (TefResource_post r).2) s = Some s' /\
    streams s' !! station r = Some (stream ++ (puts (TefResource_post r).2).*2) /\
    length (List.filter is_finished (puts (TefResource_post r).2).*2) = 1.
Proof.
  intros Hf Hq Hx.
  destruct (apply_puts_queue (station r) (puts (TefResource_post r).2) s stream Hf Hq)
    as (s' & Ha & _ & Hl).
  exists s'. split; [done|]. rewrite Hl, (sent_to_own _ _ (puts_post r)). split; [done|].
  pose proof (terminal_event_iff_responded r) as Hn. rewrite Hx in Hn.
  rewrite <- Hn. unfold finished_events.
  generalize (puts (TefResource_post r).2). intros ps.
  induction ps as [|[st e] ps IH]; [done|]. cbn. destruct (is_finished e); cbn; by rewrite IH.
Qed.

(** ** The drawer poller *)

Lemma differs_false is_open new_is_open :
  differs is_open new_is_open = false -> is_open = Seen new_is_open.
Proof.
  destruct is_open as [|old]; cbn; [done|].
  intros H. apply negb_false_iff, bool_decide_eq_true in H. by subst.
Qed.

Lemma drawer_alerts_app tr1 tr2 :
  drawer_alerts (tr1 ++ tr2) = drawer_alerts tr1 ++ drawer_alerts tr2.
Proof. unfold drawer_alerts. by rewrite puts_app, fmap_app, List.filter_app. Qed.

Lemma printer_statuses_app tr1 tr2 :
  printer_statuses (tr1 ++ tr2) = printer_statuses tr1 ++ printer_statuses tr2.
Proof. unfold printer_statuses. by rewrite puts_app, fmap_app, List.filter_app. Qed.

(** What one round puts. *)
Lemma poll_events station is_open new_is_open :
  drawer_alerts (poll station is_open new_is_open).2
    = (if differs is_open new_is_open then [drawer_message new_is_open] else []) /\
  printer_statuses (poll station is_open new_is_open).2
    = (if differs is_open new_is_open
       then [DEVICE_STATUS_CHANGED "printer" (status_printer new_is_open)] else []) /\
  (poll station is_open new_is_open).1 = Seen new_is_open.
Proof.
  unfold poll. destruct (differs is_open new_is_open) eqn:E.
  - by destruct new_is_open as [[]|].
  - by rewrite (differs_false _ _ E).
Qed.

Lemma drawer_rounds_events station readings : forall is_open,
  length (drawer_alerts (drawer_rounds station is_open readings)) = flips is_open readings /\
  length (printer_statuses (drawer_rounds station is_open readings)) = flips is_open readings.
Proof.
  induction readings as [|new_is_open rest IH]; intros is_open; [done|].
  cbn [drawer_rounds flips].
  destruct (poll_events station is_open new_is_open) as (Ha & Hs & Hn).
  destruct (poll station is_open new_is_open) as [is_open' tr]. cbn [fst snd] in *. subst.
  rewrite drawer_alerts_app, printer_statuses_app, !length_app, Ha, Hs.
  destruct (IH (Seen new_is_open)) as [-> ->].
  by destruct (differs is_open new_is_open).
Qed.

(** Past the first position, a position of [p :: l] is a change exactly
    when the position before it is one of [l]. *)
Lemma is_change_shift p (l : list (option bool)) i :
  is_change (p :: l) (S (S i)) = is_change l (S i).
Proof. done. Qed.

Lemma changes_shift p (l : list (option bool)) (js : list nat) :
  Forall (fun j => 1 <= j) js ->
  length (List.filter (is_change (p :: l)) (map S js))
  = length (List.filter (is_change l) js).
Proof.
  induction 1 as [|j js Hj _ IH]; [done|].
  destruct j as [|j]; [lia|]. cbn [map List.filter].
  rewrite is_change_shift.
  destruct (is_change l (S j)); cbn [length]; by rewrite IH.
Qed.

Lemma changes_tail p (l : list (option bool)) :
  length (List.filter (is_change (p :: l)) (seq 1 (length l))) = flips (Seen p) l.
Proof.
  revert p. induction l as [|x r IH]; intros p; [done|].
  cbn [length seq List.filter flips].
  assert (H1 : is_change (p :: x :: r) 1 = differs (Seen p) x).
  { cbn. f_equal. apply bool_decide_ext. split; congruence. }
  assert (Hrest : length (List.filter (is_change (p :: x :: r)) (seq 2 (length r)))
                  = flips (Seen x) r).
  { rewrite <- IH, <- (seq_shift (length r) 1). apply changes_shift.
    apply Forall_forall. intros j Hj. apply list_elem_of_In, in_seq in Hj. lia. }
  rewrite H1. destruct (differs (Seen p) x); cbn [length]; rewrite Hrest; done.
Qed.

Lemma changes_flips readings : changes readings = flips Unset readings.
Proof.
  unfold changes. destruct readings as [|x r]; [done|].
  cbn [length seq List.filter is_change flips differs]. cbn [length].
  by rewrite changes_tail.
Qed.

(** C8: over any finite sequence of results of the drawer check, the
    poller puts as many drawer open/close/error events as the sequence has
    changes, the first result counting as one; for the results true, true,
    false, null, null it puts three: open, close, error. *)
Theorem drawer_alerts_count_changes (station : string) (readings : list (option bool)) :
  length (drawer_alerts (check_drawer_loop station readings)) = changes readings /\
  drawer_alerts
    (check_drawer_loop station [Some true; Some true; Some false; None; None])
  = [DRAWER_ALERT_OPEN; DRAWER_ALERT_CLOSE; DRAWER_ALERT_ERROR].
Proof.
  split; [|done]. unfold check_drawer_loop.
  rewrite changes_flips. apply drawer_rounds_events.
Qed.

(** C9, as stated, fails: after an open drawer, a closed drawer makes the
    poller put a printer status event although neither reading is a fault;
    both events of the two rounds carry the same status. *)
Lemma printer_status_without_fault_flip :
  is_fault (Some true) = is_fault (Some false) /\
  printer_statuses (poll "S1" (Seen (Some true)) (Some false)).2
    = [DEVICE_STATUS_CHANGED "printer" (PyBool true)] /\
  printer_statuses (check_drawer_loop "S1" [Some true; Some false])
    = [DEVICE_STATUS_CHANGED "printer" (PyBool true);
       DEVICE_STATUS_CHANGED "printer" (PyBool true)].
Proof. repeat split. Qed.

(** C9, amended: a round of the poller puts a printer status event exactly
    when it puts a drawer event, that is whenever the reading is not the
    last one seen, a change between open and closed included; the status is
    null when the probe failed and true otherwise.  Over a sequence of
    readings there are as many of them as there are changes. *)
Theorem printer_status_follows_drawer_alert
    (station : string) (is_open : last_seen) (new_is_open : option bool)
    (readings : list (option bool)) :
  (printer_statuses (poll station is_open new_is_open).2
     = if differs is_open new_is_open
       then [DEVICE_STATUS_CHANGED "printer" (status_printer new_is_open)] else []) /\
  length (printer_statuses (poll station is_open new_is_open).2)
    = length (drawer_alerts (poll station is_open new_is_open).2) /\
  (status_printer new_is_open = PyNone <-> is_fault new_is_open = true) /\
  (is_fault new_is_open = false -> status_printer new_is_open = PyBool true) /\
  length (printer_statuses (check_drawer_loop station readings)) = changes readings.
Proof.
  destruct (poll_events station is_open new_is_open) as (Ha & Hs & _).
  rewrite Ha, Hs. split; [done|]. split; [by destruct (differs _ _)|].
  split; [by destruct new_is_open|]. split; [by destruct new_is_open|].
  unfold check_drawer_loop. rewrite changes_flips. apply drawer_rounds_events.
Qed.

(** Under the lock, [ensure_printer] raises nothing but printer faults. *)
Lemma ensure_printer_raises_faults env retries e :
  locked env = true ->
  (ensure_printer env retries).1 = Raised e -> exists f, e = Fault f.
Proof.
  intros Hl. unfold ensure_printer. rewrite Hl. cbn [negb].
  assert (Hrec : forall f0 bound,
            (recover env retries f0 bound).1 = Raised e -> exists f, e = Fault f).
  { intros f0 bound. unfold recover.
    destruct (reopen_loop (dev env) 1 retries) as [[n| |f] tr]; cbn [fst].
    - unfold probe. destruct (dev env n); intros [= <-]; eauto.
    - intros [= <-]; eauto.
    - intros [= <-]; eauto. }
  destruct (configured env); cbn [negb]; [|discriminate].
  destruct (dev env 0) as [f|f|b]; [apply Hrec|apply Hrec|discriminate].
Qed.

(** The readings themselves: [check_drawer] always returns, with null on
    either fault. *)
Lemma check_drawer_total env : exists reading, check_drawer env = Returned reading.
Proof.
  unfold check_drawer.
  destruct (ensure_printer (under_lock env) 1).1 as [reading|e] eqn:E; [eauto|].
  destruct (ensure_printer_raises_faults (under_lock env) 1 e eq_refl E) as [f ->]. eauto.
Qed.

(** The worker never ends on an exception: its rounds are those of the loop
    over what [check_drawer] read. *)
Lemma drawer_worker_rounds station rounds : forall is_open,
  drawer_worker station is_open rounds
  = drawer_rounds station is_open (map reading rounds).
Proof.
  induction rounds as [|env rest IH]; intros is_open; [done|].
  cbn [drawer_worker drawer_rounds map]. unfold reading at 1.
  destruct (check_drawer_total env) as [r ->].
  destruct (poll station is_open r) as [is_open' tr]. by rewrite IH.
Qed.

(** ** The question/reply protocol *)

Lemma count_cons f o h : count f (o :: h) = (if f o then 1 else 0) + count f h.
Proof. unfold count. cbn. by destruct (f o). Qed.

Lemma protocol_inv_start : protocol_inv start.
Proof. split; cbn; auto. Qed.

Lemma EventStream_put_all_flag data s s' :
  EventStream_put_all data s = Some s' ->
  waiting_reply s' = waiting_reply s /\ reply s' = reply s.
Proof. unfold EventStream_put_all. destruct (has_stream s); [|done]. by intros [= <-]. Qed.

(** A move that touches the queues of the stations only. *)
Lemma protocol_inv_streams p s :
  protocol_inv p ->
  waiting_reply s = waiting_reply (srv p) -> reply s = reply (srv p) ->
  protocol_inv {| srv := s; pinpad := pinpad p; asking := asking p; history := history p |}.
Proof. intros [] Hw Hr. split; cbn; rewrite ?Hw, ?Hr; done. Qed.

(** The two ways a reply post ends. *)
Lemma TefReplyResource_post_cases json_loads body s :
  (exists v, waiting_reply s = true /\
     TefReplyResource_post json_loads body s = (Returned tt, set_reply (reply s ++ [v]) s)) \/
  (exists e, TefReplyResource_post json_loads body s = (Raised e, s)).
Proof.
  unfold TefReplyResource_post. destruct (waiting_reply s) eqn:E; cbn [negb]; [|eauto].
  destruct body as [[| | | | |data]|]; eauto.
  destruct (assoc_get "value" data) as [[| | |text| |]|]; eauto.
  destruct (json_loads text); eauto.
Qed.

(** The task that holds the lock and is not asking: nobody is asking. *)
Lemma nobody_asking p t :
  protocol_inv p -> holds t p && negb (is_asking t p) = true -> asking p = [].
Proof.
  intros [[E|(t' & E & Hp)] _ _ _ _ _]; [done|].
  unfold holds, is_asking. rewrite E, Hp. intros H.
  apply andb_true_iff in H as [H1 H2].
  apply bool_decide_eq_true in H1. injection H1 as ->.
  apply negb_true_iff, bool_decide_eq_false in H2. exfalso. apply H2. by left.
Qed.

Lemma the_one_asking p t :
  protocol_inv p -> is_asking t p = true -> asking p = [t].
Proof.
  intros [[E|(t' & E & Hp)] _ _ _ _ _]; unfold is_asking; rewrite E.
  - intros H. apply bool_decide_eq_true in H. by apply elem_of_nil in H.
  - intros H. apply bool_decide_eq_true, list_elem_of_singleton in H. by subst.
Qed.

Ltac inv_field :=
  cbn [srv asking history pinpad reply waiting_reply set_waiting_reply set_reply
       gated answers_follow_questions];
  rewrite ?count_cons;
  cbn [is_published is_delivered is_accepted length];
  rewrite ?length_app; cbn [length];
  repeat (apply andb_true_iff; split);
  first [ assumption
        | reflexivity
        | apply Nat.leb_le; cbn in *; lia
        | apply Nat.ltb_lt; cbn in *; lia
        | cbn in *; lia
        | cbn in *; congruence
        | eauto ].

Lemma protocol_inv_step json_loads m p p' :
  protocol_inv p -> step json_loads m p = Some p' -> protocol_inv p'.
Proof.
  intros Hinv.
  destruct m as [st pending|st data|data|t|t st q|t|t|body]; cbn [step].
  - destruct (EventStream_get_flag st pending (srv p)) as (s' & -> & _ & Hw & Hr).
    cbn. intros [= <-]. by apply protocol_inv_streams.
  - destruct (EventStream_put st data (srv p)) as [s'|] eqn:E; [|done].
    apply EventStream_put_flag in E as (_ & _ & Hw & Hr).
    cbn. intros [= <-]. by apply protocol_inv_streams.
  - destruct (EventStream_put_all data (srv p)) as [s'|] eqn:E; [|done].
    apply EventStream_put_all_flag in E as (Hw & Hr).
    cbn. intros [= <-]. by apply protocol_inv_streams.
  - destruct (pinpad p) eqn:Hp; [done|]. cbn. intros [= <-].
    destruct Hinv as [[E|(t' & E & Hp')] ? ? ? ? ?]; [|congruence].
    split; inv_field.
  - destruct (holds t p && negb (is_asking t p)) eqn:Hh; [|done].
    pose proof (nobody_asking p t Hinv Hh) as Hnone.
    apply andb_true_iff in Hh as [Hh _]. apply bool_decide_eq_true in Hh.
    unfold question_callback.
    destruct (EventStream_put st (TEF_ASK_QUESTION q) (srv p)) as [s'|] eqn:E; [|done].
    apply EventStream_put_flag in E as (_ & _ & Hw & Hr).
    destruct Hinv as [_ Hf Hpub Hacc Hg Ha]. rewrite Hnone in *.
    cbn [mbind option_bind set_waiting_reply reply]. rewrite Hr.
    destruct (reply (srv p)) as [|v rest] eqn:Hq; cbn [fst snd]; intros [= <-].
    + split; cbn [srv reply set_waiting_reply]; rewrite ?Hnone, ?Hr; inv_field.
    + split; cbn [srv reply set_waiting_reply]; rewrite ?Hnone, ?Hr; inv_field.
  - destruct (is_asking t p) eqn:Hh; [|done].
    pose proof (the_one_asking p t Hinv Hh) as Hone.
    unfold question_resume.
    destruct (reply (srv p)) as [|v rest] eqn:Hq; [done|].
    destruct Hinv as [_ Hf Hpub Hacc Hg Ha]. rewrite Hone, ?Hq in *.
    assert (Hw : without t [t] = []).
    { unfold without. cbn. by rewrite Nat.eqb_refl. }
    cbn [mbind option_bind fst snd]. rewrite Hw. intros [= <-].
    split; inv_field.
  - destruct (holds t p && negb (is_asking t p)) eqn:Hh; [|done].
    pose proof (nobody_asking p t Hinv Hh) as Hnone. intros [= <-].
    destruct Hinv. split; cbn [asking]; rewrite ?Hnone in *; inv_field.
  - intros [= <-]. destruct Hinv as [Hask Hf Hpub Hacc Hg Ha].
    destruct (TefReplyResource_post_cases json_loads body (srv p))
      as [(v & Hw & ->)|(e & ->)]; cbn [fst snd].
    + rewrite Hw in Hf. destruct (asking p) as [|t0 others] eqn:Easking; [discriminate|].
      split; cbn [asking]; rewrite ?Easking; inv_field.
    + split; inv_field.
Qed.

Lemma protocol_inv_run json_loads ms : forall p p',
  protocol_inv p -> run json_loads ms p = Some p' -> protocol_inv p'.
Proof.
  induction ms as [|m ms IH]; intros p p' Hinv; cbn.
  - by intros [= <-].
  - destruct (step json_loads m p) as [p1|] eqn:E; [|done]. cbn.
    apply IH. by apply (protocol_inv_step json_loads m p).
Qed.

(** C3, as stated, fails: the reply queue is not bounded.  Two replies
    whose values [json.loads] reads, [1] and [2], posted while the flag is
    set, before the asking task runs again, both wait in the queue; the
    second is then handed to the next question at the moment that question
    is published, having been accepted before it. *)
Lemma reply_queue_holds_two :
  (exists p, run json_numeral double_reply start = Some p /\
             waiting_reply (srv p) = true /\
             reply (srv p) = [PyInt 1; PyInt 2]) /\
  (exists p, run json_numeral second_question start = Some p /\
             history p = [Delivered 1 (PyInt 2); Published 1 (PyStr "Meses?");
                          Delivered 1 (PyInt 1); Accepted; Accepted;
                          Published 1 (PyStr "Parcelas?")]).
Proof. split; eexists; (split; [vm_compute; reflexivity|]); done. Qed.

(** A value that is no JSON is refused by the parser: neither post queues
    anything. *)
Lemma replies_without_json_are_refused :
  exists p, run json_numeral double_reply_no_json start = Some p /\
            reply (srv p) = [] /\
            history p = [Refused; Refused; Published 1 (PyStr "Confirma?")].
Proof. eexists. split; [vm_compute; reflexivity|]. done. Qed.

(** C3, amended: in every state the process reaches, at most one task is
    waiting for a reply, and the waiting flag is set exactly then; every
    reply was accepted while a question was published and unanswered, and
    no answer was ever handed over before its question was published.  The
    reply queue has no bound of its own: it holds at most one value as long
    as no more replies have been accepted than questions published. *)
Theorem tef_reply_protocol
    (json_loads : string -> result pyval) (ms : list move) (p : process) :
  run json_loads ms start = Some p ->
  length (asking p) <= 1 /\
  (waiting_reply (srv p) = true <-> asking p <> []) /\
  gated (history p) = true /\
  answers_follow_questions (history p) = true /\
  (one_reply_per_question (history p) = true -> length (reply (srv p)) <= 1).
Proof.
  intros Hr.
  destruct (protocol_inv_run json_loads ms start p protocol_inv_start Hr)
    as [Hask Hf Hpub Hacc Hg Ha].
  assert (Hlen : length (asking p) <= 1).
  { destruct Hask as [->|(t & -> & _)]; cbn; lia. }
  split; [done|]. split; [|split; [done|split; [done|]]].
  - rewrite Hf. destruct (asking p); cbn; split; congruence.
  - intros Hone. destruct (history p) as [|o h] eqn:Eh.
    + cbn in Hacc. lia.
    + cbn [one_reply_per_question] in Hone.
      apply andb_true_iff in Hone as [Hone _]. apply Nat.leb_le in Hone. lia.
Qed.

Lemma tef_reply_protocol_witness :
  exists p, run json_numeral single_reply start = Some p /\
            length (asking p) <= 1 /\ length (reply (srv p)) <= 1.
Proof.
  eexists. split; [vm_compute; reflexivity|].
  match goal with
  | |- length (asking ?p) <= 1 /\ _ =>
      pose proof (tef_reply_protocol json_numeral single_reply p eq_refl)
        as (H1 & _ & _ & _ & H5)
  end.
  split; [exact H1 | exact (H5 eq_refl)].
Defined.

(** While nobody is asking a reply post is refused. *)
Lemma reply_refused_when_nobody_asks json_loads ms p body :
  run json_loads ms start = Some p -> asking p = [] ->
  TefReplyResource_post json_loads body (srv p) = (Raised AssertionError, srv p).
Proof.
  intros Hr Hnone.
  destruct (protocol_inv_run json_loads ms start p protocol_inv_start Hr) as [_ Hf _ _ _ _].
  rewrite Hnone in Hf. unfold TefReplyResource_post. by rewrite Hf.
Qed.

(** * Further properties *)

(** ** The printer check, for any number of retries *)

Lemma filter_failed_rounds f k :
  f LogReopening = false -> f (Sleep 1) = false -> List.filter f (failed_rounds k) = [].
Proof. intros H1 H2. induction k as [|k IH]; [done|]. cbn. by rewrite H1, H2. Qed.

Lemma reopen_loop_reopens d k r n :
  (forall i, i < k -> serial_failure (d (n + i)) = true) ->
  raised_fault (d (n + k)) = None ->
  reopen_loop d n (k + S r) = (Reopened (S (n + k)), failed_rounds k ++ [LogReopening]).
Proof.
  intros Hs Hok. rewrite (reopen_loop_serial d k n (S r) Hs).
  cbn [reopen_loop]. by rewrite Hok.
Qed.

(** X1: under the lock, when the first probe faults, the first [k] reopen
    attempts fail on the serial line and attempt [k+1] (within the retries)
    succeeds, the call ends as one further probe does, after exactly [k]
    sleeps of one second, and the plug-ins are re-pointed: the SAT one is
    reset and the non-fiscal one is given the printer, each when it has a
    user interface. *)
Theorem ensure_printer_recovers (env : printer_env) (retries k : nat) (f0 : fault) :
  locked env = true -> configured env = true ->
  raised_fault (dev env 0) = Some f0 ->
  k < retries ->
  (forall i, i < k -> serial_failure (dev env (1 + i)) = true) ->
  raised_fault (dev env (1 + k)) = None ->
  (ensure_printer env retries).1 = probe (dev env) (2 + k) /\
  sleeps (ensure_printer env retries).2 = replicate k (Sleep 1) /\
  List.filter is_invalidation (ensure_printer env retries).2
    = (if sat_ui env then [ResetSatPrinter] else []) ++
      (if nonfiscal_ui env then [SetNonfiscalPrinter] else []).
Proof.
  intros Hl Hc H0 Hk Hs Hok.
  destruct (ensure_printer_enters_recovery env retries f0 Hl Hc H0) as [bound ->].
  unfold recover. replace retries with (k + S (retries - S k)) by lia.
  rewrite (reopen_loop_reopens (dev env) k _ 1 Hs Hok). cbn [fst snd].
  split; [done|]. split.
  - rewrite !sleeps_app, sleeps_failed_rounds.
    destruct bound, (sat_ui env), (nonfiscal_ui env); cbn; rewrite ?app_nil_r; done.
  - rewrite !List.filter_app, filter_failed_rounds by done.
    destruct bound, (sat_ui env), (nonfiscal_ui env); done.
Qed.

Lemma ensure_printer_recovers_witness :
  (ensure_printer closes_after_recovery 20).1 = Returned (Some false) /\
  sleeps (ensure_printer closes_after_recovery 20).2 = [Sleep 1; Sleep 1].
Proof.
  assert (Hs : forall i, i < 2 ->
            serial_failure (dev closes_after_recovery (1 + i)) = true).
  { intros [|[|i]] Hi; [reflexivity|reflexivity|lia]. }
  pose proof (ensure_printer_recovers closes_after_recovery 20 2 SerialException
                eq_refl eq_refl eq_refl ltac:(lia) Hs eq_refl) as (H1 & H2 & _).
  split; [exact H1 | exact H2].
Defined.

Lemma reopen_loop_bounds d remaining : forall n x tr,
  reopen_loop d n remaining = (x, tr) ->
  length (sleeps tr) <= remaining /\
  length (List.filter is_reopening tr) <= remaining /\
  length (sleeps tr) <= length (List.filter is_reopening tr) /\
  Forall (fun a => a = Sleep 1) (sleeps tr) /\
  List.filter is_invalidation tr = [] /\ List.filter is_close tr = [] /\
  match x with
  | Reopened next =>
      next = n + length (List.filter is_reopening tr) /\ 1 <= length (List.filter is_reopening tr) /\
      raised_fault (d (next - 1)) = None /\
      length (sleeps tr) + 1 = length (List.filter is_reopening tr) /\
      (forall i, n <= i < next - 1 -> serial_failure (d i) = true)
  | Exhausted => length (sleeps tr) = remaining
  | Escaped f => f = InvalidReplyException
  end.
Proof.
  induction remaining as [|r IH]; intros n x tr; cbn [reopen_loop].
  - intros [= <- <-]. cbn. repeat split; auto.
  - destruct (raised_fault (d n)) as [[]|] eqn:E.
    + destruct (reopen_loop d (S n) r) as [x' tr'] eqn:Er. intros [= <- <-].
      destruct (IH _ _ _ Er) as (H1 & H2 & H3 & H4 & H5 & H6 & H7).
      cbn. unfold sleeps in *. cbn. repeat split; try lia; auto.
      destruct x' as [next| |f]; [|lia|done].
      destruct H7 as (-> & ? & ? & ? & Hall). repeat split; try lia.
      * replace (n + S (length (List.filter is_reopening tr')) - 1)
          with (S n + length (List.filter is_reopening tr') - 1) by lia. done.
      * intros i Hi. destruct (decide (i = n)) as [->|].
        -- unfold serial_failure. by rewrite E.
        -- apply Hall. lia.
    + intros [= <- <-]. cbn. repeat split; auto; lia.
    + intros [= <- <-]. cbn. repeat split; auto; try lia.
      by rewrite Nat.sub_0_r.
Qed.

(** X2: whatever the printer does, a call sleeps at most [retries] times,
    one second each, makes at most [retries] reopen attempts, and never
    sleeps more often than it has attempted. *)
Theorem ensure_printer_bounded (env : printer_env) (retries : nat) :
  length (sleeps (ensure_printer env retries).2) <= retries /\
  length (List.filter is_reopening (ensure_printer env retries).2) <= retries /\
  length (sleeps (ensure_printer env retries).2)
    <= length (List.filter is_reopening (ensure_printer env retries).2) /\
  Forall (fun a => a = Sleep 1) (sleeps (ensure_printer env retries).2).
Proof.
  assert (Hrec : forall f0 bound,
    length (sleeps (recover env retries f0 bound).2) <= retries /\
    length (List.filter is_reopening (recover env retries f0 bound).2) <= retries /\
    length (sleeps (recover env retries f0 bound).2)
      <= length (List.filter is_reopening (recover env retries f0 bound).2) /\
    Forall (fun a => a = Sleep 1) (sleeps (recover env retries f0 bound).2)).
  { intros f0 bound. unfold recover.
    destruct (reopen_loop (dev env) 1 retries) as [x tr] eqn:E.
    destruct (reopen_loop_bounds _ _ _ _ _ E) as (H1 & H2 & H3 & H4 & _).
    assert (Hpre : forall rest,
      sleeps (((if bound then [ClosePort] else []) ++ [DropHandle]) ++ rest) = sleeps rest /\
      List.filter is_reopening
        (((if bound then [ClosePort] else []) ++ [DropHandle]) ++ rest)
      = List.filter is_reopening rest).
    { intros rest. by destruct bound. }
    assert (Hinv : sleeps ((if sat_ui env then [ResetSatPrinter] else []) ++
                           (if nonfiscal_ui env then [SetNonfiscalPrinter] else [])) = [] /\
                   List.filter is_reopening
                     ((if sat_ui env then [ResetSatPrinter] else []) ++
                      (if nonfiscal_ui env then [SetNonfiscalPrinter] else [])) = []).
    { by destruct (sat_ui env), (nonfiscal_ui env). }
    destruct x; cbn [snd]; destruct (Hpre tr) as [Ha Hb];
      try (rewrite Ha, Hb; done).
    destruct (Hpre (tr ++ (if sat_ui env then [ResetSatPrinter] else []) ++
                          (if nonfiscal_ui env then [SetNonfiscalPrinter] else [])))
      as [-> ->].
    destruct Hinv as [Hi1 Hi2].
    rewrite sleeps_app, List.filter_app, Hi1, Hi2, !app_nil_r. done. }
  unfold ensure_printer.
  destruct (locked env); cbn [negb]; [|cbn; repeat split; auto; lia].
  destruct (configured env); cbn [negb]; [|cbn; repeat split; auto; lia].
  destruct (dev env 0); [apply Hrec|apply Hrec|cbn; repeat split; auto; lia].
Qed.

(** X3: the plug-ins are re-pointed only after a reopen attempt has
    succeeded: when the trace of a call holds one of the two writes, some
    attempt within the retries got a reading, every attempt before it failed
    on the serial line, and the call ends as the probe after that attempt. *)
Theorem invalidation_only_after_reopen (env : printer_env) (retries : nat) :
  List.filter is_invalidation (ensure_printer env retries).2 <> [] ->
  is_Some (raised_fault (dev env 0)) /\
  exists n, 1 <= n <= retries /\
    raised_fault (dev env n) = None /\
    (forall i, 1 <= i < n -> serial_failure (dev env i) = true) /\
    (ensure_printer env retries).1 = probe (dev env) (S n).
Proof.
  assert (Hrec : forall f0 bound,
    List.filter is_invalidation (recover env retries f0 bound).2 <> [] ->
    exists n, 1 <= n <= retries /\
      raised_fault (dev env n) = None /\
      (forall i, 1 <= i < n -> serial_failure (dev env i) = true) /\
      (recover env retries f0 bound).1 = probe (dev env) (S n)).
  { intros f0 bound. unfold recover.
    destruct (reopen_loop (dev env) 1 retries) as [x tr] eqn:E.
    destruct (reopen_loop_bounds _ _ _ _ _ E) as (H1 & H2 & H3 & H4 & H5 & H6 & H7).
    destruct x as [next| |f]; cbn [fst snd]; rewrite !List.filter_app, ?H5.
    - intros _. destruct H7 as (-> & Hge & Hok & _ & Hall).
      exists (length (List.filter is_reopening tr)).
      replace (1 + length (List.filter is_reopening tr) - 1)
        with (length (List.filter is_reopening tr)) in * by lia.
      repeat split; try lia; auto.
    - destruct bound; cbn; congruence.
    - destruct bound; cbn; congruence. }
  unfold ensure_printer.
  destruct (locked env); cbn [negb]; [|cbn; congruence].
  destruct (configured env); cbn [negb]; [|cbn; congruence].
  destruct (dev env 0) as [f|f|b] eqn:E0; cbn [raised_fault];
    [| |cbn; congruence]; intros H; (split; [eauto|]); by apply Hrec in H.
Qed.

Lemma invalidation_only_after_reopen_witness :
  exists n, 1 <= n <= 20 /\ raised_fault (dev closes_after_recovery n) = None.
Proof.
  destruct (invalidation_only_after_reopen closes_after_recovery 20)
    as (_ & n & Hn & Hok & _).
  - discriminate.
  - exists n. split; [exact Hn | exact Hok].
Defined.

(** ** The drawer poller, further *)

Lemma check_drawer_unconfigured env :
  configured env = false -> check_drawer env = Returned None.
Proof.
  intros Hc. unfold check_drawer.
  by rewrite (ensure_printer_unconfigured (under_lock env) 1 eq_refl Hc).
Qed.

Lemma drawer_rounds_repeat station r n :
  drawer_alerts (drawer_rounds station (Seen r) (replicate n r)) = [] /\
  printer_statuses (drawer_rounds station (Seen r) (replicate n r)) = [].
Proof.
  induction n as [|n IH]; [done|]. cbn [replicate drawer_rounds].
  unfold poll. cbn [differs]. rewrite bool_decide_eq_true_2 by done. cbn [negb].
  rewrite drawer_alerts_app, printer_statuses_app. by destruct IH as [-> ->].
Qed.

(** X4: a station with no printer configured is reported like a broken
    one: [check_drawer] gives null there, so however many rounds the poller
    runs it puts one drawer error and one printer status of null, at the
    first round. *)
Theorem unconfigured_station_reports_error (station : string) (rounds : list printer_env) :
  rounds <> [] ->
  Forall (fun env => configured env = false) rounds ->
  drawer_alerts (drawer_worker station Unset rounds) = [DRAWER_ALERT_ERROR] /\
  printer_statuses (drawer_worker station Unset rounds)
    = [DEVICE_STATUS_CHANGED "printer" PyNone].
Proof.
  intros Hne Hall. rewrite drawer_worker_rounds.
  assert (Hr : map reading rounds = replicate (length rounds) None).
  { clear Hne. induction Hall as [|env rest Hc _ IH]; [done|].
    cbn [map length replicate]. unfold reading at 1.
    rewrite (check_drawer_unconfigured env Hc). by rewrite IH. }
  rewrite Hr. destruct rounds as [|env rest]; [done|].
  cbn [length replicate drawer_rounds]. unfold poll. cbn [differs].
  rewrite drawer_alerts_app, printer_statuses_app.
  by destruct (drawer_rounds_repeat station None (length rest)) as [-> ->].
Qed.

Lemma unconfigured_station_reports_error_witness :
  drawer_alerts
    (drawer_worker "S1" Unset
       [{| locked := false; configured := false; dev := fun _ => Drawer true;
           sat_ui := false; nonfiscal_ui := false |}])
  = [DRAWER_ALERT_ERROR].
Proof.
  refine (proj1 (unconfigured_station_reports_error "S1" [_] _ _)).
  - discriminate.
  - repeat constructor.
Defined.

Lemma collapse_head x (r : list (option bool)) :
  collapse (x :: r) = x :: tail (collapse (x :: r)).
Proof.
  revert x. induction r as [|y r IH]; intros x; [done|].
  cbn [collapse]. destruct (bool_decide (x = y)) eqn:E; [|done].
  apply bool_decide_eq_true in E. subst y. apply IH.
Qed.

Lemma collapse_cons p x (r : list (option bool)) :
  collapse (p :: x :: r)
  = if bool_decide (p = x) then collapse (x :: r) else p :: collapse (x :: r).
Proof. done. Qed.

Lemma drawer_rounds_collapse station (readings : list (option bool)) : forall p,
  drawer_alerts (drawer_rounds station (Seen p) readings)
  = map drawer_message (tail (collapse (p :: readings))).
Proof.
  induction readings as [|x r IH]; intros p; [done|].
  cbn [drawer_rounds]. rewrite collapse_cons.
  destruct (poll_events station (Seen p) x) as (Ha & _ & Hn).
  destruct (poll station (Seen p) x) as [is_open' tr]. cbn [fst snd] in *. subst.
  rewrite drawer_alerts_app, Ha, IH. cbn [differs].
  destruct (bool_decide (p = x)) eqn:E; cbn [negb app tail].
  - done.
  - by rewrite (collapse_head x r).
Qed.

(** X5: the drawer events the poller puts are, in kind and order, the
    readings with their immediate repeats left out: open for true, close
    for false, error for null. *)
Theorem drawer_alerts_are_collapsed_readings
    (station : string) (readings : list (option bool)) :
  drawer_alerts (check_drawer_loop station readings)
  = map drawer_message (collapse readings).
Proof.
  unfold check_drawer_loop. destruct readings as [|x r]; [done|].
  cbn [drawer_rounds].
  destruct (poll_events station Unset x) as (Ha & _ & Hn).
  destruct (poll station Unset x) as [is_open' tr]. cbn [fst snd] in *. subst.
  rewrite drawer_alerts_app, Ha, drawer_rounds_collapse. cbn [differs app].
  by rewrite (collapse_head x r).
Qed.

(** ** One TEF operation, further *)

Lemma printer_lock_after_app tr1 : forall held tr2,
  printer_lock_after held (tr1 ++ tr2)
  = printer_lock_after held tr1 ≫= fun h => printer_lock_after h tr2.
Proof.
  induction tr1 as [|c tr1 IH]; intros held tr2; [done|].
  destruct c, held; cbn; try done; apply IH.
Qed.

Lemma printer_lock_after_printer acts :
  printer_lock_after true (map Printer acts) = Some true.
Proof. induction acts as [|a acts IH]; [done|]. exact IH. Qed.

Lemma printer_lock_after_print_callback hp h m :
  printer_lock_after false (print_callback hp h m) = Some false.
Proof. unfold print_callback. by destruct hp, (truthy m), (truthy h). Qed.

(** The callbacks leave the lock as they found it, free. *)
Lemma printer_lock_after_run_plugin st hp p : forall answers,
  printer_lock_after false (run_plugin st hp p answers).2 = Some false.
Proof.
  induction p as [v|args|m a k IH|q k IH|h m k IH]; intros answers;
    cbn [run_plugin]; try done.
  - specialize (IH answers). by destruct (run_plugin st hp k answers).
  - destruct answers as [|v rest]; [done|].
    specialize (IH v rest). by destruct (run_plugin st hp (k v) rest).
  - specialize (IH answers). destruct (run_plugin st hp k answers). cbn [snd] in *.
    by rewrite printer_lock_after_app, printer_lock_after_print_callback.
Qed.

Lemma printer_lock_after_dispatch r : printer_lock_after false (dispatch r).2 = Some false.
Proof.
  unfold dispatch.
  destruct (Nat.eqb (receivers r) 1); cbn [negb]; [|done].
  destruct (body r) as [[| | | | |data0]|]; try done.
  cbv zeta. destruct (assoc_get "station" (assoc_remove "origin" data0)); [done|].
  pose proof (printer_lock_after_run_plugin (station r) (has_printer r)
                (driver r (assoc_remove "origin" data0)) (answers r)) as Hp.
  destruct (run_plugin _ _ _ _) as [x tr]. cbn [snd] in Hp.
  destruct x as [retval|args|]; [destruct (subscript_message retval)| |]; cbn [snd];
    cbn [app printer_lock_after]; rewrite ?printer_lock_after_app, Hp; done.
Qed.

(** X6: in every request, whatever its path and exit, the printer lock is
    never taken while it is held, never released while it is free, the
    printer is touched only while it is held, and the lock is free at the
    end. *)
Theorem post_keeps_printer_lock_discipline (r : tef_request) :
  printer_lock_after false (TefResource_post r).2 = Some false.
Proof.
  assert (Hb : printer_lock_after false (post_body r).2 = Some false).
  { unfold post_body.
    destruct (negb (in_list (signal_name r) no_till_required) && till_missing (till r));
      [done|].
    destruct (ensure_printer (under_lock (printer r)) 20) as [[reading|e] acts].
    - pose proof (printer_lock_after_dispatch r) as Hd.
      destruct (dispatch r) as [x tr]. cbn [snd] in *.
      rewrite <- !app_assoc. cbn [app printer_lock_after].
      rewrite printer_lock_after_app, printer_lock_after_printer. cbn. exact Hd.
    - cbn [snd]. rewrite <- !app_assoc. cbn [app printer_lock_after].
      rewrite printer_lock_after_app, printer_lock_after_printer. done. }
  unfold TefResource_post, lock_pinpad. destruct (post_body r) as [x tr]. cbn [snd] in Hb.
  destruct x; cbn [snd printer_lock_after]; rewrite ?printer_lock_after_app, Hb; done.
Qed.

Lemma occurrences_app f tr1 tr2 :
  occurrences f (tr1 ++ tr2) = occurrences f tr1 + occurrences f tr2.
Proof. unfold occurrences. by rewrite List.filter_app, length_app. Qed.

Lemma occurrences_cons f c tr :
  occurrences f (c :: tr) = (if f c then 1 else 0) + occurrences f tr.
Proof. unfold occurrences. cbn. by destruct (f c). Qed.


Lemma occurrences_print_callback f hp h m :
  f AcquirePrinterLock = false -> f ReleasePrinterLock = false ->
  f CutPaper = false -> (forall t, f (PrintLine t) = false) ->
  occurrences f (print_callback hp h m) = 0.
Proof.
  intros H1 H2 H3 H4. unfold print_callback.
  destruct hp, (truthy m), (truthy h); cbn [app];
    rewrite ?occurrences_cons, ?H1, ?H2, ?H3, ?H4; done.
Qed.

(** Along the callbacks every question sets the flag and every answer
    taken clears it; a run that waits has set it once more. *)
Lemma waiting_flag_run_plugin st hp p : forall answers,
  let x := (run_plugin st hp p answers).1 in
  let tr := (run_plugin st hp p answers).2 in
  occurrences is_set_waiting tr = occurrences is_question tr /\
  occurrences is_get_reply tr = occurrences is_clear_waiting tr /\
  occurrences is_set_waiting tr
    = occurrences is_clear_waiting tr + match x with AwaitingReply => 1 | _ => 0 end /\
  occurrences is_send tr = 0.
Proof.
  induction p as [v|args|m a k IH|q k IH|h m k IH]; intros answers;
    cbn [run_plugin]; try done.
  - specialize (IH answers). destruct (run_plugin st hp k answers) as [x tr].
    cbn [fst snd] in *. by rewrite !occurrences_cons.
  - destruct answers as [|v rest]; [done|].
    specialize (IH v rest). destruct (run_plugin st hp (k v) rest) as [x tr].
    cbn [fst snd] in *. rewrite !occurrences_cons.
    cbn [is_set_waiting is_question is_get_reply is_clear_waiting is_send]. lia.
  - specialize (IH answers). destruct (run_plugin st hp k answers) as [x tr].
    cbn [fst snd] in *. rewrite !occurrences_app, !occurrences_print_callback by done.
    exact IH.
Qed.




Example confirmed_sale_trace :
  TefResource_post confirmed_sale =
    (Responded,
     [AcquirePinpadLock; AcquirePrinterLock; ReleasePrinterLock;
      Connect "TefMessageEvent"; Connect "TefQuestionEvent"; Connect "TefPrintEvent";
      Send "StartTefSaleEvent" "S1" [("value", PyInt 1000)];
      Put "S1" (TEF_ASK_QUESTION (PyStr "Confirma?")); SetWaitingReply;
      GetReply (PyStr "sim"); ClearWaitingReply;
      AcquirePrinterLock; PrintLine (PyStr "via do cliente"); CutPaper; ReleasePrinterLock;
      Put "S1" (TEF_OPERATION_FINISHED (PyDict [("message", PyStr "sim")]) (PyStr "sim"));
      ReleasePinpadLock]).
Proof. reflexivity. Qed.

Lemma puts_shape_dispatch r :
  (dispatch r).1 = Responded ->
  exists evs success message,
    puts (dispatch r).2 = evs ++ [(station r, TEF_OPERATION_FINISHED success message)] /\
    List.filter (fun e => is_finished e.2) evs = [].
Proof.
  unfold dispatch.
  destruct (Nat.eqb (receivers r) 1); cbn [negb]; [|done].
  destruct (body r) as [[| | | | |data0]|]; try done.
  cbv zeta. destruct (assoc_get "station" (assoc_remove "origin" data0)).
  { intros _. by exists [], (PyBool false),
      (failure_message [PyStr "got multiple values for keyword argument"]). }
  pose proof (finished_events_run_plugin (station r) (has_printer r)
                (driver r (assoc_remove "origin" data0)) (answers r)) as Hn.
  destruct (run_plugin _ _ _ _) as [x tr]. cbn [snd] in Hn. unfold finished_events in Hn.
  destruct x as [retval|args|]; [destruct (subscript_message retval)| |];
    cbn [fst snd]; try done; intros _; eexists (puts tr), _, _;
    (split; [|exact Hn]);
    rewrite !puts_app, (puts_cons (Send _ _ _)); cbn [puts omap app]; done.
Qed.

(** X8: when a request returns, the terminal event is the last thing it
    put: everything else it put came before, and none of that is a terminal
    event. *)
Theorem terminal_event_is_last (r : tef_request) :
  (TefResource_post r).1 = Responded ->
  exists evs success message,
    puts (TefResource_post r).2
      = evs ++ [(station r, TEF_OPERATION_FINISHED success message)] /\
    List.filter (fun e => is_finished e.2) evs = [].
Proof.
  unfold TefResource_post, lock_pinpad, post_body.
  destruct (negb (in_list (signal_name r) no_till_required) && till_missing (till r));
    [done|].
  destruct (ensure_printer (under_lock (printer r)) 20) as [[reading|e] acts].
  - pose proof (puts_shape_dispatch r) as Hd.
    destruct (dispatch r) as [x tr]. cbn [fst snd] in *.
    destruct x; cbn [fst snd]; try done. intros _.
    destruct (Hd eq_refl) as (evs & success & message & He & Hf).
    exists evs, success, message. split; [|done].
    rewrite puts_cons, !puts_app, puts_printer, He. cbn. by rewrite app_nil_r.
  - cbn [fst snd]. intros _. exists [], (PyBool false), printer_failure_message.
    split; [|done]. rewrite puts_cons, !puts_app, puts_printer. done.
Qed.

Lemma terminal_event_is_last_witness :
  exists evs success message,
    puts (TefResource_post confirmed_sale).2
      = evs ++ [("S1", TEF_OPERATION_FINISHED success message)].
Proof.
  destruct (terminal_event_is_last confirmed_sale eq_refl)
    as (evs & success & message & H & _).
  exists evs, success, message. exact H.
Defined.

Lemma sends_dispatch r :
  List.filter is_send (dispatch r).2 = [] \/
  exists data, List.filter is_send (dispatch r).2 = [Send (signal_name r) (station r) data] /\
               receivers r = 1 /\ kwargs r = Some data.
Proof.
  unfold dispatch, kwargs.
  destruct (Nat.eqb (receivers r) 1) eqn:Hr; cbn [negb]; [|by left].
  apply Nat.eqb_eq in Hr.
  destruct (body r) as [[| | | | |data0]|]; try by left.
  cbv zeta. destruct (assoc_get "station" (assoc_remove "origin" data0)); [by left|].
  pose proof (waiting_flag_run_plugin (station r) (has_printer r)
                (driver r (assoc_remove "origin" data0)) (answers r)) as (_ & _ & _ & Hs).
  destruct (run_plugin _ _ _ _) as [x tr]. cbn [snd] in Hs.
  unfold occurrences in Hs. apply length_zero_iff_nil in Hs.
  right. exists (assoc_remove "origin" data0). split; [|done].
  destruct x as [retval|args|]; [destruct (subscript_message retval)| |]; cbn [snd];
    cbn [app List.filter is_send]; rewrite ?List.filter_app, Hs; done.
Qed.

Lemma filter_send_printer acts : List.filter is_send (map Printer acts) = [].
Proof. induction acts as [|a acts IH]; [done|]. exact IH. Qed.

Lemma sends_post r :
  List.filter is_send (TefResource_post r).2 = [] \/
  exists data,
    List.filter is_send (TefResource_post r).2 = [Send (signal_name r) (station r) data] /\
    till_ok r = true /\
    (exists reading, (ensure_printer (under_lock (printer r)) 20).1 = Returned reading) /\
    receivers r = 1 /\ kwargs r = Some data.
Proof.
  unfold TefResource_post, lock_pinpad, post_body, till_ok.
  destruct (in_list (signal_name r) no_till_required) eqn:Hi;
    destruct (till_missing (till r)) eqn:Ht; cbn [negb andb orb]; try by left.
  all: destruct (ensure_printer (under_lock (printer r)) 20) as [[reading|e] acts];
    [|left; cbn [fst snd app List.filter is_send];
      by rewrite !List.filter_app, filter_send_printer].
  all: destruct (sends_dispatch r) as [Hd|(data & Hd & Hr & Hk)];
    destruct (dispatch r) as [x tr]; cbn [fst snd] in *.
  all: try (left; destruct x; cbn [fst snd app List.filter is_send];
            by rewrite !List.filter_app, filter_send_printer, Hd).
  all: right; exists data; split; [|eauto 10];
    destruct x; cbn [fst snd app List.filter is_send];
    by rewrite !List.filter_app, filter_send_printer, Hd.
Qed.

(** X9: a request sends the operation signal to the plug-in at most
    once, and only when the till check passed, the printer check returned,
    exactly one receiver is connected and the body is an object that does
    not name [station]; the signal is the one of the request, sent for its
    own station with the body's keys as keywords. *)
Theorem plugin_sent_once_when_ready (r : tef_request) :
  occurrences is_send (TefResource_post r).2 <= 1 /\
  (forall sig st data, In (Send sig st data) (TefResource_post r).2 ->
     sig = signal_name r /\ st = station r /\
     till_ok r = true /\
     (exists reading, (ensure_printer (under_lock (printer r)) 20).1 = Returned reading) /\
     receivers r = 1 /\ kwargs r = Some data).
Proof.
  unfold occurrences.
  destruct (sends_post r) as [Hn|(data & Hs & Ht & Hp & Hr & Hk)].
  - rewrite Hn. split; [cbn; lia|]. intros sig st data Hin.
    assert (Hf : In (Send sig st data) (List.filter is_send (TefResource_post r).2)).
    { apply filter_In. by split. }
    rewrite Hn in Hf. destruct Hf.
  - rewrite Hs. split; [cbn; lia|]. intros sig st data' Hin.
    assert (Hf : In (Send sig st data') (List.filter is_send (TefResource_post r).2)).
    { apply filter_In. by split. }
    rewrite Hs in Hf. destruct Hf as [[= <- <- <-]|[]]. eauto 10.
Qed.

Lemma assoc_get_remove_eq k d : assoc_get k (assoc_remove k d) = None.
Proof.
  induction d as [|[k' v] d IH]; [done|]. cbn [assoc_remove].
  destruct (String.eqb k k') eqn:E; [done|]. cbn [assoc_get]. by rewrite E.
Qed.

Lemma assoc_get_remove_ne k k' d :
  k <> k' -> assoc_get k (assoc_remove k' d) = assoc_get k d.
Proof.
  intros Hne. induction d as [|[k2 v] d IH]; [done|]. cbn [assoc_remove assoc_get].
  destruct (String.eqb k' k2) eqn:E2.
  - apply String.eqb_eq in E2. subst k2.
    destruct (String.eqb k k') eqn:E; [|done]. apply String.eqb_eq in E. contradiction.
  - cbn [assoc_get]. by rewrite IH.
Qed.

Lemma dispatch_calls_driver r data :
  receivers r = 1 -> kwargs r = Some data ->
  exists pre post,
    (dispatch r).2
    = pre ++ Send (signal_name r) (station r) data
          :: (run_plugin (station r) (has_printer r) (driver r data) (answers r)).2 ++ post.
Proof.
  unfold dispatch, kwargs. intros -> Hk. cbn [Nat.eqb negb].
  destruct (body r) as [[| | | | |data0]|]; try discriminate. cbv zeta.
  destruct (assoc_get "station" (assoc_remove "origin" data0)); [discriminate|].
  injection Hk as <-.
  destruct (run_plugin _ _ _ _) as [x tr]. cbn [snd].
  exists [Connect "TefMessageEvent"; Connect "TefQuestionEvent"; Connect "TefPrintEvent"].
  destruct x as [retval|args|]; [destruct (subscript_message retval)| |]; cbn [snd];
    first [ by (eexists; cbn [app]; reflexivity)
          | by (exists []; cbn [app]; rewrite app_nil_r) ].
Qed.

Lemma post_calls_driver r data :
  till_ok r = true ->
  (exists reading, (ensure_printer (under_lock (printer r)) 20).1 = Returned reading) ->
  receivers r = 1 -> kwargs r = Some data ->
  exists pre post,
    (TefResource_post r).2
    = pre ++ Send (signal_name r) (station r) data
          :: (run_plugin (station r) (has_printer r) (driver r data) (answers r)).2 ++ post.
Proof.
  intros Ht (reading & Hp) Hr Hk.
  destruct (dispatch_calls_driver r data Hr Hk) as (pre & post & Hd).
  unfold TefResource_post, lock_pinpad, post_body. unfold till_ok in Ht.
  replace (negb (in_list (signal_name r) no_till_required) && till_missing (till r))
    with false
    by (destruct (in_list (signal_name r) no_till_required),
                 (till_missing (till r)); done).
  destruct (ensure_printer (under_lock (printer r)) 20) as [checked acts].
  cbn [fst] in Hp. subst checked.
  destruct (dispatch r) as [x tr]. cbn [snd] in Hd. subst tr.
  exists (AcquirePinpadLock :: [AcquirePrinterLock] ++ map Printer acts
                            ++ [ReleasePrinterLock] ++ pre).
  destruct x; cbn [snd]; eexists; rewrite <- ?app_assoc; cbn [app];
    rewrite <- ?app_assoc; cbn [app]; reflexivity.
Qed.

(** X10: what [post] gives the plug-in is the body without its [origin]:
    whenever the trace of a request holds a send, the keyword arguments
    sent have no [origin] key left (whether the body had one, several or
    none), every other key has the value the body gives it, and the calls
    that follow the send are those of the plug-in run on these very
    arguments. *)
Theorem plugin_gets_body_without_origin (r : tef_request) (sig st : string)
    (data : list (string * pyval)) :
  In (Send sig st data) (TefResource_post r).2 ->
  exists data0, body r = Some (PyDict data0) /\
    assoc_get "origin" data = None /\
    (forall k, k <> "origin" -> assoc_get k data = assoc_get k data0) /\
    exists pre post,
      (TefResource_post r).2
      = pre ++ Send sig st data
            :: (run_plugin (station r) (has_printer r) (driver r data) (answers r)).2
            ++ post.
Proof.
  intros Hin.
  assert (Hf : In (Send sig st data) (List.filter is_send (TefResource_post r).2)).
  { apply filter_In. by split. }
  destruct (sends_post r) as [Hn|(data' & Hs & Ht & Hp & Hr & Hk)];
    [rewrite Hn in Hf; destruct Hf|].
  rewrite Hs in Hf. destruct Hf as [[= <- <- <-]|[]].
  pose proof (post_calls_driver r data' Ht Hp Hr Hk) as Hshape.
  unfold kwargs in Hk. destruct (body r) as [[| | | | |data0]|]; try discriminate.
  destruct (assoc_get "station" (assoc_remove "origin" data0)); [discriminate|].
  injection Hk as <-. exists data0. split; [done|]. split; [|split; [|done]].
  - apply assoc_get_remove_eq.
  - intros k Hk. by apply assoc_get_remove_ne.
Qed.

Lemma plugin_gets_body_without_origin_witness :
  In (Send "StartTefSaleEvent" "S1" [("value", PyInt 1000)])
     (TefResource_post approved_sale).2 /\
  assoc_get "origin" [("value", PyInt 1000)] = None.
Proof.
  assert (Hin : In (Send "StartTefSaleEvent" "S1" [("value", PyInt 1000)])
                   (TefResource_post approved_sale).2).
  { vm_compute. tauto. }
  split; [exact Hin|].
  destruct (plugin_gets_body_without_origin approved_sale _ _ _ Hin) as (data0 & _ & Ho & _).
  exact Ho.
Defined.

Lemma subscript_message_inr retval args :
  subscript_message retval = inr args -> failure_message args = PyStr "Falha na operação".
Proof.
  destruct retval as [| | | | |d]; cbn; try (by intros [= <-]).
  destruct (assoc_get "message" d); [discriminate|]. by intros [= <-].
Qed.

(** X11: a plug-in that returns without raising, but whose result cannot
    be subscripted by ['message'] (a bare [True], a number, a list, a
    mapping without that key), is reported as a failure: the terminal event
    has success [False] and the fallback message, and the result itself is
    dropped. *)
Theorem plugin_result_without_message_is_failure (r : tef_request)
    (reading : option bool) (acts : list action) (data : list (string * pyval))
    (retval : pyval) (tr : list call) :
  till_ok r = true ->
  ensure_printer (under_lock (printer r)) 20 = (Returned reading, acts) ->
  receivers r = 1 ->
  kwargs r = Some data ->
  run_plugin (station r) (has_printer r) (driver r data) (answers r)
    = (PluginReturned retval, tr) ->
  (forall d, retval = PyDict d -> assoc_get "message" d = None) ->
  (TefResource_post r).1 = Responded /\
  finished_events (TefResource_post r).2
    = [(station r, TEF_OPERATION_FINISHED (PyBool false) (PyStr "Falha na operação"))].
Proof.
  intros Ht Hp Hr Hk Hrun Hno.
  destruct (finished_events_post_dispatch r reading acts Ht Hp) as [-> ->].
  destruct (finished_events_dispatch_sent r data Hr Hk) as [-> ->].
  rewrite Hrun. cbn [fst snd].
  destruct (subscript_message retval) as [m|args] eqn:Es.
  - destruct (subscript_message_inl _ _ Es) as (_ & _ & d & -> & Hm).
    rewrite (Hno d eq_refl) in Hm. discriminate.
  - by rewrite (subscript_message_inr _ _ Es).
Qed.

Lemma plugin_result_without_message_is_failure_witness :
  finished_events (TefResource_post bare_true_sale).2
  = [("S1", TEF_OPERATION_FINISHED (PyBool false) (PyStr "Falha na operação"))].
Proof.
  refine (proj2 (plugin_result_without_message_is_failure bare_true_sale (Some false) []
                   [("value", PyInt 1000)] (PyBool true) []
                   eq_refl eq_refl eq_refl eq_refl eq_refl _)).
  intros d H. discriminate H.
Defined.

(** ** The question/reply protocol, further *)

(** X12: in every state the process reaches, once the waiting task has
    taken its answer a further reply post is refused and changes nothing,
    and while a task is waiting no task, the waiting one included, can
    publish another question. *)
Theorem one_answer_per_question
    (json_loads : string -> result pyval) (ms : list move) (p : process) :
  run json_loads ms start = Some p ->
  (forall t p' body, step json_loads (Wake t) p = Some p' ->
     TefReplyResource_post json_loads body (srv p') = (Raised AssertionError, srv p')) /\
  (asking p <> [] -> forall t st q, step json_loads (Ask t st q) p = None).
Proof.
  intros Hr.
  pose proof (protocol_inv_run json_loads ms start p protocol_inv_start Hr) as Hinv.
  split.
  - intros t p' body Hw.
    pose proof (protocol_inv_step json_loads (Wake t) p p' Hinv Hw) as [_ Hf _ _ _ _].
    cbn [step] in Hw. destruct (is_asking t p) eqn:Ha; [|done].
    rewrite (the_one_asking p t Hinv Ha) in Hw.
    destruct (question_resume (srv p)) as [[s v]|]; [|done]. cbn in Hw.
    rewrite Nat.eqb_refl in Hw. cbn in Hw. injection Hw as <-. cbn in *.
    unfold TefReplyResource_post. cbn. by rewrite Hf.
  - intros Hne t st q. cbn [step].
    destruct (holds t p && negb (is_asking t p)) eqn:Hh; [|done].
    by rewrite (nobody_asking p t Hinv Hh) in Hne.
Qed.

Lemma one_answer_per_question_witness :
  exists p p',
    run json_text [Subscribe "S1" false; Enter 1; Ask 1 "S1" (PyStr "Confirma?");
                   Reply (reply_body "sim")] start = Some p /\
    step json_text (Wake 1) p = Some p' /\
    TefReplyResource_post json_text (reply_body "sim") (srv p')
    = (Raised AssertionError, srv p').
Proof.
  eexists. eexists. split; [vm_compute; reflexivity|].
  split; [vm_compute; reflexivity|].
  match goal with
  | |- TefReplyResource_post _ _ (srv ?p') = _ =>
      exact (proj1 (one_answer_per_question json_text
                      [Subscribe "S1" false; Enter 1; Ask 1 "S1" (PyStr "Confirma?");
                       Reply (reply_body "sim")] _ eq_refl)
               1 p' (reply_body "sim") eq_refl)
  end.
Defined.

Lemma delivered_cons o h :
  delivered (o :: h)
  = delivered h ++ match o with Delivered _ v => [v] | _ => [] end.
Proof. unfold delivered. cbn [rev]. rewrite omap_app. by destruct o. Qed.

Lemma replies_conserved_step json_loads m p p' :
  step json_loads m p = Some p' ->
  delivered (history p') ++ reply (srv p')
  = delivered (history p) ++ reply (srv p) ++ accepted_by json_loads m p.
Proof.
  destruct m as [st pending|st data|data|t|t st q|t|t|body]; cbn [step accepted_by];
    rewrite ?app_nil_r.
  - destruct (EventStream_get_flag st pending (srv p)) as (s' & -> & _ & _ & Hr).
    cbn. intros [= <-]. cbn. by rewrite Hr.
  - destruct (EventStream_put st data (srv p)) as [s'|] eqn:E; [|done].
    apply EventStream_put_flag in E as (_ & _ & _ & Hr).
    cbn. intros [= <-]. cbn. by rewrite Hr.
  - destruct (EventStream_put_all data (srv p)) as [s'|] eqn:E; [|done].
    apply EventStream_put_all_flag in E as (_ & Hr).
    cbn. intros [= <-]. cbn. by rewrite Hr.
  - destruct (acquire_pinpad t (pinpad p)); [|done]. cbn. by intros [= <-].
  - destruct (holds t p && negb (is_asking t p)); [|done].
    unfold question_callback.
    destruct (EventStream_put st (TEF_ASK_QUESTION q) (srv p)) as [s'|] eqn:E; [|done].
    apply EventStream_put_flag in E as (_ & _ & _ & Hr).
    cbn [mbind option_bind set_waiting_reply reply]. rewrite Hr.
    destruct (reply (srv p)) as [|v rest]; cbn [fst snd]; intros [= <-];
      cbn [history srv reply set_waiting_reply set_reply]; rewrite ?delivered_cons, ?Hr.
    + by rewrite !app_nil_r.
    + by rewrite app_nil_r, <- app_assoc.
  - destruct (is_asking t p); [|done]. unfold question_resume.
    destruct (reply (srv p)) as [|v rest]; [done|].
    cbn [mbind option_bind fst snd]. intros [= <-].
    cbn [history srv reply set_waiting_reply set_reply].
    by rewrite delivered_cons, <- app_assoc.
  - destruct (holds t p && negb (is_asking t p)); [|done]. by intros [= <-].
  - intros [= <-]. cbn [history srv].
    destruct (TefReplyResource_post_cases json_loads body (srv p))
      as [(v & Hw & ->)|(e & ->)]; cbn [fst snd set_reply reply];
      rewrite delivered_cons, ?app_nil_r; [|done].
    by rewrite last_snoc.
Qed.

Lemma replies_conserved_run json_loads ms : forall p p',
  run json_loads ms p = Some p' ->
  delivered (history p') ++ reply (srv p')
  = delivered (history p) ++ reply (srv p) ++ accepted_values json_loads ms p.
Proof.
  induction ms as [|m ms IH]; intros p p'; cbn [run accepted_values].
  - intros [= <-]. by rewrite app_nil_r.
  - destruct (step json_loads m p) as [p1|] eqn:E; [|done]. cbn. intros Hr.
    rewrite (IH _ _ Hr), app_assoc, (replies_conserved_step _ _ _ _ E).
    by rewrite <- !app_assoc.
Qed.

(** X13: no reply is lost, repeated or reordered: in every state the
    process reaches, the answers handed to the plug-in so far followed by
    the values still waiting in the reply queue are exactly the values of
    the accepted reply posts, in the order they were accepted. *)
Theorem replies_are_delivered_in_order
    (json_loads : string -> result pyval) (ms : list move) (p : process) :
  run json_loads ms start = Some p ->
  delivered (history p) ++ reply (srv p) = accepted_values json_loads ms start.
Proof. intros Hr. by rewrite (replies_conserved_run json_loads ms start p Hr). Qed.

Lemma replies_are_delivered_in_order_witness :
  exists p, run json_text two_replies start = Some p /\
    delivered (history p) = [PyStr "1"] /\ reply (srv p) = [PyStr "2"] /\
    delivered (history p) ++ reply (srv p) = [PyStr "1"; PyStr "2"].
Proof.
  eexists. split; [vm_compute; reflexivity|].
  split; [reflexivity|]. split; [reflexivity|].
  match goal with
  | |- delivered (history ?p) ++ _ = _ =>
      exact (replies_are_delivered_in_order json_text two_replies p eq_refl)
  end.
Defined.

(** ** The event stream with its queue objects *)

Lemma enqueue_lookup data q (queues : list (list event)) i :
  enqueue data q queues !! i
  = if decide (q = i) then (fun l => l ++ [data]) <$> queues !! i else queues !! i.
Proof.
  unfold enqueue. rewrite list_lookup_alter.
  by destruct (decide (q = i)) as [->|Hne].
Qed.

Lemma enqueue_length data q (queues : list (list event)) :
  length (enqueue data q queues) = length queues.
Proof. apply length_alter. Qed.

Lemma foldr_enqueue_length data qs (queues : list (list event)) :
  length (foldr (enqueue data) queues qs) = length queues.
Proof. induction qs as [|q qs IH]; [done|]. cbn. by rewrite enqueue_length. Qed.

Lemma foldr_enqueue_lookup_notin data qs (queues : list (list event)) i :
  i ∉ qs -> foldr (enqueue data) queues qs !! i = queues !! i.
Proof.
  induction qs as [|q qs IH]; [done|]. intros Hn.
  apply not_elem_of_cons in Hn as [Hne Hn]. cbn.
  rewrite enqueue_lookup. destruct (decide (q = i)); [congruence|]. by apply IH.
Qed.

Lemma foldr_enqueue_lookup_in data qs (queues : list (list event)) i :
  NoDup qs -> i ∈ qs ->
  foldr (enqueue data) queues qs !! i = (fun l => l ++ [data]) <$> queues !! i.
Proof.
  induction qs as [|q qs IH]; intros Hnd Hin; [by apply elem_of_nil in Hin|].
  apply NoDup_cons in Hnd as [Hq Hnd]. cbn. rewrite enqueue_lookup.
  destruct (decide (q = i)) as [->|Hne].
  - by rewrite foldr_enqueue_lookup_notin.
  - apply elem_of_cons in Hin as [->|Hin]; [done|]. by apply IH.
Qed.

(** The registered queues, each once. *)
Lemma registered_NoDup h : hub_wf h -> NoDup (map_to_list (hub_streams h)).*2.
Proof.
  intros [_ Hinj]. apply NoDup_fmap_2_strong; [|apply NoDup_map_to_list].
  intros [st1 q1] [st2 q2] H1 H2 Heq. cbn in Heq. subst q2.
  apply elem_of_map_to_list in H1, H2. by rewrite (Hinj st1 st2 q1 H1 H2).
Qed.

Lemma registered_elem h q :
  q ∈ (map_to_list (hub_streams h)).*2 <-> exists st, hub_streams h !! st = Some q.
Proof.
  rewrite list_elem_of_fmap. split.
  - intros ([st q'] & -> & Hin). apply elem_of_map_to_list in Hin. eauto.
  - intros (st & Hst). exists (st, q). split; [done|]. by apply elem_of_map_to_list.
Qed.

Lemma hub_put_wf st data h h' : hub_wf h -> hub_put st data h = Some h' -> hub_wf h'.
Proof.
  unfold hub_put. destruct (hub_flag h); [|done]. intros Hwf [= <-].
  destruct (hub_streams h !! st); [|done].
  destruct Hwf as [Hlt Hinj]. split; cbn; [|done].
  intros st' q' Hq. rewrite enqueue_length. eauto.
Qed.

Lemma hub_put_all_wf data h h' : hub_wf h -> hub_put_all data h = Some h' -> hub_wf h'.
Proof.
  unfold hub_put_all. destruct (hub_flag h); [|done]. intros [Hlt Hinj] [= <-].
  split; cbn; [|done]. intros st' q' Hq. rewrite foldr_enqueue_length. eauto.
Qed.

Lemma hub_get_fresh st h :
  hub_wf h ->
  hub_wf {| hub_flag := true; hub_streams := <[st := length (hub_queues h)]> (hub_streams h);
            hub_queues := hub_queues h ++ [[HANDSHAKE]] |}.
Proof.
  intros [Hlt Hinj]. split; cbn.
  - intros st' q'. rewrite length_app. cbn. rewrite lookup_insert.
    destruct (decide (st = st')); [intros [= <-]; lia|]. intros Hq. apply Hlt in Hq. lia.
  - intros st1 st2 q'. rewrite !lookup_insert.
    destruct (decide (st = st1)) as [E1|], (decide (st = st2)) as [E2|].
    + congruence.
    + intros [= <-] Hq. apply Hlt in Hq. lia.
    + intros Hq [= <-]. apply Hlt in Hq. lia.
    + apply Hinj.
Qed.

Lemma enqueue_last data (queues : list (list event)) l :
  enqueue data (length queues) (queues ++ [l]) = queues ++ [l ++ [data]].
Proof.
  unfold enqueue. rewrite <- (Nat.add_0_r (length queues)). by rewrite alter_app_r.
Qed.

(** [EventStream.get] in one piece: the new queue holds the greeting and is
    the station's from now on. *)
Lemma hub_get_eq st pending h :
  hub_get st pending h
  = Some ({| hub_flag := true;
             hub_streams := <[st := length (hub_queues h)]> (hub_streams h);
             hub_queues := hub_queues h ++ [greeting pending] |},
          length (hub_queues h)).
Proof.
  unfold hub_get, greeting. destruct pending; [|done].
  unfold hub_put. cbn [hub_flag hub_streams hub_queues mbind option_bind].
  rewrite lookup_insert_eq. cbn [hub_flag hub_streams hub_queues mbind option_bind].
  rewrite lookup_insert_eq. by rewrite !enqueue_last.
Qed.

Lemma hub_get_wf st pending h h' q :
  hub_wf h -> hub_get st pending h = Some (h', q) ->
  hub_wf h' /\ q = length (hub_queues h) /\ hub_streams h' !! st = Some q /\
  hub_flag h' = true.
Proof.
  intros Hwf. rewrite hub_get_eq. intros [= <- <-].
  split; [|by cbn; rewrite lookup_insert_eq].
  destruct (hub_get_fresh st h Hwf) as [Hlt Hinj]. split; cbn in *; [|done].
  intros st' q' Hq. apply Hlt in Hq. by rewrite length_app in *.
Qed.

Lemma hub_step_wf op h h' : hub_wf h -> hub_step op h = Some h' -> hub_wf h'.
Proof.
  intros Hwf. destruct op as [st pending|st data|data|q]; cbn [hub_step].
  - destruct (hub_get st pending h) as [[h1 q]|] eqn:E; [|done]. cbn. intros [= <-].
    by destruct (hub_get_wf _ _ _ _ _ Hwf E).
  - by apply hub_put_wf.
  - by apply hub_put_all_wf.
  - destruct (hub_queues h !! q) as [[|e rest]|]; try done. intros [= <-].
    destruct Hwf as [Hlt Hinj]. split; cbn; [|done].
    intros st' q' Hq. rewrite length_insert. eauto.
Qed.






Lemma hub_wf_boot : hub_wf hub_boot.
Proof. split; cbn; intros *; rewrite lookup_empty; discriminate. Qed.


Lemma hub_step_stale q op h h' :
  hub_wf h -> stale q h -> hub_step op h = Some h' ->
  stale q h' /\ exists k, hub_queues h' !! q = drop k <$> hub_queues h !! q.
Proof.
  intros Hwf [Hlt Hno]. destruct op as [st pending|st data|data|q']; cbn [hub_step].
  - rewrite hub_get_eq. cbn. intros [= <-]. split; [split|]; cbn.
    + rewrite length_app. lia.
    + intros st'. rewrite lookup_insert.
      destruct (decide (st = st')); [intros [= ?]; lia|apply Hno].
    + exists 0. rewrite lookup_app_l by done. by destruct (hub_queues h !! q).
  - unfold hub_put. destruct (hub_flag h); [|done]. intros [= <-].
    destruct (hub_streams h !! st) as [q1|] eqn:E.
    + split; [split|]; cbn; [by rewrite enqueue_length|done|].
      exists 0. rewrite enqueue_lookup, decide_False.
      * by destruct (hub_queues h !! q).
      * intros ->. by apply (Hno st).
    + split; [done|]. exists 0. by destruct (hub_queues h !! q).
  - unfold hub_put_all. destruct (hub_flag h); [|done]. intros [= <-].
    split; [split|]; cbn; [by rewrite foldr_enqueue_length|done|].
    exists 0. rewrite foldr_enqueue_lookup_notin.
    + by destruct (hub_queues h !! q).
    + intros Hin. apply registered_elem in Hin as [st Hst]. by apply (Hno st).
  - destruct (hub_queues h !! q') as [[|e rest]|] eqn:E; try done. intros [= <-].
    split; [split|]; cbn; [by rewrite length_insert|done|].
    destruct (decide (q' = q)) as [->|Hne].
    + exists 1. rewrite list_lookup_insert_eq by done. by rewrite E.
    + exists 0. rewrite list_lookup_insert_ne by done. by destruct (hub_queues h !! q).
Qed.

Lemma hub_run_stale q ops : forall h h',
  hub_wf h -> stale q h -> hub_run ops h = Some h' ->
  exists k, hub_queues h' !! q = drop k <$> hub_queues h !! q.
Proof.
  induction ops as [|op ops IH]; intros h h' Hwf Hs; cbn [hub_run].
  - intros [= <-]. exists 0. by destruct (hub_queues h !! q).
  - destruct (hub_step op h) as [h1|] eqn:E; [|done]. cbn [mbind option_bind]. intros Hr.
    destruct (hub_step_stale q op h h1 Hwf Hs E) as (Hs1 & k1 & Hk1).
    destruct (IH h1 h' (hub_step_wf _ _ _ Hwf E) Hs1 Hr) as (k2 & Hk2).
    exists (k1 + k2). rewrite Hk2, Hk1.
    destruct (hub_queues h !! q); [|done]. cbn. by rewrite drop_drop.
Qed.

(** X15: when a station connects again it gets a new queue, and the
    queue of its earlier connection is cut off: whatever is put, to the
    station or to all, and whoever connects afterwards, the old queue never
    grows again; it only loses what its own loop takes from it. *)
Theorem reconnect_cuts_off_old_queue
    (st : string) (pending : bool) (h h1 : hub) (q_old q_new : nat) :
  hub_wf h ->
  hub_streams h !! st = Some q_old ->
  hub_get st pending h = Some (h1, q_new) ->
  q_new <> q_old /\
  hub_streams h1 !! st = Some q_new /\
  forall ops h2, hub_run ops h1 = Some h2 ->
    exists k, hub_queues h2 !! q_old = drop k <$> hub_queues h !! q_old.
Proof.
  intros Hwf Hold Hg.
  destruct (hub_get_wf _ _ _ _ _ Hwf Hg) as (Hwf1 & -> & Hst & _).
  pose proof (proj1 Hwf st q_old Hold) as Hlt.
  split; [lia|]. split; [done|].
  intros ops h2 Hr.
  assert (Hs : stale q_old h1).
  { rewrite hub_get_eq in Hg. injection Hg as <-. split; cbn.
    - rewrite length_app. lia.
    - intros st'. rewrite lookup_insert.
      destruct (decide (st = st')) as [->|Hne]; [intros [= ?]; lia|].
      intros Hq. destruct Hwf as [_ Hinj]. by apply Hne, (Hinj st st' q_old). }
  destruct (hub_run_stale q_old ops h1 h2 Hwf1 Hs Hr) as (k & Hk).
  exists k. rewrite Hk. rewrite hub_get_eq in Hg. injection Hg as <-. cbn.
  by rewrite lookup_app_l.
Qed.

Lemma hub_wf_connected_once : hub_wf connected_once.
Proof.
  exact (proj1 (hub_get_wf "S1" false hub_boot connected_once 0 hub_wf_boot eq_refl)).
Qed.

Lemma reconnect_cuts_off_old_queue_witness :
  exists h2 k,
    hub_run [HPut "S1" CLEAR_SALE; HPutAll DRAWER_ALERT_OPEN; HNext 0]
      {| hub_flag := true; hub_streams := {["S1" := 1]};
         hub_queues := [[HANDSHAKE]; [HANDSHAKE]] |} = Some h2 /\
    hub_queues h2 !! 0 = drop k <$> Some [HANDSHAKE].
Proof.
  eexists. 
  destruct (proj2 (proj2 (reconnect_cuts_off_old_queue "S1" false connected_once _ 0 1
                            hub_wf_connected_once eq_refl eq_refl))
              [HPut "S1" CLEAR_SALE; HPutAll DRAWER_ALERT_OPEN; HNext 0] _ eq_refl)
    as [k Hk].
  exists k. split; [reflexivity | exact Hk].
Defined.

Lemma view_lookup h st :
  view h !! st = hub_streams h !! st ≫= fun q => hub_queues h !! q.
Proof. unfold view. by rewrite lookup_omap. Qed.

Lemma EventStream_get_eq st pending s :
  EventStream_get st pending s
  = Some (set_has_stream (set_streams (<[st := greeting pending]> (streams s)) s)).
Proof.
  unfold EventStream_get, greeting. destruct pending; [|done].
  unfold EventStream_put, deliver.
  cbn [has_stream set_has_stream set_streams streams mbind option_bind].
  rewrite lookup_insert_eq.
  cbn [has_stream set_has_stream set_streams streams mbind option_bind].
  rewrite lookup_insert_eq. unfold set_streams, set_has_stream. cbn.
  by rewrite !insert_insert_eq.
Qed.

(** X16: the queues as the stations see them behave as if every station
    owned its queue by value: on a well-formed state, a put, a put to all
    and a new connection change the content of the registered queues
    exactly as they change a plain map from stations to event lists, block
    in the same states, and keep the state well formed. *)
Theorem queue_objects_refine_station_map (h : hub) (s : server) :
  hub_wf h -> agrees h s ->
  (forall st data,
     match hub_put st data h, EventStream_put st data s with
     | Some h', Some s' => agrees h' s' /\ hub_wf h'
     | None, None => True
     | _, _ => False
     end) /\
  (forall data,
     match hub_put_all data h, EventStream_put_all data s with
     | Some h', Some s' => agrees h' s' /\ hub_wf h'
     | None, None => True
     | _, _ => False
     end) /\
  (forall st pending,
     match hub_get st pending h, EventStream_get st pending s with
     | Some (h', _), Some s' => agrees h' s' /\ hub_wf h'
     | _, _ => False
     end).
Proof.
  intros Hwf [Hf Hv]. split; [|split].
  - intros st data.
    destruct (hub_put st data h) as [h'|] eqn:E.
    + pose proof (hub_put_wf _ _ _ _ Hwf E) as Hwf'.
      unfold hub_put in E. unfold EventStream_put, deliver. rewrite Hf.
      destruct (hub_flag h) eqn:Ef; [|done]. injection E as <-.
      rewrite Hv, view_lookup.
      destruct (hub_streams h !! st) as [q|] eqn:Eq; cbn [mbind option_bind].
      * destruct (lookup_lt_is_Some_2 _ _ (proj1 Hwf st q Eq)) as [l Hl]. rewrite Hl.
        split; [|done]. split; [done|]. cbn [streams set_streams].
        apply map_eq. intros st'. rewrite lookup_insert, !view_lookup.
        cbn [hub_streams hub_queues].
        destruct (decide (st = st')) as [<-|Hne].
        -- rewrite Eq. cbn. rewrite enqueue_lookup, decide_True by done. by rewrite Hl.
        -- destruct (hub_streams h !! st') as [q'|] eqn:Eq'; [|done]. cbn.
           rewrite enqueue_lookup, decide_False; [done|].
           intros ->. by apply Hne, (proj2 Hwf st st' q').
      * split; [split; [congruence|done]|done].
    + unfold hub_put in E. unfold EventStream_put. rewrite Hf.
      by destruct (hub_flag h).
  - intros data. unfold hub_put_all, EventStream_put_all. rewrite Hf.
    destruct (hub_flag h) eqn:Ef; [|done]. split.
    + split; [done|]. cbn [streams set_streams]. apply map_eq. intros st.
      rewrite lookup_fmap, Hv, !view_lookup. cbn [hub_streams hub_queues].
      destruct (hub_streams h !! st) as [q|] eqn:Eq; [|done]. cbn.
      rewrite foldr_enqueue_lookup_in; [done|by apply registered_NoDup|].
      apply registered_elem. eauto.
    + by apply (hub_put_all_wf data h); [|unfold hub_put_all; rewrite Ef].
  - intros st pending.
    destruct (hub_get st pending h) as [[h' q]|] eqn:E.
    2:{ by rewrite hub_get_eq in E. }
    destruct (hub_get_wf _ _ _ _ _ Hwf E) as (Hwf' & _).
    rewrite EventStream_get_eq. split; [|done].
    rewrite hub_get_eq in E. injection E as <- _. split; [done|].
    cbn [streams set_streams set_has_stream].
    apply map_eq. intros st'. rewrite Hv, view_lookup. cbn [hub_streams hub_queues].
    rewrite !lookup_insert.
    destruct (decide (st = st')) as [<-|Hne]; cbn.
    + by rewrite lookup_app_r, Nat.sub_diag.
    + rewrite view_lookup.
      destruct (hub_streams h !! st') as [q'|] eqn:Eq'; [|done]. cbn.
      by rewrite lookup_app_l by apply (proj1 Hwf st' q' Eq').
Qed.

Lemma agrees_boot : agrees hub_boot boot.
Proof. split; [reflexivity|]. unfold view. cbn. by rewrite omap_empty. Qed.

Lemma queue_objects_refine_station_map_witness :
  exists h1 q s1 h2 s2,
    hub_get "S1" false hub_boot = Some (h1, q) /\
    EventStream_get "S1" false boot = Some s1 /\
    hub_put "S1" CLEAR_SALE h1 = Some h2 /\
    EventStream_put "S1" CLEAR_SALE s1 = Some s2 /\
    agrees h2 s2 /\ hub_wf h2 /\
    hub_queues h2 = [[HANDSHAKE; CLEAR_SALE]] /\
    streams s2 !! "S1" = Some [HANDSHAKE; CLEAR_SALE].
Proof.
  destruct (queue_objects_refine_station_map hub_boot boot hub_wf_boot agrees_boot)
    as (_ & _ & Hget).
  specialize (Hget "S1" false).
  destruct (hub_get "S1" false hub_boot) as [[h1 q]|] eqn:E1; [|done].
  destruct (EventStream_get "S1" false boot) as [s1|] eqn:E2; [|done].
  destruct Hget as [Hag Hwf].
  destruct (queue_objects_refine_station_map h1 s1 Hwf Hag) as (Hput & _ & _).
  specialize (Hput "S1" CLEAR_SALE).
  injection E1 as <- <-. injection E2 as <-.
  destruct (hub_put "S1" CLEAR_SALE _) as [h2|] eqn:E3; [|done].
  destruct (EventStream_put "S1" CLEAR_SALE _) as [s2|] eqn:E4; [|done].
  destruct Hput as [Hag2 Hwf2].
  eexists _, _, _, h2, s2.
  split; [reflexivity|]. split; [reflexivity|]. split; [exact E3|].
  split; [exact E4|]. split; [exact Hag2|]. split; [exact Hwf2|]. split.
  - vm_compute in E3. by injection E3 as <-.
  - vm_compute in E4. injection E4 as <-. by vm_compute.
Defined.

(** ** Documents *)

Lemma list_ascii_app s1 s2 :
  String.list_ascii_of_string (s1 +:+ s2)
  = String.list_ascii_of_string s1 ++ String.list_ascii_of_string s2.
Proof. induction s1 as [|c s1 IH]; [done|]. simpl. by f_equal. Qed.

Lemma list_ascii_slice a b s :
  String.list_ascii_of_string (slice a b s) = take (b - a) (drop a (String.list_ascii_of_string s)).
Proof. unfold slice. apply String.list_ascii_of_string_of_list_ascii. Qed.

Lemma list_ascii_slice_from a s :
  String.list_ascii_of_string (slice_from a s) = drop a (String.list_ascii_of_string s).
Proof. unfold slice_from. apply String.list_ascii_of_string_of_list_ascii. Qed.

Lemma length_list_ascii s : length (String.list_ascii_of_string s) = String.length s.
Proof. induction s as [|c s IH]; [done|]. simpl. by f_equal. Qed.

Lemma filter_digits_all (l : list Ascii.ascii) :
  Forall (fun c => is_digit c = true) l -> List.filter is_digit l = l.
Proof. induction 1 as [|c l Hc _ IH]; [done|]. cbn. by rewrite Hc, IH. Qed.

Lemma list_ascii_format_cpf d :
  String.list_ascii_of_string (format_cpf d)
  = let l := String.list_ascii_of_string d in
    take 3 l ++ String.list_ascii_of_string "." ++ take 3 (drop 3 l) ++ String.list_ascii_of_string "." ++
    take 3 (drop 6 l) ++ String.list_ascii_of_string "-" ++ take 2 (drop 9 l).
Proof.
  unfold format_cpf. rewrite !list_ascii_app, !list_ascii_slice. cbn [Nat.sub drop].
  rewrite <- ?app_assoc. done.
Qed.

Lemma list_ascii_format_cnpj d :
  String.list_ascii_of_string (format_cnpj d)
  = let l := String.list_ascii_of_string d in
    take 2 l ++ String.list_ascii_of_string "." ++ take 3 (drop 2 l) ++ String.list_ascii_of_string "." ++
    take 3 (drop 5 l) ++ String.list_ascii_of_string "/" ++ take 4 (drop 8 l) ++
    String.list_ascii_of_string "-" ++ drop 12 l.
Proof.
  unfold format_cnpj.
  rewrite !list_ascii_app, !list_ascii_slice, list_ascii_slice_from. cbn [Nat.sub drop].
  rewrite <- ?app_assoc. done.
Qed.

Lemma cpf_pieces (l : list Ascii.ascii) :
  take 3 l ++ take 3 (drop 3 l) ++ take 3 (drop 6 l) ++ take 2 (drop 9 l) = take 11 l.
Proof.
  rewrite (app_assoc (take 3 l)), (take_take_drop l 3 3). cbn [Nat.add].
  rewrite (app_assoc (take 6 l)), (take_take_drop l 6 3). cbn [Nat.add].
  by rewrite (take_take_drop l 9 2).
Qed.

Lemma cnpj_pieces (l : list Ascii.ascii) :
  take 2 l ++ take 3 (drop 2 l) ++ take 3 (drop 5 l) ++ take 4 (drop 8 l) ++ drop 12 l = l.
Proof.
  rewrite (app_assoc (take 2 l)), (take_take_drop l 2 3). cbn [Nat.add].
  rewrite (app_assoc (take 5 l)), (take_take_drop l 5 3). cbn [Nat.add].
  rewrite (app_assoc (take 8 l)), (take_take_drop l 8 4). cbn [Nat.add].
  apply take_drop.
Qed.

Lemma filter_digits_piece (l : list Ascii.ascii) n m :
  Forall (fun c => is_digit c = true) l ->
  List.filter is_digit (take n (drop m l)) = take n (drop m l).
Proof. intros H. by apply filter_digits_all, Forall_take, Forall_drop. Qed.

Lemma digits_of_format_cpf d :
  all_digits d ->
  digits_of (format_cpf d)
  = String.string_of_list_ascii (take 11 (String.list_ascii_of_string d)).
Proof.
  intros Hd. unfold digits_of. rewrite list_ascii_format_cpf. cbv zeta.
  rewrite !List.filter_app. cbn [String.list_ascii_of_string List.filter is_digit].
  rewrite <- (drop_0 (String.list_ascii_of_string d)) at 1.
  rewrite !(filter_digits_piece _ _ _ Hd), drop_0.
  change (List.filter is_digit [_]) with (@nil Ascii.ascii).
  cbn [app]. by rewrite cpf_pieces.
Qed.

Lemma digits_of_format_cnpj d :
  all_digits d -> digits_of (format_cnpj d) = d.
Proof.
  intros Hd. unfold digits_of. rewrite list_ascii_format_cnpj. cbv zeta.
  rewrite !List.filter_app. cbn [String.list_ascii_of_string List.filter is_digit].
  rewrite <- (drop_0 (String.list_ascii_of_string d)) at 1.
  rewrite !(filter_digits_piece _ _ _ Hd), drop_0.
  rewrite (filter_digits_all (drop 12 _)) by by apply Forall_drop.
  cbn [app]. rewrite cnpj_pieces. apply String.string_of_list_ascii_of_string.
Qed.

Lemma length_string_of_list l : String.length (String.string_of_list_ascii l) = length l.
Proof. induction l as [|c l IH]; [done|]. simpl. by f_equal. Qed.

(** X17: [format_document] loses no digit: for a document made of digits,
    the digits of the formatted text are the document again, whatever its
    length, and the text is three characters longer for eleven digits (the
    CPF layout) and four characters longer otherwise (the CNPJ layout). *)
Theorem format_document_keeps_digits (document : string) :
  all_digits document ->
  digits_of (format_document document) = document /\
  String.length (format_document document)
  = String.length document + (if Nat.eqb (String.length document) 11 then 3 else 4).
Proof.
  intros Hd. unfold format_document.
  destruct (Nat.eqb (String.length document) 11) eqn:E.
  - apply Nat.eqb_eq in E. split.
    + rewrite (digits_of_format_cpf _ Hd), firstn_all2.
      * apply String.string_of_list_ascii_of_string.
      * rewrite length_list_ascii. lia.
    + rewrite <- (length_list_ascii (format_cpf document)), list_ascii_format_cpf.
      cbv zeta. rewrite !length_app, !length_take, !length_drop, length_list_ascii.
      cbn [String.list_ascii_of_string length]. lia.
  - split; [by apply digits_of_format_cnpj|].
    rewrite <- (length_list_ascii (format_cnpj document)), list_ascii_format_cnpj.
    cbv zeta. rewrite !length_app, !length_take, !length_drop, length_list_ascii.
    cbn [String.list_ascii_of_string length]. lia.
Qed.

Lemma digits_cnpj_example : all_digits "12345678000195".
Proof. repeat constructor. Qed.

Lemma format_document_keeps_digits_witness :
  digits_of (format_document "12345678000195") = "12345678000195" /\
  String.length (format_document "12345678000195") = 14 + 4.
Proof. exact (format_document_keeps_digits "12345678000195" digits_cnpj_example). Defined.

Example format_document_cnpj :
  format_document "12345678000195" = "12.345.678/0001-95".
Proof. reflexivity. Qed.

Example format_document_cpf : format_document "12345678909" = "123.456.789-09".
Proof. reflexivity. Qed.

(** X18: [format_cpf] keeps the first eleven digits only: for a document
    made of digits, the digits of the formatted text are the first eleven
    of the document, so a document of twelve digits or more, such as a CNPJ
    looked up by document, comes out cut, and the text never has more than
    fourteen characters. *)
Theorem format_cpf_keeps_eleven_digits (document : string) :
  all_digits document ->
  digits_of (format_cpf document) = slice 0 11 document /\
  String.length (format_cpf document) <= 14 /\
  (11 < String.length document -> digits_of (format_cpf document) <> document).
Proof.
  intros Hd. rewrite (digits_of_format_cpf _ Hd). split; [|split].
  - unfold slice. by rewrite drop_0.
  - rewrite <- (length_list_ascii (format_cpf document)), list_ascii_format_cpf.
    cbv zeta. rewrite !length_app, !length_take, !length_drop.
    cbn [String.list_ascii_of_string length]. lia.
  - intros Hlen Heq. apply (f_equal String.length) in Heq.
    rewrite length_string_of_list, length_take, length_list_ascii in Heq. lia.
Qed.

Lemma format_cpf_keeps_eleven_digits_witness :
  digits_of (format_cpf "12345678000195") = slice 0 11 "12345678000195" /\
  digits_of (format_cpf "12345678000195") <> "12345678000195".
Proof.
  destruct (format_cpf_keeps_eleven_digits "12345678000195" digits_cnpj_example)
    as (H1 & _ & H3).
  split; [exact H1 | apply H3; cbn; lia].
Defined.

(** ** Text *)

Lemma has_char_cons c x s :
  has_char c (String x s) = Ascii.eqb c x || has_char c s.
Proof. reflexivity. Qed.

Lemma str_split_plain sep s : has_char sep s = false -> str_split sep s = [s].
Proof.
  induction s as [|c s IH]; [done|]. rewrite has_char_cons. intros H.
  apply orb_false_iff in H as [Hc Hs]. simpl.
  rewrite Ascii.eqb_sym, Hc, (IH Hs). done.
Qed.

Lemma str_split_app sep a b :
  has_char sep a = false ->
  str_split sep (a +:+ String sep b) = a :: str_split sep b.
Proof.
  induction a as [|c a IH]; intros H.
  - simpl. by rewrite Ascii.eqb_refl.
  - rewrite has_char_cons in H. apply orb_false_iff in H as [Hc Ha].
    simpl. rewrite Ascii.eqb_sym, Hc, (IH Ha). done.
Qed.

Lemma str_split_nonempty sep s : str_split sep s <> [].
Proof.
  destruct s as [|c s]; simpl; [done|].
  destruct (Ascii.eqb c sep); [done|]. by destruct (str_split sep s).
Qed.

Lemma str_split_single sep s b :
  str_split sep s = [b] -> s = b /\ has_char sep b = false.
Proof.
  revert b. induction s as [|c s IH]; intros b; simpl.
  - by intros [= <-].
  - destruct (Ascii.eqb c sep) eqn:Ec.
    + intros [= _ H]. by apply str_split_nonempty in H.
    + destruct (str_split sep s) as [|p [|q ps]] eqn:E; try done.
      { by apply str_split_nonempty in E. }
      intros [= <-]. destruct (IH p eq_refl) as [-> Hp].
      split; [done|]. by rewrite has_char_cons, Ascii.eqb_sym, Ec.
Qed.

Lemma str_split_two sep s a b :
  str_split sep s = [a; b] ->
  s = a +:+ String sep b /\ has_char sep a = false /\ has_char sep b = false.
Proof.
  revert a. induction s as [|c s IH]; intros a; simpl; [done|].
  destruct (Ascii.eqb c sep) eqn:E.
  - apply Ascii.eqb_eq in E as ->. intros [= <- Hs].
    apply str_split_single in Hs as [-> Hb]. done.
  - destruct (str_split sep s) as [|p [|q [|r ps]]] eqn:Es; try done.
    intros [= <- <-]. destruct (IH p eq_refl) as (-> & Hp & Hq).
    split; [done|]. split; [|done].
    by rewrite has_char_cons, Ascii.eqb_sym, E.
Qed.

Lemma str_split_pair sep a b :
  has_char sep a = false -> has_char sep b = false ->
  str_split sep (a +:+ String sep b) = [a; b].
Proof. intros Ha Hb. by rewrite (str_split_app _ _ _ Ha), (str_split_plain _ _ Hb). Qed.

(** ** Logging out *)

Lemma truthy_PyStr s : truthy (PyStr s) = true <-> s <> "".
Proof.
  simpl. rewrite negb_true_iff. split.
  - intros H ->. by rewrite String.eqb_refl in H.
  - intros H. by apply String.eqb_neq.
Qed.

Lemma logout_of_string json_loads get_by_token request s :
  get_arg json_loads request "token" PyNone = Returned (PyStr s) ->
  s <> "" ->
  LogoutResource_post json_loads get_by_token request =
  match str_split space s with
  | [_; t] =>
      if String.eqb t "" then Aborted 401
      else if get_by_token (PyStr t) then TokenRevoked (PyStr t) else Aborted 403
  | _ => Aborted 401
  end.
Proof.
  intros Harg Hs. unfold LogoutResource_post. rewrite Harg.
  unfold and_split. rewrite (proj2 (truthy_PyStr s) Hs).
  unfold second_of_two, py_len, py_item1. rewrite length_fmap.
  destruct (str_split space s) as [|a [|t [|c l]]]; try done.
  cbn. by destruct (String.eqb t "").
Qed.

(** X19: [LogoutResource.post] revokes a token exactly when the [token]
    argument is a text of two words separated by one space, the second word
    is not empty and names a token that [AccessToken.get_by_token] finds;
    the first word, the scheme, is never looked at and may even be
    empty. *)
Theorem logout_revokes_second_word json_loads get_by_token request v :
  LogoutResource_post json_loads get_by_token request = TokenRevoked v <->
  exists scheme t,
    get_arg json_loads request "token" PyNone = Returned (PyStr (scheme +:+ " " +:+ t)) /\
    has_char space scheme = false /\ has_char space t = false /\ t <> "" /\
    v = PyStr t /\ get_by_token (PyStr t) = true.
Proof.
  split.
  - destruct (get_arg json_loads request "token" PyNone) as [token|e] eqn:Harg;
      [|by unfold LogoutResource_post; rewrite Harg].
    destruct token as [|b|z|s|l|d].
    1-3, 5-6: unfold LogoutResource_post; rewrite Harg; unfold and_split; cbn.
    + done.
    + by destruct b.
    + by destruct (Z.eqb z 0).
    + by destruct l.
    + by destruct d.
    + destruct (decide (s = "")) as [->|Hs].
      { unfold LogoutResource_post. by rewrite Harg. }
      rewrite (logout_of_string _ _ _ _ Harg Hs).
      destruct (str_split space s) as [|a [|t [|c l]]] eqn:Es; try done.
      destruct (String.eqb t "") eqn:Et; [done|].
      destruct (get_by_token (PyStr t)) eqn:Hk; [|done].
      intros [= <-]. apply str_split_two in Es as (-> & Ha & Ht).
      exists a, t. repeat split; try done. by apply String.eqb_neq.
  - intros (scheme & t & Harg & Hscheme & Ht & Hne & -> & Hk).
    rewrite (logout_of_string _ _ _ _ Harg); [|by destruct scheme].
    change (scheme +:+ " " +:+ t) with (scheme +:+ String space t).
    rewrite (str_split_pair _ _ _ Hscheme Ht), Hk.
    by rewrite (proj2 (String.eqb_neq _ _) Hne).
Qed.

Lemma logout_revokes_second_word_witness :
  LogoutResource_post no_json one_token bearer_form = TokenRevoked (PyStr "7f3a").
Proof.
  apply (proj2 (logout_revokes_second_word _ _ bearer_form (PyStr "7f3a"))).
  exists "JWT", "7f3a". repeat split; done.
Defined.

(** X20: a logout without a token does not answer 401: when the request has
    no body and neither the form nor the query names [token], or when its
    body is a non-empty JSON object without [token] (whatever the form and
    the query hold, the body hides them), [len(None)] raises [TypeError]. *)
Theorem logout_without_token_raises json_loads get_by_token request :
  (req_data request = "" /\ multi_get "token" (req_form request) = None /\
   multi_get "token" (req_args request) = None) \/
  (exists d, req_data request <> "" /\
             json_loads (req_data request) = Returned (PyDict d) /\
             d <> [] /\ assoc_get "token" d = None) ->
  LogoutResource_post json_loads get_by_token request = LogoutRaised TypeError.
Proof.
  intros [(Hd & Hf & Ha) | (d & Hd & Hj & Hne & Hk)];
    unfold LogoutResource_post, get_arg, get_json.
  - rewrite Hd. cbn. by rewrite Hf, Ha.
  - rewrite (proj2 (String.eqb_neq _ _) Hd), Hj.
    destruct d as [|kv d]; [done|]. cbn [truthy length Nat.eqb negb].
    by rewrite Hk.
Qed.

Lemma logout_without_token_raises_witness :
  LogoutResource_post user_only one_token token_in_query = LogoutRaised TypeError.
Proof.
  apply logout_without_token_raises. right.
  exists [("user", PyStr "ana")]. repeat split; done.
Defined.

(** ** The database listener *)

Lemma unpack_plain n : plain n = true -> unpack_payload (payload_of n) = Returned n.
Proof.
  destruct n as [a b]. unfold plain, payload_of, unpack_payload. cbn [fst snd].
  intros H. apply andb_true_iff in H as [Ha Hb].
  apply negb_true_iff in Ha, Hb.
  change (a +:+ "," +:+ b) with (a +:+ String comma b).
  by rewrite (str_split_pair _ _ _ Ha Hb).
Qed.

Lemma unpack_malformed payload :
  length (str_split comma payload) <> 2 -> unpack_payload payload = Raised ValueError.
Proof.
  unfold unpack_payload. by destruct (str_split comma payload) as [|a [|b [|c l]]].
Qed.

Lemma drain_plain message ns :
  forallb plain ns = true ->
  drain_notifies message (payload_of <$> ns)
  = Returned (message || existsb (fun n => in_list n.2 watch_tables) ns).
Proof.
  revert message. induction ns as [|n ns IH]; intros message H.
  - cbn. by rewrite orb_false_r.
  - cbn [forallb] in H. apply andb_true_iff in H as [Hn Hns].
    cbn [fmap list_fmap drain_notifies existsb]. rewrite (unpack_plain _ Hn).
    destruct n as [a b]. rewrite (IH _ Hns). by rewrite orb_assoc.
Qed.

Lemma drain_malformed message good bad more :
  forallb plain good = true ->
  length (str_split comma bad) <> 2 ->
  drain_notifies message ((payload_of <$> good) ++ bad :: more) = Raised ValueError.
Proof.
  revert message. induction good as [|n good IH]; intros message H Hbad.
  - cbn. by rewrite (unpack_malformed _ Hbad).
  - cbn [forallb] in H. apply andb_true_iff in H as [Hn Hgood].
    cbn [fmap list_fmap app drain_notifies]. rewrite (unpack_plain _ Hn).
    destruct n as [a b]. by apply IH.
Qed.

Lemma listen_quiet_round w rest :
  plain_round w = true -> touches_watched w = false ->
  listen_rounds false (wakeup_of w :: rest)
  = ((listen_rounds false rest).1, Select :: (listen_rounds false rest).2).
Proof.
  intros H Hq. destruct w as [ns|]; cbn [wakeup_of listen_rounds].
  - cbn [plain_round] in H. cbn [touches_watched] in Hq.
    rewrite (drain_plain _ _ H), Hq. cbn [orb].
    by destruct (listen_rounds false rest).
  - by destruct (listen_rounds false rest).
Qed.

Lemma listen_watched_round w rest :
  plain_round w = true -> touches_watched w = true ->
  listen_rounds false (wakeup_of w :: rest) = (Some TypeError, [Select]).
Proof.
  intros H Hq. destruct w as [ns|]; [|done]. cbn [wakeup_of listen_rounds].
  cbn [plain_round] in H. cbn [touches_watched] in Hq.
  by rewrite (drain_plain _ _ H), Hq.
Qed.

Lemma listen_quiet_prefix before rest :
  forallb plain_round before = true -> first_watched before = None ->
  listen_rounds false ((wakeup_of <$> before) ++ rest)
  = ((listen_rounds false rest).1,
     replicate (length before) Select ++ (listen_rounds false rest).2).
Proof.
  induction before as [|w before IH]; intros H Hq.
  - cbn. by destruct (listen_rounds false rest).
  - cbn [forallb] in H. apply andb_true_iff in H as [Hw Hb].
    cbn [first_watched] in Hq. destruct (touches_watched w) eqn:Ew; [done|].
    destruct (first_watched before) eqn:Ef; [done|].
    cbn [fmap list_fmap app]. rewrite (listen_quiet_round _ _ Hw Ew), (IH Hb eq_refl).
    done.
Qed.

Lemma listen_puts_nothing message rounds :
  List.filter is_update (listen_rounds message rounds).2 = [].
Proof.
  revert message. induction rounds as [|w rounds IH]; intros message; [done|].
  cbn [listen_rounds].
  destruct (match w with
            | TimedOut => Returned message
            | Readable notifies => drain_notifies message notifies
            end) as [[|]|e]; try done.
  specialize (IH false). by destruct (listen_rounds false rounds).
Qed.

(** X21: [_postgres_listen] never delivers an update.  When a wake-up
    names a watched table, the argument of [put_all],
    [DataResource.get_data(store)], is evaluated first and raises
    [TypeError], the method being called on the class with one argument:
    with payloads of two fields, the listener goes through the wake-ups
    that name no watched table, putting nothing, and ends with [TypeError]
    at the first one that names one; it goes on only as long as none
    does. *)
Theorem listener_ends_at_first_watched_change
    (rounds : list (option (list (string * string)))) :
  forallb plain_round rounds = true ->
  postgres_listen (wakeup_of <$> rounds)
  = match first_watched rounds with
    | Some i => (Some TypeError, replicate (S i) Select)
    | None => (None, replicate (length rounds) Select)
    end /\
  List.filter is_update (postgres_listen (wakeup_of <$> rounds)).2 = [].
Proof.
  intros H. split; [|apply listen_puts_nothing]. unfold postgres_listen.
  induction rounds as [|w rounds IH]; [done|].
  cbn [forallb] in H. apply andb_true_iff in H as [Hw Hr].
  cbn [fmap list_fmap first_watched length].
  destruct (touches_watched w) eqn:Ew.
  - by rewrite (listen_watched_round _ _ Hw Ew).
  - rewrite (listen_quiet_round _ _ Hw Ew), (IH Hr).
    by destruct (first_watched rounds).
Qed.

Lemma listener_ends_at_first_watched_change_witness :
  postgres_listen (wakeup_of <$> busy_morning) = (Some TypeError, [Select; Select; Select]) /\
  postgres_listen (wakeup_of <$> quiet_night) = (None, [Select; Select]).
Proof.
  split.
  - exact (proj1 (listener_ends_at_first_watched_change busy_morning eq_refl)).
  - exact (proj1 (listener_ends_at_first_watched_change quiet_night eq_refl)).
Defined.

(** X22: a notification whose payload does not split at commas into exactly
    two fields ends [_postgres_listen] with [ValueError]: after wake-ups
    that named no watched table, the wake-up that brought it raises at the
    unpacking, whether or not notifications read before it in the same
    wake-up named watched tables, and nothing is listened to afterwards. *)
Theorem listener_stops_at_malformed_payload
    (before : list (option (list (string * string)))) (good : list (string * string))
    (bad : string) (more : list string) (later : list wakeup) :
  forallb plain_round before = true ->
  first_watched before = None ->
  forallb plain good = true ->
  length (str_split comma bad) <> 2 ->
  postgres_listen ((wakeup_of <$> before) ++ Readable ((payload_of <$> good) ++ bad :: more) :: later)
  = (Some ValueError, replicate (S (length before)) Select).
Proof.
  intros Hb Hq Hg Hbad. unfold postgres_listen. rewrite (listen_quiet_prefix _ _ Hb Hq).
  cbn [listen_rounds]. rewrite (drain_malformed _ _ _ _ Hg Hbad). cbn [fst snd].
  by rewrite replicate_S_end.
Qed.

Lemma listener_stops_at_malformed_payload_witness :
  postgres_listen
    ((wakeup_of <$> quiet_night)
     ++ Readable ((payload_of <$> [("17", "product")]) ++ "18,sale,extra" :: ["19,branch"])
     :: [Readable ["20,product"]])
  = (Some ValueError, [Select; Select; Select]).
Proof.
  apply (listener_stops_at_malformed_payload quiet_night [("17", "product")]
           "18,sale,extra" ["19,branch"] [Readable ["20,product"]]);
    [reflexivity | reflexivity | reflexivity | vm_compute; lia].
Defined.

(** ** The SAT and pinpad pollers *)

Lemma pyval_nested_ind (P : pyval -> Prop) :
  P PyNone -> (forall b, P (PyBool b)) -> (forall z, P (PyInt z)) ->
  (forall s, P (PyStr s)) ->
  (forall l, Forall P l -> P (PyList l)) ->
  (forall d, Forall (fun kv => P kv.2) d -> P (PyDict d)) ->
  forall v, P v.
Proof.
  intros HN HB HI HS HL HD. fix IH 1. intros [|b|z|s|l|d].
  - exact HN.
  - apply HB.
  - apply HI.
  - apply HS.
  - apply HL. induction l as [|x l IHl]; constructor; [apply IH | exact IHl].
  - apply HD. induction d as [|[k x] d IHd]; constructor; [apply IH | exact IHd].
Qed.

Lemma assoc_get_distinct k v (d : list (string * pyval)) :
  NoDup d.*1 -> In (k, v) d -> assoc_get k d = Some v.
Proof.
  induction d as [|[k' v'] d IH]; [done|]. cbn [fmap list_fmap fst].
  intros Hnd [Hin|Hin]; apply NoDup_cons in Hnd as [Hk Hnd]; cbn [assoc_get].
  - injection Hin as -> ->. by rewrite String.eqb_refl.
  - destruct (String.eqb k k') eqn:E; [|by apply IH].
    apply String.eqb_eq in E as ->. exfalso. apply Hk.
    apply list_elem_of_fmap. exists (k', v). split; [done|]. by apply list_elem_of_In.
Qed.

Lemma py_eq_refl v : distinct_keys v = true -> py_eq v v = true.
Proof.
  induction v as [|b|z|s|l IH|d IH] using pyval_nested_ind; cbn [py_eq distinct_keys]; intros H.
  - done.
  - by destruct b.
  - apply Z.eqb_refl.
  - apply String.eqb_refl.
  - induction IH as [|x l Hx _ IHl]; [done|]. cbn [forallb] in H.
    apply andb_true_iff in H as [H1 H2]. cbn [items_eq]. by rewrite (Hx H1), (IHl H2).
  - apply andb_true_iff in H as [Hnd Hall]. apply bool_decide_eq_true in Hnd.
    rewrite Nat.eqb_refl. cbn [andb]. apply forallb_forall. intros [k v] Hin.
    cbn [fst snd]. rewrite (assoc_get_distinct _ _ _ Hnd Hin).
    rewrite Forall_forall in IH. apply (IH (k, v)); [by apply list_elem_of_In|].
    rewrite forallb_forall in Hall. by apply (Hall (k, v)).
Qed.

Lemma poller_puts_app a b : poller_puts (a ++ b) = poller_puts a ++ poller_puts b.
Proof. apply List.filter_app. Qed.

Lemma statuses_app a b : statuses (a ++ b) = statuses a ++ statuses b.
Proof. apply omap_app. Qed.

Lemma check_sat_sound r v :
  sound_round r = true -> check_sat r = Some v -> distinct_keys v = true.
Proof.
  destruct r as [|[|x l]]; cbn; try done.
  - by intros _ [= <-].
  - intros H [= <-]. by apply andb_true_iff in H as [H _].
Qed.

Lemma check_pinpad_sound r v :
  sound_round r = true -> check_pinpad r = Some v -> distinct_keys v = true.
Proof.
  destruct r as [|[|x l]]; cbn; try done.
  - by intros _ [= <-].
  - intros H [= <-]. by apply andb_true_iff in H as [H _].
Qed.

Section Rounds.

Variable check : poller_round -> option pyval.
Variables (device : string) (period : nat) (station : string).
Hypothesis check_busy : check LockBusy = None.
Hypothesis check_sound :
  forall r v, sound_round r = true -> check r = Some v -> distinct_keys v = true.

Lemma status_rounds_skip_busy ok rounds :
  py_eq ok ok = true ->
  forallb sound_round rounds = true ->
  poller_puts (status_rounds check device period station ok rounds)
  = poller_puts (status_rounds check device period station ok (List.filter is_free rounds)).
Proof.
  revert ok. induction rounds as [|r rounds IH]; intros ok Hok H; [done|].
  cbn [forallb] in H. apply andb_true_iff in H as [Hr Hrs].
  destruct r as [|values].
  - cbn [List.filter is_free status_rounds]. rewrite check_busy.
    unfold status_round. rewrite Hok. cbn [negb]. rewrite poller_puts_app.
    cbn. by apply IH.
  - cbn [List.filter is_free status_rounds].
    destruct (check (Replies values)) as [v|] eqn:Ec.
    + unfold status_round. destruct (negb (py_eq ok v)); rewrite !poller_puts_app;
        f_equal; apply IH; try done.
      apply py_eq_refl. by apply (check_sound _ _ Hr Ec).
    + unfold status_round. rewrite Hok. cbn [negb]. rewrite !poller_puts_app.
      f_equal. by apply IH.
Qed.

End Rounds.

Section Edges.

Variable check : poller_round -> option pyval.
Variables (device : string) (period : nat) (station : string).
Hypothesis check_sound :
  forall r v, sound_round r = true -> check r = Some v -> distinct_keys v = true.

Lemma status_rounds_edges ok rounds :
  py_eq ok ok = true ->
  forallb sound_round rounds = true ->
  edges ok (statuses (status_rounds check device period station ok rounds)) = true /\
  Forall (fun v => exists r, In r rounds /\ check r = Some v)
         (statuses (status_rounds check device period station ok rounds)).
Proof.
  revert ok. induction rounds as [|r rounds IH]; intros ok Hok H; [by split|].
  cbn [forallb] in H. apply andb_true_iff in H as [Hr Hrs].
  cbn [status_rounds]. unfold status_round.
  destruct (check r) as [v|] eqn:Ec.
  - destruct (py_eq ok v) eqn:E; cbn [negb]; rewrite statuses_app.
    + destruct (IH ok Hok Hrs) as [H1 H2]. split; [done|].
      eapply Forall_impl; [exact H2|]. intros w (r' & Hin & Hr'). exists r'. split; [by right|done].
    + destruct (IH v (py_eq_refl _ (check_sound _ _ Hr Ec)) Hrs) as [H1 H2]. split.
      * cbn. by rewrite E, H1.
      * cbn. constructor; [exists r; split; [by left|done]|].
        eapply Forall_impl; [exact H2|]. intros w (r' & Hin & Hr'). exists r'.
        split; [by right|done].
  - rewrite Hok. cbn [negb]. rewrite statuses_app.
    destruct (IH ok Hok Hrs) as [H1 H2]. split; [done|].
    eapply Forall_impl; [exact H2|]. intros w (r' & Hin & Hr'). exists r'. split; [by right|done].
Qed.

End Edges.

(** X23: a round in which the device lock is held by somebody else is
    invisible to the front end: the SAT poller and the pinpad poller put
    exactly the events they would have put had those rounds not happened,
    the reading of the next round being compared with the last one
    taken. *)
Theorem busy_rounds_put_nothing (n_receivers : nat) (station : string)
    (rounds : list poller_round) :
  forallb sound_round rounds = true ->
  poller_puts (check_sat_loop n_receivers station rounds)
  = poller_puts (check_sat_loop n_receivers station (List.filter is_free rounds)) /\
  poller_puts (check_pinpad_loop station rounds)
  = poller_puts (check_pinpad_loop station (List.filter is_free rounds)).
Proof.
  intros H. split.
  - unfold check_sat_loop. destruct (Nat.eqb n_receivers 0); [done|].
    apply status_rounds_skip_busy; try done. apply check_sat_sound.
  - unfold check_pinpad_loop.
    apply status_rounds_skip_busy; try done. apply check_pinpad_sound.
Qed.

Lemma busy_rounds_put_nothing_witness :
  poller_puts (check_pinpad_loop "till-1" pinpad_morning)
  = [PollerPut "till-1" (DEVICE_STATUS_CHANGED "pinpad" (PyBool true));
     PollerPut "till-1" (DEVICE_STATUS_CHANGED "pinpad" (PyBool false))].
Proof.
  rewrite (proj2 (busy_rounds_put_nothing 1 "till-1" pinpad_morning eq_refl)).
  reflexivity.
Defined.

(** X24: the SAT and pinpad pollers are edge triggered: every status they
    put is what the probe returned in some round with the lock free, the
    first differs from the initial -1 and each differs (by Python's [!=])
    from the status put before it. *)
Theorem poller_statuses_are_changes (n_receivers : nat) (station : string)
    (rounds : list poller_round) :
  forallb sound_round rounds = true ->
  (edges (PyInt (-1)) (statuses (check_sat_loop n_receivers station rounds)) = true /\
   Forall (fun v => exists r, In r rounds /\ check_sat r = Some v)
          (statuses (check_sat_loop n_receivers station rounds))) /\
  (edges (PyInt (-1)) (statuses (check_pinpad_loop station rounds)) = true /\
   Forall (fun v => exists r, In r rounds /\ check_pinpad r = Some v)
          (statuses (check_pinpad_loop station rounds))).
Proof.
  intros H. split.
  - unfold check_sat_loop. destruct (Nat.eqb n_receivers 0); [by split|].
    apply status_rounds_edges; try done. apply check_sat_sound.
  - unfold check_pinpad_loop.
    apply status_rounds_edges; try done. apply check_pinpad_sound.
Qed.

Lemma poller_statuses_are_changes_witness :
  edges (PyInt (-1)) (statuses (check_pinpad_loop "till-1" pinpad_morning)) = true.
Proof.
  exact (proj1 (proj2 (poller_statuses_are_changes 1 "till-1" pinpad_morning eq_refl))).
Defined.

Lemma pinpad_without_receivers station ok rounds :
  py_eq ok (PyList []) = true ->
  Forall (fun r => r = LockBusy \/ r = Replies []) rounds ->
  py_eq ok ok = true ->
  poller_puts (status_rounds check_pinpad "pinpad" 60 station ok rounds) = [].
Proof.
  intros Hok H Hrefl. induction H as [|r rounds [->| ->] _ IH]; [done| |];
    cbn [status_rounds check_pinpad lock_pinpad_nonblocking first_reply];
    unfold status_round.
  - rewrite Hrefl. cbn [negb]. by rewrite poller_puts_app, IH.
  - rewrite Hok. cbn [negb]. by rewrite poller_puts_app, IH.
Qed.

(** X25: with no plug-in answering the status signal the two pollers
    differ: the SAT poller, started without receivers, ends at once and
    never puts anything, whereas the pinpad poller puts exactly one
    DEVICE_STATUS_CHANGED for the pinpad, whose status is the empty list
    that [send()] returned, in the first round in which it gets the lock,
    and nothing after it. *)
Theorem pollers_without_receivers (station : string) (rounds : list poller_round) :
  Forall (fun r => r = LockBusy \/ r = Replies []) rounds ->
  check_sat_loop 0 station rounds = [] /\
  poller_puts (check_pinpad_loop station rounds)
  = if existsb is_free rounds
    then [PollerPut station (DEVICE_STATUS_CHANGED "pinpad" (PyList []))]
    else [].
Proof.
  intros H. split; [done|]. unfold check_pinpad_loop.
  induction H as [|r rounds [->| ->] Hrs IH]; [done| |];
    cbn [status_rounds check_pinpad lock_pinpad_nonblocking first_reply existsb is_free orb];
    unfold status_round.
  - cbn [py_eq Z.eqb Pos.eqb negb]. by rewrite poller_puts_app, IH.
  - cbn [py_eq negb]. rewrite poller_puts_app.
    by rewrite (pinpad_without_receivers station (PyList []) rounds).
Qed.

Lemma pollers_without_receivers_witness :
  poller_puts (check_pinpad_loop "till-1" [LockBusy; Replies []; Replies []; LockBusy])
  = [PollerPut "till-1" (DEVICE_STATUS_CHANGED "pinpad" (PyList []))].
Proof.
  refine (proj2 (pollers_without_receivers "till-1"
                   [LockBusy; Replies []; Replies []; LockBusy] _)).
  repeat (constructor; [first [left; reflexivity | right; reflexivity]|]).
  constructor.
Defined.

(** ** The daily till report *)

Lemma wait_time_bounds now :
  (6 * hour_us < wait_time now <= 30 * hour_us)%Z /\
  Z.max (60 * second_us) (wait_time now) = wait_time now /\
  (now + wait_time now = (day_of now + 1) * day_us + 6 * hour_us)%Z.
Proof.
  unfold wait_time, update_time, day_of, hour_us, day_us, second_us.
  pose proof (Z.div_mod now (86400 * 1000000) ltac:(lia)) as Hdm.
  pose proof (Z.mod_pos_bound now (86400 * 1000000) ltac:(lia)) as Hb.
  lia.
Qed.

Lemma next_report now l :
  (0 <= l < 18 * hour_us)%Z ->
  let after := (now + Z.max (60 * second_us) (wait_time now) + l)%Z in
  day_of after = (day_of now + 1)%Z /\ time_of_day after = (6 * hour_us + l)%Z.
Proof.
  intros Hl after. subst after.
  destruct (wait_time_bounds now) as (_ & -> & E). rewrite E.
  unfold day_of, time_of_day, hour_us, day_us, second_us in *.
  split.
  - symmetry. apply (Z.div_unique_pos _ _ _ (6 * (3600 * 1000000) + l)); lia.
  - symmetry. apply (Z.mod_unique_pos _ _ (now / (86400 * 1000000) + 1)); lia.
Qed.

Lemma reports_cons_sleep now us tr : reports ((now, TillSleep us) :: tr) = reports tr.
Proof. reflexivity. Qed.

Lemma reports_cons_put t station status tr :
  reports ((t, PutCheckTill station status) :: tr) = t :: reports tr.
Proof. reflexivity. Qed.

(** X26: [inform_till_status] reports once per calendar day, from the day
    after its start: as long as the station has a till and each pass is
    less than eighteen hours late, the k-th report (counting from 0) is put
    on day k+1 after the day the worker started, at or after 06:00, and
    every sleep is longer than six hours and at most thirty, so that the
    floor of 60 seconds never applies. *)
Theorem till_report_once_a_day (station : string) (now : Z) (passes : list till_pass) :
  Forall (fun p => (0 <= lag p < 18 * hour_us)%Z /\ last_till p <> None) passes ->
  (inform_till_status station now passes).1 = None /\
  length (reports (inform_till_status station now passes).2) = length passes /\
  (forall (k : nat) (t : Z),
     reports (inform_till_status station now passes).2 !! k = Some t ->
     day_of t = (day_of now + Z.of_nat k + 1)%Z /\ (6 * hour_us <= time_of_day t)%Z) /\
  Forall (fun us => (6 * hour_us < us <= 30 * hour_us)%Z)
         (slept (inform_till_status station now passes).2).
Proof.
  unfold inform_till_status. intros H. revert now.
  induction H as [|p passes [Hl Ht] _ IH]; intros now.
  - repeat split; try done.
  - cbn [till_passes]. destruct (last_till p) as [status|]; [|done].
    set (after := (now + Z.max (60 * second_us) (wait_time now) + lag p)%Z).
    destruct (IH after) as (H1 & H2 & H3 & H4).
    destruct (till_passes station after passes) as [x tr]. cbn [fst snd] in *.
    destruct (next_report now (lag p) Hl) as [Hd Htd]. fold after in Hd, Htd.
    rewrite reports_cons_sleep, reports_cons_put.
    split; [done|]. split; [by cbn; rewrite H2|]. split.
    + intros [|k] t; cbn.
      * intros [= <-]. rewrite Hd, Htd. lia.
      * intros Hk. destruct (H3 k t Hk) as [E1 E2]. rewrite E1, Hd. lia.
    + cbn. constructor; [|done].
      destruct (wait_time_bounds now) as (Hb & -> & _). done.
Qed.

Lemma three_days_on_time :
  Forall (fun p => (0 <= lag p < 18 * hour_us)%Z /\ last_till p <> None) three_days.
Proof. repeat constructor; cbn; try lia; done. Qed.

Lemma till_report_once_a_day_witness :
  reports (inform_till_status "till-1" started_before_six three_days).2 !! 0%nat
  = Some (30 * hour_us + 2 * second_us)%Z /\
  day_of (30 * hour_us + 2 * second_us) = 1%Z.
Proof.
  split; [reflexivity|].
  destruct (till_report_once_a_day "till-1" started_before_six three_days
              three_days_on_time) as (_ & _ & H & _).
  exact (proj1 (H 0%nat _ eq_refl)).
Defined.

Lemma till_passes_app station now before rest :
  Forall (fun p => last_till p <> None) before ->
  exists after,
    till_passes station now (before ++ rest)
    = ((till_passes station after rest).1,
       (till_passes station now before).2 ++ (till_passes station after rest).2).
Proof.
  intros H. revert now. induction H as [|p before Hp _ IH]; intros now.
  - exists now. cbn. by destruct (till_passes station now rest).
  - cbn [app till_passes]. destruct (last_till p) as [status|]; [|done].
    set (after := (now + Z.max (60 * second_us) (wait_time now) + lag p)%Z).
    destruct (IH after) as (after' & ->). exists after'.
    by destruct (till_passes station after before).
Qed.

(** X27: a station without any till ends [inform_till_status]: in the first
    pass in which [Till.get_last] finds nothing the worker sleeps until the
    morning and then raises [AttributeError] instead of reporting, so the
    reports put are those of the passes before, and the passes after it
    never happen. *)
Theorem till_report_ends_without_till (station : string) (now : Z)
    (before : list till_pass) (p : till_pass) (later : list till_pass) :
  Forall (fun q => last_till q <> None) before ->
  last_till p = None ->
  (inform_till_status station now (before ++ p :: later)).1 = Some AttributeError /\
  reports (inform_till_status station now (before ++ p :: later)).2
  = reports (inform_till_status station now before).2 /\
  length (slept (inform_till_status station now (before ++ p :: later)).2)
  = S (length before).
Proof.
  unfold inform_till_status. intros Hb Hp.
  destruct (till_passes_app station now before (p :: later) Hb) as (after & ->).
  cbn [till_passes fst snd]. rewrite Hp. cbn [fst snd].
  split; [done|]. unfold reports, slept. rewrite !omap_app. cbn.
  rewrite app_nil_r. split; [done|]. rewrite length_app. cbn.
  clear -Hb. revert now. induction Hb as [|q before Hq _ IH]; intros now; [done|].
  cbn [till_passes]. destruct (last_till q) as [status|]; [|done].
  specialize (IH (now + Z.max (60 * second_us) (wait_time now) + lag q)%Z).
  destruct (till_passes station _ before) as [x tr]. cbn in *. lia.
Qed.

Lemma till_report_ends_without_till_witness :
  (inform_till_status "till-1" started_before_six (three_days ++ no_till_yet :: three_days)).1
  = Some AttributeError /\
  length (reports (inform_till_status "till-1" started_before_six
                     (three_days ++ no_till_yet :: three_days)).2) = 3%nat.
Proof.
  destruct (till_report_ends_without_till "till-1" started_before_six three_days
              no_till_yet three_days) as (H1 & H2 & _).
  - repeat constructor; done.
  - reflexivity.
  - split; [exact H1|]. rewrite H2. reflexivity.
Defined.

(** ** The category tree *)

Lemma setdefault_dict_lookup k (m : gmap string cat_dict) j :
  setdefault_dict k m !! j
  = if decide (k = j) then Some (default empty_dict (m !! k)) else m !! j.
Proof.
  unfold setdefault_dict. destruct (m !! k) as [d|] eqn:E.
  - case_decide; [by subst; rewrite E|done].
  - rewrite lookup_insert. by case_decide.
Qed.

Ltac decide_all :=
  repeat first [rewrite decide_True by congruence | rewrite decide_False by congruence].

Section CategoryRounds.

Variable products_of : category -> list pyval.

Lemma add_category_root s c :
  categories_root (add_category products_of s c)
  = categories_root s ++ (if is_root c then [inl (cat_id c)] else []).
Proof.
  unfold add_category, is_root. destruct (cat_parent c); cbn; [by rewrite app_nil_r|done].
Qed.

Lemma add_category_children p s c :
  children_of p (add_category products_of s c)
  = children_of p s ++ (if is_child_of p c then [cat_id c] else []).
Proof.
  unfold children_of, add_category, is_child_of. cbn [aux].
  destruct (cat_parent c) as [q|].
  - rewrite !lookup_alter, !setdefault_dict_lookup, !lookup_alter, !setdefault_dict_lookup.
    destruct (String.eqb q p) eqn:Eq.
    + apply String.eqb_eq in Eq. subst q.
      destruct (decide (cat_id c = p)) as [E|E].
      * rewrite E. decide_all. by destruct (aux s !! p) as [[e [k|] pr]|].
      * decide_all. by destruct (aux s !! p) as [[e [k|] pr]|].
    + apply String.eqb_neq in Eq. rewrite app_nil_r.
      destruct (decide (cat_id c = p)) as [E|E].
      * rewrite E. decide_all. by destruct (aux s !! p) as [[e [k|] pr]|].
      * by decide_all.
  - rewrite !lookup_alter, !setdefault_dict_lookup. rewrite app_nil_r.
    destruct (decide (cat_id c = p)) as [E|E].
    + rewrite E. decide_all. by destruct (aux s !! p) as [[e [k|] pr]|].
    + by decide_all.
Qed.

Lemma add_category_entry i s c :
  aux (add_category products_of s c) !! i ≫= n_entry
  = if decide (i = cat_id c) then Some (cat_id c, cat_description c)
    else aux s !! i ≫= n_entry.
Proof.
  unfold add_category. cbn [aux]. destruct (cat_parent c) as [q|].
  - rewrite !lookup_alter, !setdefault_dict_lookup, !lookup_alter, !setdefault_dict_lookup.
    destruct (decide (i = cat_id c)) as [E|E].
    + rewrite <- E. decide_all.
      destruct (decide (q = i)) as [Eq|Eq]; [rewrite ?Eq|]; decide_all;
        destruct (aux s !! i) as [[e [k|] pr]|]; cbn; congruence.
    + decide_all. destruct (decide (q = i)) as [Eq|Eq]; [rewrite ?Eq|]; decide_all;
        [|done]. destruct (aux s !! i) as [[e [k|] pr]|]; cbn; congruence.
  - rewrite !lookup_alter, !setdefault_dict_lookup.
    destruct (decide (i = cat_id c)) as [E|E].
    + rewrite <- E. decide_all. destruct (aux s !! i) as [[e [k|] pr]|]; cbn; congruence.
    + by decide_all.
Qed.

Lemma add_category_products i s c :
  aux (add_category products_of s c) !! i ≫= n_products
  = if decide (i = cat_id c)
    then Some (default [] (aux s !! i ≫= n_products) ++ products_of c)
    else aux s !! i ≫= n_products.
Proof.
  unfold add_category. cbn [aux]. destruct (cat_parent c) as [q|].
  - rewrite !lookup_alter, !setdefault_dict_lookup, !lookup_alter, !setdefault_dict_lookup.
    destruct (decide (i = cat_id c)) as [E|E].
    + rewrite <- E. decide_all.
      destruct (decide (q = i)) as [Eq|Eq]; [rewrite ?Eq|]; decide_all;
        by destruct (aux s !! i) as [[e [k|] [pr|]]|].
    + decide_all. destruct (decide (q = i)) as [Eq|Eq]; [rewrite ?Eq|]; decide_all;
        [|done]. by destruct (aux s !! i) as [[e [k|] pr]|].
  - rewrite !lookup_alter, !setdefault_dict_lookup.
    destruct (decide (i = cat_id c)) as [E|E].
    + rewrite <- E. decide_all. by destruct (aux s !! i) as [[e [k|] [pr|]]|].
    + by decide_all.
Qed.

Lemma add_category_has_children i s c :
  i = cat_id c \/ is_Some (aux s !! i ≫= n_children) ->
  is_Some (aux (add_category products_of s c) !! i ≫= n_children).
Proof.
  unfold add_category. cbn [aux]. intros H. destruct (cat_parent c) as [q|].
  - rewrite !lookup_alter, !setdefault_dict_lookup, !lookup_alter, !setdefault_dict_lookup.
    destruct (decide (i = cat_id c)) as [E|E].
    + rewrite <- E. decide_all.
      destruct (decide (q = i)) as [Eq|Eq]; [rewrite ?Eq|]; decide_all;
        by destruct (aux s !! i) as [[e [k|] pr]|].
    + destruct H as [H|H]; [done|]. decide_all.
      destruct (decide (q = i)) as [Eq|Eq]; [rewrite ?Eq|]; decide_all; [|done].
      by destruct (aux s !! i) as [[e [k|] pr]|].
  - rewrite !lookup_alter, !setdefault_dict_lookup.
    destruct (decide (i = cat_id c)) as [E|E].
    + rewrite <- E. decide_all. by destruct (aux s !! i) as [[e [k|] pr]|].
    + destruct H as [H|H]; [done|]. by decide_all.
Qed.

Lemma categories_fold_root s rows :
  categories_root (foldl (add_category products_of) s rows)
  = categories_root s ++ (inl <$> (cat_id <$> List.filter is_root rows)).
Proof.
  revert s. induction rows as [|c rows IH]; intros s; [by rewrite app_nil_r|].
  cbn [foldl List.filter]. rewrite IH, add_category_root.
  destruct (is_root c); cbn; by rewrite <- ?app_assoc, ?app_nil_r.
Qed.

Lemma categories_fold_children p s rows :
  children_of p (foldl (add_category products_of) s rows)
  = children_of p s ++ (cat_id <$> List.filter (is_child_of p) rows).
Proof.
  revert s. induction rows as [|c rows IH]; intros s; [by rewrite app_nil_r|].
  cbn [foldl List.filter]. rewrite IH, add_category_children.
  destruct (is_child_of p c); cbn; by rewrite <- ?app_assoc, ?app_nil_r.
Qed.

Lemma categories_fold_other i s rows :
  ~ In i (cat_id <$> rows) ->
  aux (foldl (add_category products_of) s rows) !! i ≫= n_entry = aux s !! i ≫= n_entry /\
  aux (foldl (add_category products_of) s rows) !! i ≫= n_products
  = aux s !! i ≫= n_products.
Proof.
  revert s. induction rows as [|c rows IH]; intros s Hi; [done|].
  cbn [foldl]. cbn in Hi. destruct (IH (add_category products_of s c)) as [-> ->]; [tauto|].
  rewrite add_category_entry, add_category_products.
  rewrite !decide_False by (intros ->; tauto). done.
Qed.

Lemma categories_fold_has_children i s rows :
  is_Some (aux s !! i ≫= n_children) ->
  is_Some (aux (foldl (add_category products_of) s rows) !! i ≫= n_children).
Proof.
  revert s. induction rows as [|c rows IH]; intros s H; [done|].
  cbn [foldl]. apply IH, add_category_has_children. by right.
Qed.

Lemma categories_fold_row s before c after :
  ~ In (cat_id c) (cat_id <$> before) ->
  ~ In (cat_id c) (cat_id <$> after) ->
  aux s !! cat_id c ≫= n_products = None ->
  let r := foldl (add_category products_of) s (before ++ c :: after) in
  aux r !! cat_id c
  = Some {| n_entry := Some (cat_id c, cat_description c);
            n_children := Some (children_of (cat_id c) r);
            n_products := Some (products_of c) |}.
Proof.
  intros Hb Ha Hs r. subst r. rewrite foldl_app. cbn [foldl].
  set (s1 := foldl (add_category products_of) s before).
  set (s2 := add_category products_of s1 c).
  set (r := foldl (add_category products_of) s2 after).
  pose proof (categories_fold_other (cat_id c) s2 after Ha) as [He Hp]. fold r in He, Hp.
  pose proof (categories_fold_other (cat_id c) s before Hb) as [_ Hp1]. fold s1 in Hp1.
  pose proof (categories_fold_has_children (cat_id c) s2 after
                (add_category_has_children _ s1 c (or_introl eq_refl))) as Hk. fold r in Hk.
  unfold s2 in He, Hp. rewrite add_category_entry in He.
  rewrite add_category_products in Hp. rewrite decide_True in He by done.
  rewrite decide_True in Hp by done.
  rewrite Hp1, Hs in Hp. cbn in Hp. unfold children_of.
  destruct (aux r !! cat_id c) as [[e k pr]|]; cbn in *; [|done].
  destruct Hk as [k' ->]. by subst.
Qed.

End CategoryRounds.

Lemma In_fmap_filter {A B} (f : A -> B) (P : A -> bool) (l : list A) (y : B) :
  In y (f <$> List.filter P l) <-> exists x, In x l /\ P x = true /\ f x = y.
Proof.
  rewrite <- list_elem_of_In, list_elem_of_fmap. split.
  - intros (x & -> & Hx). apply list_elem_of_In, filter_In in Hx as [H1 H2]. by exists x.
  - intros (x & H1 & H2 & <-). exists x. split; [done|].
    apply list_elem_of_In, filter_In. done.
Qed.

Lemma NoDup_fmap_eq {A B} (f : A -> B) (l : list A) (x y : A) :
  NoDup (f <$> l) -> In x l -> In y l -> f x = f y -> x = y.
Proof.
  induction l as [|a l IH]; [done|]. cbn [fmap list_fmap].
  intros Hnd. apply NoDup_cons in Hnd as [Ha Hnd].
  intros [->|Hx] [->|Hy] E; try done.
  - exfalso. apply Ha. rewrite E. apply list_elem_of_fmap. exists y.
    split; [done|]. by apply list_elem_of_In.
  - exfalso. apply Ha. rewrite <- E. apply list_elem_of_fmap. exists x.
    split; [done|]. by apply list_elem_of_In.
  - by apply IH.
Qed.

(** X28: [_get_categories] hangs every category under its parent whatever
    the order of the rows: the list returned holds the categories without
    parent, in row order, followed by the plug-ins' values; the children of
    any dict are the categories whose [category_id] is its id, in row order,
    whether their rows came before or after the parent's; and, ids being
    unique, the dict of a category holds its id, its description, that
    list of children and its products. *)
Theorem categories_hang_under_their_parent (products_of : category -> list pyval)
    (rows : list category) (responses : list pyval) :
  let r := get_categories products_of rows responses in
  categories_root r
  = (inl <$> (cat_id <$> List.filter is_root rows)) ++ (inr <$> responses) /\
  (forall p, children_of p r = cat_id <$> List.filter (is_child_of p) rows) /\
  (NoDup (cat_id <$> rows) ->
   forall c, In c rows ->
     aux r !! cat_id c
     = Some {| n_entry := Some (cat_id c, cat_description c);
               n_children := Some (cat_id <$> List.filter (is_child_of (cat_id c)) rows);
               n_products := Some (products_of c) |}).
Proof.
  intros r. subst r. unfold get_categories.
  assert (Hk : forall p, children_of p
                 {| categories_root :=
                      categories_root (foldl (add_category products_of)
                                         {| categories_root := []; aux := ∅ |} rows)
                      ++ (inr <$> responses);
                    aux := aux (foldl (add_category products_of)
                                  {| categories_root := []; aux := ∅ |} rows) |}
                 = cat_id <$> List.filter (is_child_of p) rows).
  { intros p. pose proof (categories_fold_children products_of p
                            {| categories_root := []; aux := ∅ |} rows) as H.
    unfold children_of in *. cbn [aux] in *. by rewrite H, lookup_empty. }
  split; [|split].
  - cbn [categories_root]. by rewrite categories_fold_root.
  - exact Hk.
  - intros Hnd c Hc. cbn [aux]. rewrite <- Hk. unfold children_of at 1. cbn [aux].
    apply in_split in Hc as (before & after & ->).
    rewrite fmap_app in Hnd. cbn [fmap list_fmap] in Hnd.
    apply NoDup_app in Hnd as (_ & Hd & Hnd). apply NoDup_cons in Hnd as [Ha _].
    apply (categories_fold_row products_of).
    + intros Hin. apply (Hd (cat_id c)); [by apply list_elem_of_In|left].
    + intros Hin. apply Ha. by apply list_elem_of_In.
    + cbn [aux]. by rewrite lookup_empty.
Qed.

Lemma categories_hang_under_their_parent_witness :
  children_of "c-drinks" (get_categories no_products menu []) = ["c-soda"; "c-juice"] /\
  categories_root (get_categories no_products menu []) = [inl "c-drinks"].
Proof.
  destruct (categories_hang_under_their_parent no_products menu []) as (H1 & H2 & _).
  split; [exact (H2 "c-drinks") | exact H1].
Defined.

Lemma reachable_is_row products_of rows responses i :
  reachable (get_categories products_of rows responses) i ->
  exists c, In c rows /\ cat_id c = i /\
            (cat_parent c = None \/
             exists p, cat_parent c = Some p /\
                       reachable (get_categories products_of rows responses) p).
Proof.
  destruct (categories_hang_under_their_parent products_of rows responses) as (Hr & Hk & _).
  intros [j Hj | p j Hp Hj].
  - rewrite Hr in Hj. apply in_app_or in Hj as [Hj|Hj].
    + apply list_elem_of_In, list_elem_of_fmap in Hj as (y & [= <-] & Hy).
      apply list_elem_of_In, In_fmap_filter in Hy as (c & Hc & Hroot & <-).
      exists c. repeat split; try done. left. unfold is_root in Hroot.
      by destruct (cat_parent c).
    + by apply list_elem_of_In, list_elem_of_fmap in Hj as (y & ? & _).
  - rewrite Hk in Hj. apply In_fmap_filter in Hj as (c & Hc & Hchild & <-).
    exists c. repeat split; try done. right. exists p. split; [|done].
    unfold is_child_of in Hchild. destruct (cat_parent c) as [q|]; [|done].
    by apply String.eqb_eq in Hchild as ->.
Qed.

(** X29: a category whose parent is not among the rows is left out of what
    [_get_categories] returns: its dict hangs under a dict made for the
    missing parent, which is in no list, so that nothing in the returned
    list leads to it. *)
Theorem orphan_categories_are_left_out (products_of : category -> list pyval)
    (rows : list category) (responses : list pyval) (c : category) (p : string) :
  NoDup (cat_id <$> rows) ->
  In c rows ->
  cat_parent c = Some p ->
  ~ In p (cat_id <$> rows) ->
  ~ reachable (get_categories products_of rows responses) (cat_id c).
Proof.
  intros Hnd Hc Hp Hno Hreach.
  apply reachable_is_row in Hreach as (c' & Hc' & Hid & Hcase).
  assert (c' = c) as -> by by apply (NoDup_fmap_eq cat_id rows).
  destruct Hcase as [Hroot | (q & Hq & Hreach)]; [congruence|].
  assert (q = p) as -> by congruence.
  apply reachable_is_row in Hreach as (c'' & Hc'' & Hid'' & _).
  apply Hno. rewrite <- Hid''. apply list_elem_of_In, list_elem_of_fmap.
  exists c''. split; [done|]. by apply list_elem_of_In.
Qed.

Lemma menu_ids_distinct : NoDup (cat_id <$> menu).
Proof. apply (bool_decide_unpack _). by vm_compute. Qed.

Lemma orphan_categories_are_left_out_witness :
  ~ reachable (get_categories no_products menu []) "c-lost".
Proof.
  apply (orphan_categories_are_left_out no_products menu []
           {| cat_id := "c-lost"; cat_description := "Lost"; cat_parent := Some "c-gone" |}
           "c-gone" menu_ids_distinct).
  - cbn. tauto.
  - reflexivity.
  - cbn. intros [H|[H|[H|[H|[]]]]]; discriminate H.
Defined.
